(** * Benchmark-comparison analysis pipeline: [plot_time_compexity.py]

    A shallow embedding of the analysis logic of the plotting script:
    the CSV loader, the per-report series derivations, the summary
    writer and the orchestrator.  NumPy's [float64] is modelled by the
    IEEE-754 binary64 instance of [SpecFloat], NumPy's [int64] by [Z]
    with its wrap-around written out, a pandas [DataFrame] by the list
    of its rows, and console output and written files by a trace of
    events.

    What the script takes from outside is a parameter of the model.
    The two library sorts are the class [Library], with their
    documented contracts in [Lawful]; the file system and the renderer
    are the class [World], whose operations may raise.  Standard
    output is taken to accept every line that is printed. *)

From Stdlib Require Import ZArith List String Ascii Bool Lia.
From Stdlib Require Import Permutation Sorted OrderedTypeEx.
From Stdlib Require Import Floats.SpecFloat.
Import ListNotations.
Local Open Scope Z_scope.

(** ** Numbers *)

(** [numpy.float64]: IEEE-754 binary64, round to nearest even. *)
Module F64.
Definition prec : Z := 53.
Definition emax : Z := 1024.
Definition t : Type := spec_float.

Definition of_int (z : Z) : t := binary_normalize prec emax z 0 false.

Definition add : t -> t -> t := SFadd prec emax.
Definition sub : t -> t -> t := SFsub prec emax.
Definition mul : t -> t -> t := SFmul prec emax.
Definition div : t -> t -> t := SFdiv prec emax.
Definition abs : t -> t := SFabs.

Definition eqb : t -> t -> bool := SFeqb.
Definition ltb : t -> t -> bool := SFltb.
Definition leb : t -> t -> bool := SFleb.

Definition zero : t := S754_zero false.
Definition one : t := Eval vm_compute in of_int 1.
Definition two : t := Eval vm_compute in of_int 2.
Definition inf : t := S754_infinity false.
Definition nan : t := S754_nan.

Definition isnan (x : t) : bool :=
  match x with S754_nan => true | _ => false end.
Definition isfinite (x : t) : bool :=
  match x with S754_zero _ | S754_finite _ _ _ => true | _ => false end.

(** A finite number that is not negative: what the data model calls a
    non-negative real. *)
Definition nonneg_real (x : t) : bool :=
  match x with
  | S754_zero _ | S754_finite false _ _ => true
  | _ => false
  end.

(** A float that is not NaN and carries the sign [s]. *)
Definition signed (s : bool) (x : t) : Prop :=
  match x with
  | S754_zero s' | S754_infinity s' | S754_finite s' _ _ => s' = s
  | S754_nan => False
  end.

(** The binade of a finite float: its value lies in
    [[2^(binade - 1), 2^binade)]. *)
Definition binade (x : t) : Z :=
  match x with
  | S754_finite _ m e => Z.pos (digits2_pos m) + e
  | _ => 0
  end.

(** The normal float [m * 2^e], with a mantissa of 53 bits, is the
    nearest binary64 number to the fraction [num / den]: its distance
    to the fraction is at most half a unit in the last place. *)
Definition nearest_to (x : t) (num den : Z) : Prop :=
  match x with
  | S754_finite false m e =>
      2 ^ 52 <= Z.pos m < 2 ^ 53 /\ e < 0 /\ 0 < den /\
      2 * Z.abs (Z.pos m * den - num * 2 ^ (- e)) <= den
  | _ => False
  end.

(** Decimal literals of the script and of the scenarios. *)
Definition lit_0_8 : t := S754_finite false 7205759403792794 (-53).
Definition lit_0_75 : t := S754_finite false 6755399441055744 (-53).
Definition lit_1e_5 : t := S754_finite false 5902958103587057 (-69).
Definition lit_1e_8 : t := S754_finite false 6044629098073146 (-79).
End F64.

(** [numpy.int64]: two's complement wrap-around on overflow. *)
Module I64.
Definition min_int : Z := - 2 ^ 63.
Definition max_int : Z := 2 ^ 63 - 1.
Definition in_range (z : Z) : Prop := min_int <= z <= max_int.
Definition wrap (z : Z) : Z := (z + 2 ^ 63) mod 2 ^ 64 - 2 ^ 63.
Definition sub (a b : Z) : Z := wrap (a - b).
Definition mul (a b : Z) : Z := wrap (a * b).
End I64.

(** ** Exceptions and results *)

Inductive exn : Type :=
| IndexError
| ValueError
| TypeError
| FileNotFoundError
| FileExistsError
| PermissionError
| UnicodeDecodeError
| ParserError
| OSError.

Inductive result (A : Type) : Type :=
| Ok (a : A)
| Raise (e : exn).
Arguments Ok {A} a.
Arguments Raise {A} e.

Definition rbind {A B : Type} (r : result A) (k : A -> result B) : result B :=
  match r with
  | Ok a => k a
  | Raise e => Raise e
  end.

Declare Scope result_scope.
Delimit Scope result_scope with result.
Notation "x <- r ;; k" := (rbind r (fun x => k))
  (at level 61, r at next level, right associativity) : result_scope.

(** ** Data model

    One row of the input file, with the seven columns the script reads.
    [Vertices], [Edges] and [Operations] are [int64] columns, [Time(ms)]
    and [MST Cost] are [float64] columns; a column of whole numbers
    below [2^53] gives the same quotients and comparisons when pandas
    reads it as [int64]. *)

Record BenchmarkRecord : Type := {
  Graph : string;
  Algorithm : string;
  Vertices : Z;
  Edges : Z;
  Time_ms : F64.t;
  Operations : Z;
  MST_Cost : F64.t
}.

(** A [DataFrame] is the list of its rows in file order. *)
Definition DataFrame : Type := list BenchmarkRecord.

(** The dtype of the columns of a frame.  [read_csv] infers it from
    the rows: a file with a header and no rows is read with columns of
    dtype [object], on which NumPy's floating-point functions are not
    defined; every sub-frame that the script derives from [df]
    inherits the dtype of [df]. *)
Inductive dtype : Type := float64 | object.

Definition column_dtype (df : DataFrame) : dtype :=
  match df with
  | [] => object
  | _ :: _ => float64
  end.

(** [df[df['Algorithm'] == name]]: a boolean mask keeps the row order. *)
Definition select_algorithm (name : string) (df : DataFrame) : DataFrame :=
  filter (fun r => String.eqb (Algorithm r) name) df.

(** [arr[0]] on a one-dimensional array. *)
Definition values0 {A : Type} (arr : list A) : result A :=
  match arr with
  | x :: _ => Ok x
  | [] => Raise IndexError
  end.

(** *** Sorting

    A stable insertion sort on a strict comparison.  It is the
    reference against which the library sorts are specified: a stable
    sort returns this list whenever the comparison is a strict weak
    order on the elements. *)

Section Sorting.
Context {A : Type}.
Variable lt : A -> A -> bool.

Fixpoint insert_by (x : A) (l : list A) : list A :=
  match l with
  | [] => [x]
  | y :: l' => if lt y x then y :: insert_by x l' else x :: y :: l'
  end.

Definition stable_sort (l : list A) : list A :=
  fold_right insert_by [] l.
End Sorting.

(** [<] on the tuples [(v, ratio)] built by [zip]: the first position
    where the two tuples differ under [==] decides. *)
Definition pair_lt (a b : Z * F64.t) : bool :=
  if negb (fst a =? fst b) then fst a <? fst b
  else if negb (F64.eqb (snd a) (snd b)) then F64.ltb (snd a) (snd b)
  else false.

(** The two sorts of the script.  [df.sort_values('Vertices')] takes
    the rows of [df] at the positions returned by [numpy.argsort] on
    the key column, with NumPy's default kind; the positions depend on
    the keys only.  Python's [sorted] is applied to the list of tuples
    [(v, ratio)]. *)
Class Library : Type := {
  argsort : list Z -> list nat;
  sorted : list (Z * F64.t) -> list (Z * F64.t)
}.

(** [arr.take(indexer)]: the entries at the positions of [indexer], in
    that order. *)
Definition take {A : Type} (indexer : list nat) (arr : list A) : list A :=
  flat_map (fun i => match nth_error arr i with
                     | Some a => [a]
                     | None => []
                     end) indexer.

(** What the documentation of the two sorts promises.  [argsort]
    returns a permutation of the positions along which the keys
    ascend; NumPy's default kind is not stable, so nothing is said on
    the order of equal keys.  [sorted] returns a permutation of its
    argument; it is stable, so on tuples whose ratios are numbers,
    where [<] is a strict weak order, it returns the stable sort.  A
    NaN ratio compares false with every ratio: the order among tuples
    with the same [v] is then left open, and the first components,
    which are integers, still ascend. *)
Class Lawful (lib : Library) : Prop := {
  argsort_perm : forall keys,
    Permutation (argsort keys) (seq 0 (List.length keys));
  argsort_sorted : forall keys,
    StronglySorted Z.le (take (argsort keys) keys);
  sorted_perm : forall l, Permutation (sorted l) l;
  sorted_ascending : forall l, StronglySorted Z.le (map fst (sorted l));
  sorted_stable : forall l,
    Forall (fun p => F64.isnan (snd p) = false) l ->
    sorted l = stable_sort pair_lt l
}.

(** [df.sort_values('Vertices')]. *)
Definition sort_values_Vertices {lib : Library} (df : DataFrame) : DataFrame :=
  take (argsort (map Vertices df)) df.

(** A library whose two sorts are stable: the insertion sort above. *)
Definition stable_argsort (keys : list Z) : list nat :=
  map fst (stable_sort (fun a b : nat * Z => snd a <? snd b)
             (combine (seq 0 (List.length keys)) keys)).

Definition reference_library : Library :=
  {| argsort := stable_argsort; sorted := stable_sort pair_lt |}.

(** *** Grouping

    [df.groupby('Graph')] iterates over the distinct keys in ascending
    order; each group keeps the rows of its key in file order. *)

(** The strict order of the keys. *)
Definition key_lt (a b : string) : Prop := String.compare a b = Lt.

Fixpoint insert_key (k : string) (ks : list string) : list string :=
  match ks with
  | [] => [k]
  | k' :: ks' =>
      match String.compare k k' with
      | Lt => k :: ks
      | Eq => ks
      | Gt => k' :: insert_key k ks'
      end
  end.

Definition group_keys (df : DataFrame) : list string :=
  fold_right insert_key [] (map Graph df).

Definition group_of (g : string) (df : DataFrame) : DataFrame :=
  filter (fun r => String.eqb (Graph r) g) df.

Definition groupby_Graph (df : DataFrame) : list (string * DataFrame) :=
  map (fun g => (g, group_of g df)) (group_keys df).

(** ** Metric derivation *)

(** The body of the loop of [plot_performance_ratio] for one group:
    the first Prim time, the first Kruskal time and the first vertex
    count of the group, then the guarded division. *)
Definition group_ratio (group : DataFrame) : result (option (Z * F64.t)) :=
  (prim_time <- values0 (map Time_ms (select_algorithm "Prim" group)) ;;
   kruskal_time <- values0 (map Time_ms (select_algorithm "Kruskal" group)) ;;
   v <- values0 (map Vertices group) ;;
   if F64.ltb F64.zero prim_time
   then Ok (Some (v, F64.div kruskal_time prim_time))
   else Ok None)%result.

(** The loop itself, with its two accumulators [ratios] and [vertices]. *)
Fixpoint ratio_loop (groups : list (string * DataFrame))
    (ratios : list F64.t) (vertices : list Z)
    : result (list F64.t * list Z) :=
  match groups with
  | [] => Ok (ratios, vertices)
  | (_, group) :: rest =>
      match group_ratio group with
      | Raise e => Raise e
      | Ok (Some (v, ratio)) => ratio_loop rest (ratios ++ [ratio]) (vertices ++ [v])
      | Ok None => ratio_loop rest ratios vertices
      end
  end.

(** Unzipping [sorted_pairs] into the two names [vertices] and [ratios]:
    the unpacking fails when [zip] yields nothing. *)
Definition unzip_pairs (sorted_pairs : list (Z * F64.t))
    : result (list Z * list F64.t) :=
  match sorted_pairs with
  | [] => Raise ValueError
  | _ :: _ => Ok (map fst sorted_pairs, map snd sorted_pairs)
  end.

(** The two tuples [vertices] and [ratios] drawn by
    [plot_performance_ratio]. *)
Definition performance_ratio_series {lib : Library} (df : DataFrame)
    : result (list Z * list F64.t) :=
  match ratio_loop (groupby_Graph df) [] [] with
  | Raise e => Raise e
  | Ok (ratios, vertices) => unzip_pairs (sorted (combine vertices ratios))
  end.

Inductive color : Type := green | red.

Definition ratio_colors (ratios : list F64.t) : list color :=
  map (fun r => if F64.ltb r F64.one then green else red) ratios.

(** [df['Edges'] / (df['Vertices'] * (df['Vertices'] - 1) / 2)]: the
    product is taken in [int64], the two divisions in [float64]. *)
Definition Edge_Density (r : BenchmarkRecord) : F64.t :=
  F64.div (F64.of_int (Edges r))
    (F64.div (F64.of_int (I64.mul (Vertices r) (I64.sub (Vertices r) 1)))
       (F64.of_int 2)).

(** *** Elementwise operations and [numpy.allclose] *)

(** Broadcasting of two one-dimensional arrays: equal lengths pair up
    position by position, a length-one array is stretched, anything
    else is a shape error. *)
Definition np_broadcast2 {A B C : Type} (f : A -> B -> C)
    (xs : list A) (ys : list B) : result (list C) :=
  match xs, ys with
  | [x], _ => Ok (map (f x) ys)
  | _, [y] => Ok (map (fun x => f x y) xs)
  | _, _ =>
      if Nat.eqb (List.length xs) (List.length ys)
      then Ok (map (fun p => f (fst p) (snd p)) (combine xs ys))
      else Raise ValueError
  end.

(** Python's [sum] over a boolean array counts its true entries. *)
Definition count_true (bs : list bool) : nat :=
  List.length (filter (fun b => b) bs).

Definition rtol : F64.t := F64.lit_1e_5.
Definition atol : F64.t := F64.lit_1e_8.

(** [abs(x - y) <= atol + rtol * abs(y)]. *)
Definition within_tol (x y : F64.t) : bool :=
  F64.leb (F64.abs (F64.sub x y)) (F64.add atol (F64.mul rtol (F64.abs y))).

(** [numpy.isclose] with its default tolerances and [equal_nan=False]:
    finite pairs are compared within the tolerance, other pairs with
    [==]. *)
Definition isclose (x y : F64.t) : bool :=
  if F64.isfinite x && F64.isfinite y then within_tol x y else F64.eqb x y.

Definition allclose (xs ys : list F64.t) : result bool :=
  match np_broadcast2 isclose xs ys with
  | Raise e => Raise e
  | Ok close => Ok (forallb (fun b => b) close)
  end.

(** [numpy.allclose] on two columns of dtype [dt]: [isfinite] has no
    loop for dtype [object] and raises [TypeError], whatever the
    length of the arrays. *)
Definition np_allclose (dt : dtype) (xs ys : list F64.t) : result bool :=
  match dt with
  | object => Raise TypeError
  | float64 => allclose xs ys
  end.

(** ** Reports *)

(** The data drawn on each figure. *)
Inductive figure : Type :=
| ExecutionTimeFigure (prim kruskal : list (Z * F64.t))
| OperationsFigure (prim kruskal : list (Z * Z))
| MSTCostFigure (prim kruskal : list (Z * F64.t)) (costs_match_note : bool)
| PerformanceRatioFigure (vertices : list Z) (ratios : list F64.t)
    (colors : list color)
| EdgeDensityFigure (prim kruskal : list (F64.t * F64.t))
| AllInOneFigure (time_prim time_kruskal : list (Z * F64.t))
    (ops_prim ops_kruskal : list (Z * Z))
    (cost_prim cost_kruskal : list (Z * F64.t))
    (bars_prim bars_kruskal : list F64.t) (ticks : list Z).

(** The figures of the text summary that depend on the pairing of the
    two sub-frames.  The averages of the report are formatted library
    output and never raise; they are left out. *)
Record summary : Type := {
  prim_total : nat;
  kruskal_total : nat;
  prim_wins : nat;
  kruskal_wins : nat;
  costs_match : bool
}.

Inductive message : Type :=
| Text (line : string)
| Loaded (filepath : string) (rows cols : nat)
| Columns (names : list string)
| ErrorLoading (filepath : string) (e : exn)
| Saved (output_path : string)
| SummaryText (s : summary)
| AllSaved (output : string)
| ErrorGenerating (e : exn)
| Traceback (e : exn).

Inductive event : Type :=
| Print (m : message)
| MakeDirs (path : string)
| SaveFig (output_path : string) (fig : figure)
| WriteFile (output_path : string) (s : summary).

(** Effectful code: the trace of events emitted so far and either a
    value or the exception that stopped the computation. *)
Definition M (A : Type) : Type := (list event * result A)%type.

Definition ret {A : Type} (a : A) : M A := ([], Ok a).
Definition emit (ev : event) : M unit := ([ev], Ok tt).
Definition lift {A : Type} (r : result A) : M A := ([], r).

Definition bind {A B : Type} (m : M A) (k : A -> M B) : M B :=
  match m with
  | (tr, Raise e) => (tr, Raise e)
  | (tr, Ok a) => let (tr', r) := k a in (tr ++ tr', r)
  end.

(** [try: body except Exception as e: handler]. *)
Definition try_except {A : Type} (body : M A) (handler : exn -> M A) : M A :=
  match body with
  | (tr, Raise e) => let (tr', r) := handler e in (tr ++ tr', r)
  | (tr, Ok a) => (tr, Ok a)
  end.

(** ** The world outside the script

    The file system and the renderer: the reader of the input file,
    [os.makedirs(path, exist_ok=True)], the pair [plt.tight_layout()]
    and [plt.savefig(path)] that lays out, renders and writes the
    current figure, and [open(path, 'w')] with [f.write(text)].  Each
    of them either succeeds or raises; which exception, and on which
    argument, is left open.  The drawing calls before the layout only
    record what is to be drawn. *)
Class World : Type := {
  read_csv : string -> result DataFrame;
  makedirs : string -> result unit;
  savefig : string -> figure -> result unit;
  write_text : string -> summary -> result unit
}.

(** A world in which output never fails. *)
Definition reliable_output (world : World) : Prop :=
  (forall output_path fig, savefig output_path fig = Ok tt) /\
  (forall output_path s, write_text output_path s = Ok tt).

Declare Scope effect_scope.
Delimit Scope effect_scope with effect.
Notation "x <- m ;; k" := (bind m (fun x => k))
  (at level 61, m at next level, right associativity) : effect_scope.
Notation "m ;; k" := (bind m (fun _ => k))
  (at level 61, right associativity) : effect_scope.

(** [os.path.join(output_dir, name)] for a relative [name]. *)
Fixpoint ends_with_slash (s : string) : bool :=
  match s with
  | EmptyString => false
  | String c EmptyString => Ascii.eqb c "/"%char
  | String _ s' => ends_with_slash s'
  end.

Definition path_join (output_dir name : string) : string :=
  match output_dir with
  | EmptyString => name
  | _ => if ends_with_slash output_dir then (output_dir ++ name)%string
         else (output_dir ++ "/" ++ name)%string
  end.

(** The end of every figure generator: layout and rendering, then the
    confirmation.  When the layout or the rendering raises, no file is
    recorded and nothing is printed. *)
Definition save {world : World} (output_dir name : string) (fig : figure)
    : M unit :=
  (let output_path := path_join output_dir name in
   lift (savefig output_path fig) ;;
   emit (SaveFig output_path fig) ;;
   emit (Print (Saved output_path)))%effect.

(** The points [(Vertices, y)] of one line. *)
Definition line_series {Y : Type} (y : BenchmarkRecord -> Y) (data : DataFrame)
    : list (Z * Y) :=
  map (fun r => (Vertices r, y r)) data.

Section Generators.
Context {lib : Library} {world : World}.

Definition plot_execution_time_comparison (df : DataFrame) (output_dir : string)
    : M unit :=
  let prim_data := sort_values_Vertices (select_algorithm "Prim" df) in
  let kruskal_data := sort_values_Vertices (select_algorithm "Kruskal" df) in
  save output_dir "execution_time_comparison.png"
    (ExecutionTimeFigure (line_series Time_ms prim_data)
       (line_series Time_ms kruskal_data)).

Definition plot_operations_comparison (df : DataFrame) (output_dir : string)
    : M unit :=
  let prim_data := sort_values_Vertices (select_algorithm "Prim" df) in
  let kruskal_data := sort_values_Vertices (select_algorithm "Kruskal" df) in
  save output_dir "operations_comparison.png"
    (OperationsFigure (line_series Operations prim_data)
       (line_series Operations kruskal_data)).

(** The verdict of [plot_mst_cost_verification]: the two cost arrays
    are taken from the sub-frames sorted by [Vertices]. *)
Definition cost_verification_verdict (df : DataFrame) : result bool :=
  let prim_data := sort_values_Vertices (select_algorithm "Prim" df) in
  let kruskal_data := sort_values_Vertices (select_algorithm "Kruskal" df) in
  np_allclose (column_dtype df)
    (map MST_Cost prim_data) (map MST_Cost kruskal_data).

Definition plot_mst_cost_verification (df : DataFrame) (output_dir : string)
    : M unit :=
  (let prim_data := sort_values_Vertices (select_algorithm "Prim" df) in
   let kruskal_data := sort_values_Vertices (select_algorithm "Kruskal" df) in
   note <- lift (cost_verification_verdict df) ;;
   save output_dir "mst_cost_verification.png"
     (MSTCostFigure (line_series MST_Cost prim_data)
        (line_series MST_Cost kruskal_data) note))%effect.

Definition plot_performance_ratio (df : DataFrame) (output_dir : string)
    : M unit :=
  (series <- lift (performance_ratio_series df) ;;
   let (vertices, ratios) := series in
   save output_dir "performance_ratio.png"
     (PerformanceRatioFigure vertices ratios (ratio_colors ratios)))%effect.

Definition plot_edge_density_impact (df : DataFrame) (output_dir : string)
    : M unit :=
  let points data := map (fun r => (Edge_Density r, Time_ms r)) data in
  save output_dir "edge_density_impact.png"
    (EdgeDensityFigure (points (select_algorithm "Prim" df))
       (points (select_algorithm "Kruskal" df))).

Definition plot_all_in_one (df : DataFrame) (output_dir : string) : M unit :=
  (let prim_data := sort_values_Vertices (select_algorithm "Prim" df) in
   let kruskal_data := sort_values_Vertices (select_algorithm "Kruskal" df) in
   let x := seq 0 (List.length prim_data) in
   bars_prim <- lift (np_broadcast2 (fun _ h => h) x (map Time_ms prim_data)) ;;
   bars_kruskal <- lift (np_broadcast2 (fun _ h => h) x (map Time_ms kruskal_data)) ;;
   save output_dir "comprehensive_comparison.png"
     (AllInOneFigure
        (line_series Time_ms prim_data) (line_series Time_ms kruskal_data)
        (line_series Operations prim_data) (line_series Operations kruskal_data)
        (line_series MST_Cost prim_data) (line_series MST_Cost kruskal_data)
        bars_prim bars_kruskal (map Vertices prim_data)))%effect.
End Generators.

(** ** Summary statistics writer *)

(** The two win counts: the time arrays of the two sub-frames are
    compared position by position, in file order: no sort, no join. *)
Definition win_counts (df : DataFrame) : result (nat * nat) :=
  (let prim_data := select_algorithm "Prim" df in
   let kruskal_data := select_algorithm "Kruskal" df in
   prim_faster <- np_broadcast2 F64.ltb
                    (map Time_ms prim_data) (map Time_ms kruskal_data) ;;
   kruskal_faster <- np_broadcast2 F64.ltb
                       (map Time_ms kruskal_data) (map Time_ms prim_data) ;;
   Ok (count_true prim_faster, count_true kruskal_faster))%result.

(** The summary: the win counts first, then the cost check on the two
    cost arrays in file order. *)
Definition summary_statistics (df : DataFrame) : result summary :=
  (let prim_data := select_algorithm "Prim" df in
   let kruskal_data := select_algorithm "Kruskal" df in
   wins <- win_counts df ;;
   verdict <- np_allclose (column_dtype df)
                (map MST_Cost prim_data) (map MST_Cost kruskal_data) ;;
   Ok {| prim_total := List.length prim_data;
         kruskal_total := List.length kruskal_data;
         prim_wins := fst wins;
         kruskal_wins := snd wins;
         costs_match := verdict |})%result.

Definition generate_summary_statistics {world : World} (df : DataFrame)
    (output_dir : string) : M unit :=
  (s <- lift (summary_statistics df) ;;
   emit (Print (SummaryText s)) ;;
   let output_path := path_join output_dir "summary_statistics.txt" in
   lift (write_text output_path s) ;;
   emit (WriteFile output_path s) ;;
   emit (Print (Saved output_path)))%effect.

(** ** Loader and orchestrator *)

Record arguments : Type := { input : string; output : string }.

Definition column_names : list string :=
  ["Graph"; "Algorithm"; "Vertices"; "Edges"; "Time(ms)"; "Operations";
   "MST Cost"]%string.

Definition rule (c : string) : message :=
  Text (String.concat "" (repeat c 60)).

Section Orchestrator.
Context {lib : Library} {world : World}.

Definition load_csv_data (filepath : string) : M (option DataFrame) :=
  try_except
    (df <- lift (read_csv filepath) ;;
     emit (Print (Loaded filepath (List.length df) (List.length column_names))) ;;
     emit (Print (Columns column_names)) ;;
     ret (Some df))%effect
    (fun e => emit (Print (ErrorLoading filepath e)) ;; ret None)%effect.

Definition generate_all (df : DataFrame) (output_dir : string) : M unit :=
  (plot_execution_time_comparison df output_dir ;;
   plot_operations_comparison df output_dir ;;
   plot_mst_cost_verification df output_dir ;;
   plot_performance_ratio df output_dir ;;
   plot_edge_density_impact df output_dir ;;
   plot_all_in_one df output_dir ;;
   generate_summary_statistics df output_dir ;;
   emit (Print (rule "-")) ;;
   emit (Print (AllSaved output_dir)) ;;
   emit (Print (rule "=")))%effect.

(** [os.makedirs] is called before the banner and outside every
    [try]: its exception leaves [main]. *)
Definition main (args : arguments) : M unit :=
  (lift (makedirs (output args)) ;;
   emit (MakeDirs (output args)) ;;
   emit (Print (rule "=")) ;;
   emit (Print (Text "MST RESULTS PLOTTING SCRIPT")) ;;
   emit (Print (rule "=")) ;;
   df <- load_csv_data (input args) ;;
   match df with
   | None => ret tt
   | Some df =>
       emit (Print (Text (String "010" "Generating plots..."))) ;;
       emit (Print (rule "-")) ;;
       try_except (generate_all df (output args))
         (fun e => emit (Print (ErrorGenerating e)) ;;
                   emit (Print (Traceback e)))
   end)%effect.
End Orchestrator.

(** The files written by a run: the figures saved and the text files
    written, in order. *)
Definition artifacts (tr : list event) : list string :=
  flat_map (fun ev =>
              match ev with
              | SaveFig output_path _ => [output_path]
              | WriteFile output_path _ => [output_path]
              | _ => []
              end) tr.

(** ** Notions used to state the properties *)

(** The entries the loop of [plot_performance_ratio] appends, group by
    group, when no group raises. *)
Definition contributions (groups : list (string * DataFrame))
    : list (Z * F64.t) :=
  flat_map (fun g => match group_ratio (snd g) with
                     | Ok (Some entry) => [entry]
                     | _ => []
                     end) groups.

(** The paired times of the summary writer, in the row order of the two
    sub-frames. *)
Definition paired_times (df : DataFrame) : list (F64.t * F64.t) :=
  combine (map Time_ms (select_algorithm "Prim" df))
          (map Time_ms (select_algorithm "Kruskal" df)).

(** The number of paired times that are exactly equal.  The summary
    writer does not report it. *)
Definition ties (df : DataFrame) : nat :=
  count_true (map (fun p => F64.eqb (fst p) (snd p)) (paired_times df)).

(** The win counts of a join keyed by [Graph]: every Prim record is
    compared with the Kruskal record of the same graph. *)
Definition kruskal_time_of (g : string) (kruskal_data : DataFrame)
    : option F64.t :=
  option_map Time_ms (find (fun k => String.eqb (Graph k) g) kruskal_data).

Definition joined_wins (faster : F64.t -> F64.t -> bool) (df : DataFrame) : nat :=
  let kruskal_data := select_algorithm "Kruskal" df in
  count_true
    (map (fun p => match kruskal_time_of (Graph p) kruskal_data with
                   | Some tk => faster (Time_ms p) tk
                   | None => false
                   end)
         (select_algorithm "Prim" df)).

Definition per_graph_prim_wins : DataFrame -> nat :=
  joined_wins (fun tp tk => F64.ltb tp tk).
Definition per_graph_kruskal_wins : DataFrame -> nat :=
  joined_wins (fun tp tk => F64.ltb tk tp).

(** Two frames with the same graphs and algorithms, row by row; the
    measurements may differ. *)
Definition same_layout (df df' : DataFrame) : Prop :=
  map (fun r => (Graph r, Algorithm r)) df =
  map (fun r => (Graph r, Algorithm r)) df'.

Definition with_time (t : F64.t) (r : BenchmarkRecord) : BenchmarkRecord :=
  {| Graph := Graph r; Algorithm := Algorithm r; Vertices := Vertices r;
     Edges := Edges r; Time_ms := t; Operations := Operations r;
     MST_Cost := MST_Cost r |}.

(** Measurements that expose a pairing of graph [a] with graph [b]. *)
Definition exposing_times (a b : string) (r : BenchmarkRecord) : BenchmarkRecord :=
  if String.eqb (Algorithm r) "Prim"
  then with_time (if String.eqb (Graph r) a then F64.of_int 1 else F64.of_int 5) r
  else with_time (if String.eqb (Graph r) b then F64.of_int 3 else F64.of_int 0) r.

(** Every graph has at most one record of each of the two
    algorithms. *)
Definition one_record_per_algorithm (df : DataFrame) : Prop :=
  NoDup (map Graph (select_algorithm "Prim" df)) /\
  NoDup (map Graph (select_algorithm "Kruskal" df)).

(** All records of a graph carry the same vertex count. *)
Definition consistent_vertices (df : DataFrame) : Prop :=
  forall r1 r2, In r1 df -> In r2 df -> Graph r1 = Graph r2 ->
                Vertices r1 = Vertices r2.

(** No two records of the same algorithm share a vertex count: the
    order of every sorted sub-frame is then determined. *)
Definition distinct_vertices (df : DataFrame) : Prop :=
  NoDup (map Vertices (select_algorithm "Prim" df)) /\
  NoDup (map Vertices (select_algorithm "Kruskal" df)).

(** A decision procedure for lists of distinct integers. *)
Fixpoint distinct (l : list Z) : bool :=
  match l with
  | [] => true
  | x :: l' => negb (existsb (Z.eqb x) l') && distinct l'
  end.

(** Every ratio that the loop computes is a number.  This holds
    whenever the times are the non-negative reals of the data model:
    a finite time divided by a positive time is not NaN. *)
Definition ratios_are_numbers (df : DataFrame) : Prop :=
  Forall (fun p => F64.isnan (snd p) = false)
    (contributions (groupby_Graph df)).

(** A step of the run that either writes the file [output_path] and
    returns, or raises before it has written anything. *)
Definition writes_or_raises (step : M unit) (output_path : string) : Prop :=
  (snd step = Ok tt /\ artifacts (fst step) = [output_path]) \/
  (exists e, snd step = Raise e /\ artifacts (fst step) = []).

(** ** Example datasets *)

Definition row (g a : string) (v e : Z) (t : F64.t) (o : Z) (c : F64.t)
    : BenchmarkRecord :=
  {| Graph := g; Algorithm := a; Vertices := v; Edges := e; Time_ms := t;
     Operations := o; MST_Cost := c |}.

(** Scenario A; the edge and operation counts are left open. *)
Definition scenario_A (e1 e2 o1 o2 o3 o4 : Z) : DataFrame :=
  [ row "graph_1" "Prim" 10 e1 (F64.of_int 5) o1 (F64.of_int 100);
    row "graph_1" "Kruskal" 10 e1 (F64.of_int 4) o2 (F64.of_int 100);
    row "graph_2" "Prim" 20 e2 (F64.of_int 12) o3 (F64.of_int 250);
    row "graph_2" "Kruskal" 20 e2 (F64.of_int 9) o4 (F64.of_int 250) ].

(** Scenario B: [graph_2] has a Prim record and no Kruskal record. *)
Definition scenario_B : DataFrame :=
  [ row "graph_1" "Prim" 10 20 (F64.of_int 5) 100 (F64.of_int 100);
    row "graph_1" "Kruskal" 10 20 (F64.of_int 4) 90 (F64.of_int 100);
    row "graph_2" "Prim" 20 40 (F64.of_int 12) 300 (F64.of_int 250) ].

(** A graph with two Prim records. *)
Definition duplicated_prim : DataFrame :=
  [ row "graph_1" "Prim" 10 20 (F64.of_int 5) 100 (F64.of_int 100);
    row "graph_1" "Prim" 10 20 (F64.of_int 8) 100 (F64.of_int 100);
    row "graph_1" "Kruskal" 10 20 (F64.of_int 4) 90 (F64.of_int 100) ].

(** Finite positive times [2^-1000] ms and [2^1000] ms. *)
Definition tiny_time : F64.t := S754_finite false 4503599627370496 (-1052).
Definition huge_time : F64.t := S754_finite false 4503599627370496 948.

Definition overflowing_times : DataFrame :=
  [ row "graph_1" "Prim" 10 20 tiny_time 100 (F64.of_int 100);
    row "graph_1" "Kruskal" 10 20 huge_time 90 (F64.of_int 100) ].

(** A missing Kruskal time, read as NaN. *)
Definition missing_kruskal_time : DataFrame :=
  [ row "graph_1" "Prim" 10 20 (F64.of_int 5) 100 (F64.of_int 100);
    row "graph_1" "Kruskal" 10 20 F64.nan 90 (F64.of_int 100) ].

(** Every Prim time is zero. *)
Definition zero_prim_times : DataFrame :=
  [ row "graph_1" "Prim" 10 20 F64.zero 100 (F64.of_int 100);
    row "graph_1" "Kruskal" 10 20 (F64.of_int 4) 90 (F64.of_int 100);
    row "graph_2" "Prim" 20 40 F64.zero 300 (F64.of_int 250);
    row "graph_2" "Kruskal" 20 40 (F64.of_int 9) 280 (F64.of_int 250) ].

(** Two graphs with the same vertex count, in two row orders. *)
Definition tied_vertices : DataFrame :=
  [ row "graph_1" "Prim" 10 20 (F64.of_int 5) 100 (F64.of_int 100);
    row "graph_1" "Kruskal" 10 20 (F64.of_int 4) 90 (F64.of_int 100);
    row "graph_2" "Prim" 10 30 (F64.of_int 7) 120 (F64.of_int 80);
    row "graph_2" "Kruskal" 10 30 (F64.of_int 6) 110 (F64.of_int 80) ].

Definition tied_vertices_swapped : DataFrame :=
  [ row "graph_2" "Prim" 10 30 (F64.of_int 7) 120 (F64.of_int 80);
    row "graph_2" "Kruskal" 10 30 (F64.of_int 6) 110 (F64.of_int 80);
    row "graph_1" "Prim" 10 20 (F64.of_int 5) 100 (F64.of_int 100);
    row "graph_1" "Kruskal" 10 20 (F64.of_int 4) 90 (F64.of_int 100) ].

(** A record whose vertex count squared leaves the range of [int64]. *)
Definition wide_graph : BenchmarkRecord :=
  row "graph_1" "Prim" 4294967296 1 (F64.of_int 5) 100 (F64.of_int 100).

(** Scenario C. *)
Definition scenario_C : BenchmarkRecord :=
  row "graph_1" "Prim" 2 1 (F64.of_int 5) 100 (F64.of_int 100).

(** The two sub-frames list the graphs in opposite orders. *)
Definition crossed_order : DataFrame :=
  [ row "graph_1" "Prim" 10 20 (F64.of_int 5) 100 (F64.of_int 100);
    row "graph_2" "Prim" 20 40 (F64.of_int 12) 300 (F64.of_int 250);
    row "graph_2" "Kruskal" 20 40 (F64.of_int 9) 280 (F64.of_int 250);
    row "graph_1" "Kruskal" 10 20 (F64.of_int 4) 90 (F64.of_int 100) ].

(** The two sub-frames list the graphs in opposite orders, with times
    for which the positional comparison happens to agree with the
    comparison graph by graph. *)
Definition crossed_lucky : DataFrame :=
  [ row "graph_1" "Prim" 10 20 (F64.of_int 5) 100 (F64.of_int 100);
    row "graph_2" "Prim" 20 40 (F64.of_int 12) 300 (F64.of_int 250);
    row "graph_2" "Kruskal" 20 40 (F64.of_int 20) 280 (F64.of_int 250);
    row "graph_1" "Kruskal" 10 20 (F64.of_int 30) 90 (F64.of_int 100) ].

(** *** Example worlds *)

(** Every operation succeeds and the input file holds [df]. *)
Definition ideal_world (df : DataFrame) : World :=
  {| read_csv := fun _ => Ok df;
     makedirs := fun _ => Ok tt;
     savefig := fun _ _ => Ok tt;
     write_text := fun _ _ => Ok tt |}.

(** Reading the input file fails with [e]. *)
Definition unreadable_world (e : exn) : World :=
  {| read_csv := fun _ => Raise e;
     makedirs := fun _ => Ok tt;
     savefig := fun _ _ => Ok tt;
     write_text := fun _ _ => Ok tt |}.


(** The layout of every figure fails. *)
Definition failing_renderer (df : DataFrame) : World :=
  {| read_csv := fun _ => Ok df;
     makedirs := fun _ => Ok tt;
     savefig := fun _ _ => Raise ValueError;
     write_text := fun _ _ => Ok tt |}.

Definition default_args : arguments :=
  {| input := "data/output/comparison.csv"; output := "docs/plots" |}.

(** ** Notions used for the remaining reports *)

(** Two one-dimensional shapes broadcast when they are equal or one of
    them is 1. *)
Definition shapes_compatible (n m : nat) : bool :=
  Nat.eqb n m || Nat.eqb n 1 || Nat.eqb m 1.

(** The length of the broadcast of two compatible shapes. *)
Definition broadcast_length (n m : nat) : nat :=
  if Nat.eqb n 1 then m else n.

(** The file names of the seven artifacts, in the order in which the
    orchestrator calls their generators. *)
Definition artifact_names : list string :=
  ["execution_time_comparison.png"; "operations_comparison.png";
   "mst_cost_verification.png"; "performance_ratio.png";
   "edge_density_impact.png"; "comprehensive_comparison.png";
   "summary_statistics.txt"]%string.

Definition all_artifacts (output_dir : string) : list string :=
  map (path_join output_dir) artifact_names.

(** The rows the reports select: those of the two algorithms. *)
Definition benchmarked (r : BenchmarkRecord) : bool :=
  String.eqb (Algorithm r) "Prim" || String.eqb (Algorithm r) "Kruskal".

(** The numbers of Prim and of Kruskal rows. *)
Definition prim_count (df : DataFrame) : nat :=
  List.length (select_algorithm "Prim" df).
Definition kruskal_count (df : DataFrame) : nat :=
  List.length (select_algorithm "Kruskal" df).

(** Two Prim rows and no Kruskal row. *)
Definition prim_only : DataFrame :=
  [ row "graph_1" "Prim" 10 20 (F64.of_int 5) 100 (F64.of_int 100);
    row "graph_2" "Prim" 20 40 (F64.of_int 12) 300 (F64.of_int 250) ].

(** One Prim row against three Kruskal rows. *)
Definition one_against_three : DataFrame :=
  [ row "graph_1" "Prim" 10 20 (F64.of_int 5) 100 (F64.of_int 100);
    row "graph_1" "Kruskal" 10 20 (F64.of_int 6) 90 (F64.of_int 100);
    row "graph_2" "Kruskal" 20 40 (F64.of_int 7) 280 (F64.of_int 100);
    row "graph_3" "Kruskal" 30 60 (F64.of_int 8) 500 (F64.of_int 100) ].

(** Scenario A followed by a row of a third algorithm. *)
Definition with_third_algorithm : DataFrame :=
  scenario_A 20 40 1 2 3 4 ++
  [ row "graph_3" "Boruvka" 30 60 (F64.of_int 7) 50 (F64.of_int 300) ].

(** A graph with a single vertex, and the complete graph on five
    vertices. *)
Definition single_vertex : BenchmarkRecord :=
  row "graph_1" "Prim" 1 3 (F64.of_int 5) 100 (F64.of_int 100).

Definition complete_graph : BenchmarkRecord :=
  row "graph_1" "Prim" 5 10 (F64.of_int 5) 100 (F64.of_int 100).

(** One graph on which the two algorithms take the same time. *)
Definition tied_times : DataFrame :=
  [ row "graph_1" "Prim" 10 20 (F64.of_int 5) 100 (F64.of_int 100);
    row "graph_1" "Kruskal" 10 20 (F64.of_int 5) 90 (F64.of_int 100) ].

(** A single Kruskal row and no Prim row. *)
Definition kruskal_only : DataFrame :=
  [ row "graph_1" "Kruskal" 10 20 (F64.of_int 4) 90 (F64.of_int 100) ].

(** A single row of a third algorithm. *)
Definition third_algorithm_only : DataFrame :=
  [ row "graph_3" "Boruvka" 30 60 (F64.of_int 7) 50 (F64.of_int 300) ].

(** * Properties *)

(** ** Floating-point facts *)

Module F64Facts.
Import F64.

Lemma shr_1_nonneg mrs : 0 <= shr_m mrs -> 0 <= shr_m (shr_1 mrs).
Proof.
  destruct mrs as [m r s]; simpl.
  destruct m as [|p|p]; simpl; try lia; destruct p; simpl; lia.
Qed.

Lemma iter_shr_1_nonneg p : forall mrs,
  0 <= shr_m mrs -> 0 <= shr_m (iter_pos shr_1 p mrs).
Proof.
  induction p as [p IH|p IH|]; intros mrs H; simpl.
  - apply IH, IH, shr_1_nonneg, H.
  - apply IH, IH, H.
  - apply shr_1_nonneg, H.
Qed.

Lemma shr_m_of_loc m l : shr_m (shr_record_of_loc m l) = m.
Proof. destruct l as [|[| |]]; reflexivity. Qed.

Lemma shr_fexp_nonneg pr em m e l :
  0 <= m -> 0 <= shr_m (fst (shr_fexp pr em m e l)).
Proof.
  intros H. unfold shr_fexp, shr.
  destruct (fexp pr em (Zdigits2 m + e) - e) as [|p|p]; simpl;
    rewrite ?shr_m_of_loc; auto.
  apply iter_shr_1_nonneg. now rewrite shr_m_of_loc.
Qed.

Lemma round_nearest_even_nonneg m l : 0 <= m -> 0 <= round_nearest_even m l.
Proof.
  intros H. unfold round_nearest_even.
  destruct l as [|[| |]]; try lia. destruct (Z.even m); lia.
Qed.

(** Rounding a non-negative mantissa never produces NaN and keeps the
    sign it is given. *)
Lemma binary_round_aux_signed pr em sx mx ex lx :
  0 <= mx -> signed sx (binary_round_aux pr em sx mx ex lx).
Proof.
  intros H. unfold binary_round_aux.
  pose proof (shr_fexp_nonneg pr em mx ex lx H) as H1.
  destruct (shr_fexp pr em mx ex lx) as [mrs' e']. simpl in H1.
  pose proof (shr_fexp_nonneg pr em _ e' loc_Exact
                (round_nearest_even_nonneg _ (loc_of_shr_record mrs') H1)) as H2.
  destruct (shr_fexp pr em (round_nearest_even (shr_m mrs') (loc_of_shr_record mrs'))
              e' loc_Exact) as [mrs'' e'']. simpl in H2.
  destruct (shr_m mrs'') as [|m|m]; simpl; try reflexivity.
  - destruct (e'' <=? em - pr); reflexivity.
  - lia.
Qed.

Lemma binary_round_signed pr em sx mx ex :
  signed sx (binary_round pr em sx mx ex).
Proof.
  unfold binary_round.
  destruct (shl_align mx ex _) as [mz ez].
  apply binary_round_aux_signed. lia.
Qed.

Lemma div_core_nonneg pr em mx ex my ey :
  0 <= fst (fst (SFdiv_core_binary pr em (Z.pos mx) ex (Z.pos my) ey)).
Proof.
  unfold SFdiv_core_binary.
  set (s := ex - ey - _).
  set (m' := match s with Z0 => Z.pos mx | Z.pos _ => Z.shiftl (Z.pos mx) s | Z.neg _ => 0 end).
  assert (Hm : 0 <= m').
  { subst m'. destruct s; try lia. apply Z.shiftl_nonneg. lia. }
  pose proof (Z_div_mod m' (Z.pos my) eq_refl) as Hd.
  destruct (Z.div_eucl m' (Z.pos my)) as [q r]. simpl.
  destruct Hd as [Hq Hr]. nia.
Qed.

(** Dividing a finite number by a positive one never yields NaN. *)
Lemma div_finite_by_positive k p :
  isfinite k = true -> ltb zero p = true -> isnan (div k p) = false.
Proof.
  intros Hk Hp.
  destruct k as [sk|sk| |sk mk ek]; try discriminate;
    destruct p as [sp|sp| |sp mp ep]; try discriminate; try reflexivity.
  unfold div, SFdiv.
  pose proof (div_core_nonneg prec emax mk ek mp ep) as H.
  destruct (SFdiv_core_binary prec emax (Z.pos mk) ek (Z.pos mp) ep) as [[mz ez] lz].
  simpl in H.
  pose proof (binary_round_aux_signed prec emax (xorb sk sp) mz ez lz H) as Hs.
  destruct (binary_round_aux prec emax (xorb sk sp) mz ez lz); simpl in *; auto.
  contradiction.
Qed.

(** *** Comparisons *)

Lemma compare_antisym x y :
  SFcompare y x = option_map CompOpp (SFcompare x y).
Proof.
  destruct x as [sx|sx| |sx mx ex], y as [sy|sy| |sy my ey]; simpl;
    try reflexivity;
    try (destruct sx; reflexivity); try (destruct sy; reflexivity);
    try (destruct sx, sy; reflexivity).
  destruct sx, sy; simpl; try reflexivity;
    rewrite (Z.compare_antisym ex ey);
    destruct (ex ?= ey); simpl; try reflexivity;
    rewrite (Pos.compare_cont_antisym mx my Eq); simpl;
    try rewrite CompOpp_involutive; reflexivity.
Qed.

Lemma compare_nan x y :
  SFcompare x y = None <-> isnan x = true \/ isnan y = true.
Proof.
  destruct x as [sx|sx| |sx mx ex], y as [sy|sy| |sy my ey]; simpl;
    split; intros H; try discriminate; auto;
    try (destruct H; discriminate).
Qed.

(** Of [x < y], [y < x] and [x == y] at most one holds, and exactly
    one when neither number is NaN. *)
Lemma trichotomy_count x y :
  (Nat.b2n (ltb x y) + Nat.b2n (ltb y x) + Nat.b2n (eqb x y) <= 1)%nat /\
  (isnan x = false -> isnan y = false ->
   (Nat.b2n (ltb x y) + Nat.b2n (ltb y x) + Nat.b2n (eqb x y) = 1)%nat).
Proof.
  unfold ltb, eqb, SFltb, SFeqb.
  rewrite (compare_antisym x y).
  pose proof (compare_nan x y) as Hn.
  destruct (SFcompare x y) as [[| |]|]; simpl; split; try lia.
  intros Hx Hy. destruct (proj1 Hn eq_refl); congruence.
Qed.

Lemma eqb_finite_inv sx mx ex sy my ey :
  eqb (S754_finite sx mx ex) (S754_finite sy my ey) = true ->
  sx = sy /\ mx = my /\ ex = ey.
Proof.
  unfold eqb, SFeqb, SFcompare.
  destruct sx, sy; try discriminate;
    destruct (ex ?= ey) eqn:He; try discriminate;
    apply Z.compare_eq in He;
    destruct (Pos.compare_cont Eq mx my) eqn:Hm; try discriminate;
    apply Pos.compare_eq in Hm; auto.
Qed.

(** *** The tolerance of [isclose] *)

Lemma mul_rtol_signed y :
  isfinite y = true -> signed false (mul lit_1e_5 (abs y)).
Proof.
  destruct y as [sy|sy| |sy my ey]; try discriminate; intros _.
  - reflexivity.
  - unfold mul, abs, lit_1e_5, SFmul, SFabs. simpl xorb.
    apply binary_round_aux_signed. lia.
Qed.

Lemma add_atol_signed z :
  signed false z -> signed false (add lit_1e_8 z).
Proof.
  destruct z as [s|s| |s m e]; simpl; intros H; try contradiction; subst.
  - reflexivity.
  - reflexivity.
  - unfold add, lit_1e_8, SFadd, cond_Zopp.
    set (a := fst (shl_align _ _ _)). set (b := fst (shl_align m e _)).
    change (Z.pos a + Z.pos b) with (Z.pos (a + b)).
    unfold binary_normalize. apply binary_round_signed.
Qed.

Lemma leb_zero_signed z : signed false z -> leb (S754_zero false) z = true.
Proof.
  destruct z as [s|s| |s m e]; simpl; intros H; try contradiction; subst;
    reflexivity.
Qed.

Lemma sub_diag_finite s m e :
  sub (S754_finite s m e) (S754_finite s m e) = S754_zero false.
Proof.
  unfold sub, SFsub. rewrite Z.sub_diag. reflexivity.
Qed.

(** *** Digits and shifts *)

Lemma digits2_size p : digits2_pos p = Pos.size p.
Proof. induction p; simpl; congruence. Qed.

Lemma digits2_iter_xO p k :
  Z.pos (digits2_pos (Pos.iter xO p k)) = Z.pos (digits2_pos p) + Z.pos k.
Proof.
  induction k as [|k IH] using Pos.peano_ind.
  - simpl. lia.
  - rewrite Pos.iter_succ. simpl digits2_pos. lia.
Qed.

(** Rounding an exact mantissa of full width leaves it unchanged. *)
Lemma binary_round_aux_canonical sx mz ez :
  Z.pos (digits2_pos mz) = 53 -> -1074 <= ez <= 971 ->
  binary_round_aux F64.prec F64.emax sx (Z.pos mz) ez loc_Exact =
  S754_finite sx mz ez.
Proof.
  intros Hd He.
  assert (Hs : forall m, Z.pos (digits2_pos m) = 53 ->
             shr_fexp F64.prec F64.emax (Z.pos m) ez loc_Exact =
             ({| shr_m := Z.pos m; shr_r := false; shr_s := false |}, ez)).
  { intros m Hm. unfold shr_fexp, shr. simpl Zdigits2. rewrite Hm.
    unfold fexp, emin, F64.prec, F64.emax.
    replace (Z.max (53 + ez - 53) (3 - 1024 - 53) - ez) with 0 by lia.
    reflexivity. }
  unfold binary_round_aux. rewrite (Hs mz Hd). simpl shr_m. simpl loc_of_shr_record.
  simpl round_nearest_even. rewrite (Hs mz Hd). simpl shr_m.
  unfold F64.prec, F64.emax.
  destruct (Z.leb_spec ez (1024 - 53)); [reflexivity | lia].
Qed.

Lemma of_int_full p :
  Z.pos (digits2_pos p) = 53 -> F64.of_int (Z.pos p) = S754_finite false p 0.
Proof.
  intros Hd. unfold F64.of_int, binary_normalize, binary_round, shl_align.
  rewrite Hd. unfold fexp, emin, F64.prec, F64.emax. simpl.
  apply (binary_round_aux_canonical false p 0 Hd). lia.
Qed.

Lemma of_int_short p k :
  Z.pos (digits2_pos p) + Z.pos k = 53 ->
  F64.of_int (Z.pos p) = S754_finite false (Pos.iter xO p k) (Z.neg k).
Proof.
  intros Hd. unfold F64.of_int, binary_normalize, binary_round, shl_align.
  unfold fexp, emin, F64.prec, F64.emax.
  replace (Z.max (Z.pos (digits2_pos p) + 0 - 53) (3 - 1024 - 53) - 0)
    with (Z.neg k) by lia.
  replace (Z.max (Z.pos (digits2_pos p) + 0 - 53) (3 - 1024 - 53))
    with (Z.neg k) by lia.
  apply binary_round_aux_canonical.
  - rewrite digits2_iter_xO. exact Hd.
  - lia.
Qed.

Lemma div_eucl_pair a b : Z.div_eucl a b = (a / b, a mod b).
Proof. unfold Z.div, Z.modulo. destruct (Z.div_eucl a b); reflexivity. Qed.

Lemma div_two_exact m e :
  Z.pos (digits2_pos m) = 53 -> -1072 <= e <= 972 ->
  F64.div (S754_finite false m e) F64.two = S754_finite false m (e - 1).
Proof.
  intros Hd He. unfold F64.div, SFdiv, F64.two, SFdiv_core_binary.
  change (Zdigits2 (Z.pos m)) with (Z.pos (digits2_pos m)). rewrite Hd.
  change (Zdigits2 (Z.pos 4503599627370496)) with 53.
  unfold fexp, emin, F64.prec, F64.emax.
  replace (Z.min (Z.max (53 + e - (53 + -51) - 53) (3 - 1024 - 53)) (e - -51))
    with (e - 2) by lia.
  replace (e - -51 - (e - 2)) with 53 by lia.
  cbv iota beta.
  rewrite div_eucl_pair.
  assert (Hq : Z.shiftl (Z.pos m) 53 = Z.pos m~0 * 4503599627370496).
  { rewrite Z.shiftl_mul_pow2 by lia. change (2 ^ 53) with (2 * 4503599627370496). lia. }
  rewrite Hq, Z.div_mul, Z.mod_mul by discriminate.
  change (new_location 4503599627370496 0) with loc_Exact.
  cbv iota beta.
  unfold binary_round_aux, shr_fexp.
  change (Zdigits2 (Z.pos m~0)) with (Z.pos (Pos.succ (digits2_pos m))).
  rewrite Pos2Z.inj_succ, Hd.
  unfold fexp, emin.
  replace (Z.max (Z.succ 53 + (e - 2) - 53) (3 - 1024 - 53) - (e - 2)) with 1 by lia.
  cbn [shr shr_record_of_loc iter_pos shr_1 fst snd shr_m loc_of_shr_record
         round_nearest_even orb xorb].
  change (Zdigits2 (Z.pos m)) with (Z.pos (digits2_pos m)). rewrite Hd.
  replace (Z.max (53 + (e - 2 + 1) - 53) (3 - 1024 - 53) - (e - 2 + 1)) with 0 by lia.
  cbn [shr shr_m].
  destruct (Z.leb_spec (e - 2 + 1) (1024 - 53)); [|lia].
  f_equal. lia.
Qed.

(** Halving an even integer below [2^53] is exact. *)
Lemma of_int_half q :
  Z.pos (digits2_pos q~0) <= 53 ->
  F64.div (F64.of_int (Z.pos q~0)) F64.two = F64.of_int (Z.pos q).
Proof.
  intros Hd. assert (Hq : Z.pos (digits2_pos q~0) = Z.pos (digits2_pos q) + 1)
    by (simpl digits2_pos; lia).
  destruct (Z.eq_dec (Z.pos (digits2_pos q~0)) 53) as [E|N].
  - rewrite (of_int_full q~0 E), (div_two_exact q~0 0 E) by lia.
    rewrite (of_int_short q 1) by lia. reflexivity.
  - destruct (53 - Z.pos (digits2_pos q~0)) as [|k|k] eqn:Ek; try lia.
    rewrite (of_int_short q~0 k) by lia.
    rewrite div_two_exact.
    + rewrite (of_int_short q (Pos.succ k)) by lia.
      rewrite Pos.iter_succ_r. f_equal. lia.
    + rewrite digits2_iter_xO. lia.
    + lia.
Qed.

Lemma digits_bound p : Z.pos p < 2 ^ 53 -> Z.pos (digits2_pos p) <= 53.
Proof.
  intros H. rewrite digits2_size.
  destruct (Z_le_gt_dec (Z.pos (Pos.size p)) 53) as [L|G]; [exact L|].
  exfalso. pose proof (Pos.size_le p) as S.
  assert (S' : 2 ^ Z.pos (Pos.size p) <= Z.pos p~0).
  { rewrite <- Pos2Z.inj_pow. exact S. }
  assert (M : 2 ^ 54 <= 2 ^ Z.pos (Pos.size p)) by (apply Z.pow_le_mono_r; lia).
  change (2 ^ 54) with (2 * 2 ^ 53) in M. lia.
Qed.

Lemma digits_spec p :
  2 ^ (Z.pos (digits2_pos p) - 1) <= Z.pos p < 2 ^ Z.pos (digits2_pos p).
Proof.
  rewrite digits2_size. split.
  - pose proof (Pos.size_le p) as S.
    assert (S' : 2 ^ Z.pos (Pos.size p) <= 2 * Z.pos p).
    { rewrite <- Pos2Z.inj_pow. exact S. }
    replace (Z.pos (Pos.size p)) with (Z.succ (Z.pos (Pos.size p) - 1)) in S' by lia.
    rewrite Z.pow_succ_r in S' by lia. lia.
  - rewrite <- Pos2Z.inj_pow. apply (Pos.size_gt p).
Qed.

Lemma digits_le m n : 0 <= m -> 0 <= n -> m < 2 ^ n -> Zdigits2 m <= n.
Proof.
  intros Hm Hn H. destruct m as [|p|p]; simpl; try lia.
  destruct (Z_le_gt_dec (Z.pos (digits2_pos p)) n) as [L|G]; [exact L|].
  exfalso. pose proof (proj1 (digits_spec p)) as S.
  assert (M : 2 ^ n <= 2 ^ (Z.pos (digits2_pos p) - 1)) by (apply Z.pow_le_mono_r; lia).
  lia.
Qed.

Lemma digits_nonneg m : 0 <= Zdigits2 m.
Proof. destruct m; simpl; lia. Qed.

Lemma digits_lt m : 0 <= m -> m < 2 ^ Zdigits2 m.
Proof.
  intros H. destruct m as [|p|p]; simpl; try lia. apply digits_spec.
Qed.

Lemma digits_div_pow2 m n :
  0 <= m -> 0 <= n -> Zdigits2 (m / 2 ^ n) <= Z.max 0 (Zdigits2 m - n).
Proof.
  intros Hm Hn. pose proof (digits_lt m Hm) as L.
  pose proof (digits_nonneg m) as D.
  assert (P : 0 < 2 ^ n) by (apply Z.pow_pos_nonneg; lia).
  destruct (Z_le_gt_dec n (Zdigits2 m)) as [Le|Gt].
  - apply digits_le; try lia.
    + apply Z.div_pos; lia.
    + apply Z.div_lt_upper_bound; [exact P|].
      rewrite <- Z.pow_add_r by lia.
      replace (n + Z.max 0 (Zdigits2 m - n)) with (Zdigits2 m) by lia.
      exact L.
  - assert (M : 2 ^ Zdigits2 m <= 2 ^ n) by (apply Z.pow_le_mono_r; lia).
    rewrite Z.div_small by lia. simpl. lia.
Qed.

Lemma digits_succ m : 0 <= m -> Zdigits2 (m + 1) <= Zdigits2 m + 1.
Proof.
  intros H. pose proof (digits_lt m H) as L. pose proof (digits_nonneg m) as D.
  apply digits_le; try lia.
  rewrite Z.pow_add_r by lia. change (2 ^ 1) with 2. lia.
Qed.

Lemma shr_1_half mrs : 0 <= shr_m mrs -> shr_m (shr_1 mrs) = shr_m mrs / 2.
Proof.
  destruct mrs as [m r s]; simpl. intros H.
  destruct m as [|p|p]; try lia; [reflexivity|].
  destruct p as [p|p|]; simpl shr_m.
  - rewrite Pos2Z.inj_xI. apply (Z.div_unique _ _ _ 1); lia.
  - rewrite Pos2Z.inj_xO. apply (Z.div_unique _ _ _ 0); lia.
  - reflexivity.
Qed.

Lemma iter_shr_1_div p : forall mrs,
  0 <= shr_m mrs -> shr_m (iter_pos shr_1 p mrs) = shr_m mrs / 2 ^ Z.pos p.
Proof.
  induction p as [p IH|p IH|]; intros mrs H; simpl iter_pos.
  - rewrite IH, IH, shr_1_half by
      (try apply iter_shr_1_nonneg; try apply shr_1_nonneg; exact H).
    rewrite !Z.div_div by (try apply Z.pow_pos_nonneg; lia).
    f_equal. replace (Z.pos p~1) with (1 + Z.pos p + Z.pos p) by lia.
    rewrite !Z.pow_add_r by lia. change (2 ^ 1) with 2. ring.
  - rewrite IH, IH by (try apply iter_shr_1_nonneg; exact H).
    rewrite !Z.div_div by (try apply Z.pow_pos_nonneg; lia).
    f_equal. replace (Z.pos p~0) with (Z.pos p + Z.pos p) by lia.
    rewrite Z.pow_add_r by lia. ring.
  - rewrite shr_1_half by exact H. reflexivity.
Qed.

Lemma fexp_bound z : z <= 1024 -> fexp F64.prec F64.emax z <= 971.
Proof. unfold fexp, emin, F64.prec, F64.emax. lia. Qed.

Lemma shr_fexp_spec m e l :
  0 <= m ->
  0 <= shr_m (fst (shr_fexp F64.prec F64.emax m e l)) /\
  snd (shr_fexp F64.prec F64.emax m e l) =
    Z.max e (fexp F64.prec F64.emax (Zdigits2 m + e)) /\
  Zdigits2 (shr_m (fst (shr_fexp F64.prec F64.emax m e l))) +
  snd (shr_fexp F64.prec F64.emax m e l)
  <= Z.max (Zdigits2 m + e) (snd (shr_fexp F64.prec F64.emax m e l)).
Proof.
  intros Hm. split; [now apply shr_fexp_nonneg|].
  unfold shr_fexp, shr.
  destruct (fexp F64.prec F64.emax (Zdigits2 m + e) - e) as [|n|n] eqn:En;
    cbn [fst snd]; rewrite ?shr_m_of_loc.
  - split; lia.
  - rewrite iter_shr_1_div by (rewrite shr_m_of_loc; exact Hm).
    rewrite shr_m_of_loc.
    pose proof (digits_div_pow2 m (Z.pos n) Hm ltac:(lia)). split; lia.
  - split; lia.
Qed.

Lemma round_digits m l :
  0 <= m -> Zdigits2 (round_nearest_even m l) <= Zdigits2 m + 1.
Proof.
  intros H. pose proof (digits_succ m H). pose proof (digits_nonneg m).
  unfold round_nearest_even. destruct l as [|[| |]]; try lia.
  destruct (Z.even m); lia.
Qed.

(** Rounding does not overflow when the value is below [2^1023]. *)
Lemma binary_round_aux_finite sx mx ex lx :
  0 <= mx -> Zdigits2 mx + ex <= 1023 -> ex <= 971 ->
  F64.isfinite (binary_round_aux F64.prec F64.emax sx mx ex lx) = true.
Proof.
  intros Hm Hd He. unfold binary_round_aux.
  pose proof (shr_fexp_spec mx ex lx Hm) as (N1 & E1 & D1).
  destruct (shr_fexp F64.prec F64.emax mx ex lx) as [mrs' e']. cbn [fst snd] in *.
  set (m1 := round_nearest_even (shr_m mrs') (loc_of_shr_record mrs')).
  assert (Hm1 : 0 <= m1) by (now apply round_nearest_even_nonneg).
  assert (Dm1 : Zdigits2 m1 <= Zdigits2 (shr_m mrs') + 1) by (now apply round_digits).
  pose proof (shr_fexp_spec m1 e' loc_Exact Hm1) as (N2 & E2 & _).
  destruct (shr_fexp F64.prec F64.emax m1 e' loc_Exact) as [mrs'' e'']. cbn [fst snd] in *.
  pose proof (fexp_bound (Zdigits2 mx + ex) ltac:(lia)) as F1.
  pose proof (fexp_bound (Zdigits2 m1 + e') ltac:(lia)) as F2.
  destruct (shr_m mrs'') as [|m|m]; try reflexivity; try lia.
  unfold F64.emax, F64.prec.
  destruct (Z.leb_spec e'' (1024 - 53)); [reflexivity | lia].
Qed.

Lemma div_core_bound mk ek mp ep :
  let delta := Z.pos (digits2_pos mk) + ek - (Z.pos (digits2_pos mp) + ep) in
  let core := SFdiv_core_binary F64.prec F64.emax (Z.pos mk) ek (Z.pos mp) ep in
  0 <= fst (fst core) /\
  snd (fst core) <= fexp F64.prec F64.emax delta /\
  Zdigits2 (fst (fst core)) + snd (fst core) <= Z.max (snd (fst core)) (delta + 1).
Proof.
  intros delta core. split; [apply div_core_nonneg|].
  subst core. unfold SFdiv_core_binary. cbn [Zdigits2]. fold delta.
  set (e' := Z.min (fexp F64.prec F64.emax delta) (ek - ep)).
  set (s := ek - ep - e').
  assert (Hs : 0 <= s) by (subst s e'; lia).
  set (m' := match s with 0 => Z.pos mk | Z.pos _ => Z.shiftl (Z.pos mk) s | Z.neg _ => 0 end).
  assert (Hm' : m' = Z.pos mk * 2 ^ s).
  { subst m'. destruct s as [|n|n] eqn:Es; try lia.
    now rewrite Z.shiftl_mul_pow2 by lia. }
  rewrite div_eucl_pair. cbn [fst snd]. split; [subst e'; lia|].
  pose proof (digits_spec mk) as [_ U1]. pose proof (digits_spec mp) as [L2 _].
  set (d1 := Z.pos (digits2_pos mk)) in *. set (d2 := Z.pos (digits2_pos mp)) in *.
  assert (P : 0 < 2 ^ s) by (apply Z.pow_pos_nonneg; lia).
  assert (Hq : 0 <= m' / Z.pos mp) by (apply Z.div_pos; nia).
  assert (B : m' < 2 ^ (d1 + s)).
  { rewrite Hm', Z.pow_add_r by lia. nia. }
  destruct (Z_le_gt_dec 0 (d1 + s - d2 + 1)) as [Le|Gt].
  - assert (D : Zdigits2 (m' / Z.pos mp) <= d1 + s - d2 + 1).
    { apply digits_le; try lia.
      apply Z.div_lt_upper_bound; [lia|].
      assert (Q : 2 ^ (d1 + s) = 2 ^ (d2 - 1) * 2 ^ (d1 + s - d2 + 1)).
      { rewrite <- Z.pow_add_r by lia. f_equal. lia. }
      assert (0 < 2 ^ (d1 + s - d2 + 1)) by (apply Z.pow_pos_nonneg; lia).
      nia. }
    assert (Es : s = ek - ep - e') by reflexivity.
    assert (Ed : delta = d1 + ek - (d2 + ep)) by reflexivity.
    clearbody m' s delta e'. lia.
  - assert (Z0' : m' / Z.pos mp = 0).
    { apply Z.div_small. split; [nia|].
      assert (M : 2 ^ (d1 + s) <= 2 ^ (d2 - 1)) by (apply Z.pow_le_mono_r; lia).
      lia. }
    rewrite Z0'. simpl. lia.
Qed.

(** The quotient of a finite number by a positive one is finite when
    the binades of the two numbers are at most 1022 apart. *)
Lemma div_finite k p :
  F64.isfinite k = true -> F64.ltb F64.zero p = true ->
  binade k - binade p <= 1022 ->
  F64.isfinite (F64.div k p) = true.
Proof.
  intros Hk Hp Hb.
  destruct k as [sk|sk| |sk mk ek]; try discriminate;
    destruct p as [sp|sp| |sp mp ep]; try discriminate; try reflexivity.
  unfold F64.div, SFdiv. unfold binade in Hb.
  pose proof (div_core_bound mk ek mp ep) as (Q & E & D).
  destruct (SFdiv_core_binary F64.prec F64.emax (Z.pos mk) ek (Z.pos mp) ep)
    as [[mz ez] lz]. cbn [fst snd] in *.
  pose proof (fexp_bound (Z.pos (digits2_pos mk) + ek - (Z.pos (digits2_pos mp) + ep))
                ltac:(lia)) as F.
  apply binary_round_aux_finite; lia.
Qed.
End F64Facts.

(** ** More floating-point facts *)

Lemma digits_ge x k : 2 ^ (k - 1) <= x -> 0 <= x -> k <= Zdigits2 x.
Proof.
  intros H Hx. pose proof (F64Facts.digits_lt x Hx) as L.
  pose proof (F64Facts.digits_nonneg x) as D.
  destruct (Z_le_gt_dec k (Zdigits2 x)) as [Le|Gt]; [exact Le|].
  exfalso. assert (M : 2 ^ Zdigits2 x <= 2 ^ (k - 1)) by (apply Z.pow_le_mono_r; lia).
  lia.
Qed.

Lemma digits_mono a b : 0 <= a <= b -> Zdigits2 a <= Zdigits2 b.
Proof.
  intros [Ha Hab]. pose proof (F64Facts.digits_lt b ltac:(lia)) as L.
  apply F64Facts.digits_le; try lia. apply F64Facts.digits_nonneg.
Qed.

Lemma digits_pos_lower m : 0 < m -> 2 ^ (Zdigits2 m - 1) <= m.
Proof.
  intros H. destruct m as [|p|p]; try lia. apply F64Facts.digits_spec.
Qed.

Lemma div_pow2_lower m n :
  0 < m -> 0 <= n < Zdigits2 m ->
  0 < m / 2 ^ n /\ Zdigits2 m - n <= Zdigits2 (m / 2 ^ n).
Proof.
  intros Hm Hn. pose proof (digits_pos_lower m Hm) as L.
  assert (P : 0 < 2 ^ n) by (apply Z.pow_pos_nonneg; lia).
  assert (Q : 2 ^ (Zdigits2 m - 1 - n) <= m / 2 ^ n).
  { apply Z.div_le_lower_bound; [exact P|].
    rewrite <- Z.pow_add_r by lia.
    replace (n + (Zdigits2 m - 1 - n)) with (Zdigits2 m - 1) by lia. exact L. }
  assert (P' : 0 < 2 ^ (Zdigits2 m - 1 - n)) by (apply Z.pow_pos_nonneg; lia).
  split; [lia|].
  apply digits_ge; [|lia].
  replace (Zdigits2 m - n - 1) with (Zdigits2 m - 1 - n) by lia. exact Q.
Qed.

(** One rounding shift in the normal range keeps the mantissa positive
    and does not lower the binade. *)
Lemma shr_fexp_positive m e l :
  0 < m -> -1074 <= Zdigits2 m + e - 53 ->
  0 < shr_m (fst (shr_fexp F64.prec F64.emax m e l)) /\
  Zdigits2 m + e <=
    Zdigits2 (shr_m (fst (shr_fexp F64.prec F64.emax m e l))) +
    snd (shr_fexp F64.prec F64.emax m e l).
Proof.
  intros Hm Hn. unfold shr_fexp, shr.
  assert (F : fexp F64.prec F64.emax (Zdigits2 m + e) - e = Zdigits2 m - 53).
  { unfold fexp, emin, F64.prec, F64.emax. lia. }
  rewrite F.
  destruct (Zdigits2 m - 53) as [|n|n] eqn:En; cbn [fst snd];
    rewrite ?F64Facts.shr_m_of_loc; try (split; lia).
  rewrite F64Facts.iter_shr_1_div by (rewrite F64Facts.shr_m_of_loc; lia).
  rewrite F64Facts.shr_m_of_loc.
  destruct (div_pow2_lower m (Z.pos n) Hm ltac:(lia)) as [P D]. split; lia.
Qed.

Lemma round_nearest_even_ge m l : m <= round_nearest_even m l.
Proof.
  unfold round_nearest_even. destruct l as [|[| |]]; try lia.
  destruct (Z.even m); lia.
Qed.

(** In the normal range rounding never gives zero or NaN. *)
Lemma binary_round_aux_nonzero sx mx ex lx :
  0 < mx -> -1074 <= Zdigits2 mx + ex - 53 ->
  match binary_round_aux F64.prec F64.emax sx mx ex lx with
  | S754_finite s _ _ | S754_infinity s => s = sx
  | _ => False
  end.
Proof.
  intros Hm Hn. unfold binary_round_aux.
  pose proof (shr_fexp_positive mx ex lx Hm Hn) as (P1 & D1).
  destruct (shr_fexp F64.prec F64.emax mx ex lx) as [mrs' e']. cbn [fst snd] in *.
  set (m1 := round_nearest_even (shr_m mrs') (loc_of_shr_record mrs')).
  pose proof (round_nearest_even_ge (shr_m mrs') (loc_of_shr_record mrs')) as G.
  fold m1 in G.
  pose proof (digits_mono (shr_m mrs') m1 ltac:(lia)) as M.
  pose proof (shr_fexp_positive m1 e' loc_Exact ltac:(lia) ltac:(lia)) as (P2 & _).
  destruct (shr_fexp F64.prec F64.emax m1 e' loc_Exact) as [mrs'' e'']. cbn [fst snd] in *.
  destruct (shr_m mrs'') as [|m|m]; try lia.
  destruct (e'' <=? F64.emax - F64.prec); reflexivity.
Qed.

Lemma shl_align_digits mx ex ex' :
  Z.pos (digits2_pos (fst (shl_align mx ex ex'))) + snd (shl_align mx ex ex') =
  Z.pos (digits2_pos mx) + ex.
Proof.
  unfold shl_align. destruct (ex' - ex) as [|k|k] eqn:E; cbn [fst snd]; try reflexivity.
  rewrite F64Facts.digits2_iter_xO. lia.
Qed.

(** Converting a non-zero integer gives a non-zero float of the same
    sign. *)
Lemma of_int_nonzero z :
  z <> 0 ->
  match F64.of_int z with
  | S754_finite s _ _ | S754_infinity s => s = (z <? 0)
  | _ => False
  end.
Proof.
  intros Hz. unfold F64.of_int, binary_normalize.
  destruct z as [|p|p]; [congruence| |]; unfold binary_round;
    pose proof (shl_align_digits p 0
                  (fexp F64.prec F64.emax (Z.pos (digits2_pos p) + 0))) as D;
    destruct (shl_align p 0 (fexp F64.prec F64.emax (Z.pos (digits2_pos p) + 0)))
      as [mz ez]; cbn [fst snd] in D;
    apply binary_round_aux_nonzero; cbn [Zdigits2]; lia.
Qed.

(** A number divided by itself is exactly [1.0]. *)
Lemma div_self s m e :
  Z.pos (digits2_pos m) = 53 ->
  F64.div (S754_finite s m e) (S754_finite s m e) = F64.one.
Proof.
  intros Hd. unfold F64.div, SFdiv, SFdiv_core_binary.
  change (Zdigits2 (Z.pos m)) with (Z.pos (digits2_pos m)). rewrite Hd.
  unfold fexp, emin, F64.prec, F64.emax.
  replace (Z.min (Z.max (53 + e - (53 + e) - 53) (3 - 1024 - 53)) (e - e))
    with (-53) by lia.
  replace (e - e - -53) with 53 by lia.
  cbv iota beta.
  rewrite F64Facts.div_eucl_pair.
  assert (Hq : Z.shiftl (Z.pos m) 53 = 9007199254740992 * Z.pos m).
  { rewrite Z.shiftl_mul_pow2 by lia. change (2 ^ 53) with 9007199254740992. lia. }
  rewrite Hq, Z.div_mul, Z.mod_mul by discriminate.
  assert (L : new_location (Z.pos m) 0 = loc_Exact).
  { unfold new_location. destruct (Z.even (Z.pos m)); reflexivity. }
  rewrite L. destruct s; vm_compute; reflexivity.
Qed.

Lemma of_int_canonical z :
  0 < z < 2 ^ 53 ->
  exists m e, F64.of_int z = S754_finite false m e /\ Z.pos (digits2_pos m) = 53.
Proof.
  intros [Hp Hs]. destruct z as [|p|p]; try lia.
  pose proof (F64Facts.digits_bound p Hs) as D.
  destruct (Z.eq_dec (Z.pos (digits2_pos p)) 53) as [E|N].
  - exists p, 0. split; [now apply F64Facts.of_int_full | exact E].
  - destruct (53 - Z.pos (digits2_pos p)) as [|k|k] eqn:Ek; try lia.
    exists (Pos.iter xO p k), (Z.neg k). split.
    + apply F64Facts.of_int_short. lia.
    + rewrite F64Facts.digits2_iter_xO. lia.
Qed.
(** ** Lists, sorting and grouping *)

Section SortingFacts.
Context {A : Type}.
Variable lt : A -> A -> bool.

Lemma insert_by_perm x l : Permutation (insert_by lt x l) (x :: l).
Proof.
  induction l as [|y l IH]; simpl.
  - apply Permutation_refl.
  - destruct (lt y x).
    + eapply Permutation_trans; [apply perm_skip, IH | apply perm_swap].
    + apply Permutation_refl.
Qed.

Lemma stable_sort_perm l : Permutation (stable_sort lt l) l.
Proof.
  induction l as [|x l IH]; simpl.
  - constructor.
  - eapply Permutation_trans; [apply insert_by_perm | now apply perm_skip].
Qed.

(** The sort orders its output by any transitive relation that the
    comparison decides in both directions. *)
Variable le : A -> A -> Prop.
Hypothesis le_trans : forall a b c, le a b -> le b c -> le a c.
Hypothesis lt_true : forall y x, lt y x = true -> le y x.
Hypothesis lt_false : forall y x, lt y x = false -> le x y.

Lemma insert_by_sorted x l :
  StronglySorted le l -> StronglySorted le (insert_by lt x l).
Proof.
  induction 1 as [|y l Hs IH Hy]; simpl.
  - repeat constructor.
  - destruct (lt y x) eqn:E.
    + constructor; auto.
      rewrite Forall_forall in *. intros z Hz.
      apply (Permutation_in _ (insert_by_perm x l)) in Hz.
      destruct Hz as [<-|Hz]; auto.
    + constructor; [now constructor|].
      constructor; [now apply lt_false|].
      rewrite Forall_forall in *. intros z Hz.
      eapply le_trans; [apply lt_false, E | now apply Hy].
Qed.

Lemma stable_sort_sorted l : StronglySorted le (stable_sort lt l).
Proof.
  induction l as [|x l IH]; simpl; [constructor | now apply insert_by_sorted].
Qed.
End SortingFacts.

Lemma NoDup_map_eq {A B : Type} (f : A -> B) l a b :
  NoDup (map f l) -> In a l -> In b l -> f a = f b -> a = b.
Proof.
  induction l as [|x l IH]; simpl; [contradiction|].
  intros Hnd Ha Hb Hf. inversion Hnd as [|? ? Hx Hnd']; subst.
  destruct Ha as [<-|Ha], Hb as [<-|Hb]; auto.
  - exfalso. apply Hx. rewrite Hf. now apply in_map.
  - exfalso. apply Hx. rewrite <- Hf. now apply in_map.
Qed.

(** Two lists sorted by a key, with the same elements and no repeated
    key, are the same list. *)
Lemma sorted_perm_unique {A : Type} (key : A -> Z) (l1 : list A) :
  forall l2,
    StronglySorted (fun a b => key a <= key b) l1 ->
    StronglySorted (fun a b => key a <= key b) l2 ->
    Permutation l1 l2 -> NoDup (map key l1) -> l1 = l2.
Proof.
  induction l1 as [|a l1 IH]; intros l2 S1 S2 P Hnd.
  - apply Permutation_nil in P. now subst.
  - destruct l2 as [|b l2].
    { apply Permutation_sym, Permutation_nil in P. discriminate. }
    assert (a = b) as <-.
    { apply (NoDup_map_eq key (a :: l1)); auto; [now left| |].
      - apply (Permutation_in _ (Permutation_sym P)). now left.
      - inversion S1 as [|? ? _ F1]; inversion S2 as [|? ? _ F2]; subst.
        rewrite Forall_forall in F1, F2.
        assert (Hb : In b (a :: l1))
          by (apply (Permutation_in _ (Permutation_sym P)); now left).
        assert (Ha : In a (b :: l2)) by (apply (Permutation_in _ P); now left).
        destruct Hb as [->|Hb]; [reflexivity|].
        destruct Ha as [->|Ha]; [reflexivity|].
        specialize (F1 _ Hb). specialize (F2 _ Ha). lia. }
    f_equal. apply IH.
    + now inversion S1.
    + now inversion S2.
    + now apply Permutation_cons_inv in P.
    + now inversion Hnd.
Qed.

Lemma combine_fst_snd {A B : Type} (l : list (A * B)) :
  combine (map fst l) (map snd l) = l.
Proof.
  induction l as [|[a b] l IH]; simpl; [reflexivity | now rewrite IH].
Qed.

Lemma pair_sort_sorted (l : list (Z * F64.t)) :
  StronglySorted (fun a b => fst a <= fst b) (stable_sort pair_lt l).
Proof.
  apply stable_sort_sorted.
  - intros a b c; lia.
  - intros y x. unfold pair_lt.
    destruct (fst y =? fst x) eqn:E; simpl.
    + apply Z.eqb_eq in E. lia.
    + intros H. apply Z.ltb_lt in H. lia.
  - intros y x. unfold pair_lt.
    destruct (fst y =? fst x) eqn:E; simpl.
    + apply Z.eqb_eq in E. lia.
    + intros H. apply Z.ltb_ge in H. lia.
Qed.

Lemma filter_perm {A : Type} (f : A -> bool) l l' :
  Permutation l l' -> Permutation (filter f l) (filter f l').
Proof.
  induction 1 as [|x l l' P IH|x y l|l l' l'' P1 IH1 P2 IH2]; simpl.
  - constructor.
  - destruct (f x); [now constructor | assumption].
  - destruct (f x), (f y); try apply Permutation_refl. apply perm_swap.
  - eapply Permutation_trans; eassumption.
Qed.

Lemma sorted_keys {A : Type} (key : A -> Z) l :
  StronglySorted (fun a b => key a <= key b) l ->
  StronglySorted Z.le (map key l).
Proof.
  induction 1 as [|a l S IH F]; simpl; constructor; auto.
  rewrite Forall_forall in *. intros z Hz.
  apply in_map_iff in Hz. destruct Hz as (b & <- & Hb). now apply F.
Qed.

Lemma sorted_by_keys {A : Type} (key : A -> Z) l :
  StronglySorted Z.le (map key l) ->
  StronglySorted (fun a b => key a <= key b) l.
Proof.
  induction l as [|a l IH]; cbn [map]; intros H; [constructor|].
  inversion H as [|? ? S F]; subst. constructor; [now apply IH|].
  rewrite Forall_forall in *. intros b Hb. apply F. now apply in_map.
Qed.

Lemma map_fst_combine {A B : Type} (xs : list A) : forall ys : list B,
  List.length xs = List.length ys -> map fst (combine xs ys) = xs.
Proof.
  induction xs as [|x xs IH]; intros [|y ys] H; simpl in *; try discriminate;
    try reflexivity.
  injection H as H. now rewrite IH.
Qed.

(** *** Positions *)

Lemma take_map {A B : Type} (f : A -> B) indexer (arr : list A) :
  map f (take indexer arr) = take indexer (map f arr).
Proof.
  unfold take. induction indexer as [|i indexer IH]; [reflexivity|].
  cbn [flat_map]. rewrite map_app, IH, nth_error_map.
  destruct (nth_error arr i); reflexivity.
Qed.

Lemma take_seq_shift {A : Type} (a : A) arr n m :
  take (seq (S n) m) (a :: arr) = take (seq n m) arr.
Proof.
  unfold take. revert n. induction m as [|m IH]; intros n; [reflexivity|].
  cbn [seq flat_map nth_error]. now rewrite IH.
Qed.

Lemma take_seq {A : Type} (arr : list A) :
  take (seq 0 (List.length arr)) arr = arr.
Proof.
  induction arr as [|a arr IH]; [reflexivity|].
  cbn [List.length seq]. unfold take at 1. cbn [flat_map nth_error app].
  fold (take (seq 1 (List.length arr)) (a :: arr)).
  now rewrite take_seq_shift, IH.
Qed.

Lemma take_perm {A : Type} indexer (arr : list A) :
  Permutation indexer (seq 0 (List.length arr)) ->
  Permutation (take indexer arr) arr.
Proof.
  intros P. rewrite <- (take_seq arr) at 2.
  unfold take. now apply Permutation_flat_map.
Qed.

Lemma take_pairs {A : Type} (arr : list A) (pairs : list (nat * A)) :
  (forall p, In p pairs -> nth_error arr (fst p) = Some (snd p)) ->
  take (map fst pairs) arr = map snd pairs.
Proof.
  unfold take. induction pairs as [|p pairs IH]; intros H; [reflexivity|].
  cbn [map flat_map]. rewrite (H p (or_introl eq_refl)), IH; [reflexivity|].
  intros q Hq. apply H. now right.
Qed.

Lemma combine_seq_nth {A : Type} (arr : list A) : forall n p,
  In p (combine (seq n (List.length arr)) arr) ->
  nth_error arr (fst p - n) = Some (snd p) /\ (n <= fst p)%nat.
Proof.
  induction arr as [|a arr IH]; intros n p H; [destruct H|].
  cbn [List.length seq combine In] in H. destruct H as [<-|H].
  - cbn [fst snd]. rewrite Nat.sub_diag. split; [reflexivity | lia].
  - destruct (IH (S n) p H) as [E L]. split; [|lia].
    replace (fst p - n)%nat with (S (fst p - S n)) by lia. exact E.
Qed.

(** *** The stable library keeps the contract *)

Lemma stable_argsort_perm keys :
  Permutation (stable_argsort keys) (seq 0 (List.length keys)).
Proof.
  unfold stable_argsort.
  eapply Permutation_trans; [apply Permutation_map, stable_sort_perm|].
  rewrite map_fst_combine; [apply Permutation_refl | apply length_seq].
Qed.

Lemma stable_argsort_sorted keys :
  StronglySorted Z.le (take (stable_argsort keys) keys).
Proof.
  unfold stable_argsort. rewrite take_pairs.
  - apply (sorted_keys snd). apply stable_sort_sorted.
    + intros a b c; lia.
    + intros y x H. apply Z.ltb_lt in H. lia.
    + intros y x H. apply Z.ltb_ge in H. lia.
  - intros p Hp. apply (Permutation_in _ (stable_sort_perm _ _)) in Hp.
    destruct (combine_seq_nth keys 0 p Hp) as [E _].
    now rewrite Nat.sub_0_r in E.
Qed.

#[export] Instance reference_lawful : Lawful reference_library.
Proof.
  constructor; cbn [argsort sorted reference_library].
  - apply stable_argsort_perm.
  - apply stable_argsort_sorted.
  - intros l. apply stable_sort_perm.
  - intros l. apply (sorted_keys fst), pair_sort_sorted.
  - reflexivity.
Qed.

(** *** What the contract gives for [sort_values] *)

Section LibraryFacts.
Context {lib : Library} {lawful : Lawful lib}.

Lemma sort_values_perm df : Permutation (sort_values_Vertices df) df.
Proof.
  unfold sort_values_Vertices. apply take_perm.
  rewrite <- (length_map Vertices df). apply argsort_perm.
Qed.

Lemma sort_values_sorted df :
  StronglySorted (fun a b => Vertices a <= Vertices b) (sort_values_Vertices df).
Proof.
  apply sorted_by_keys. unfold sort_values_Vertices. rewrite take_map.
  apply argsort_sorted.
Qed.

Lemma sort_values_length df :
  List.length (sort_values_Vertices df) = List.length df.
Proof. apply Permutation_length, sort_values_perm. Qed.

Lemma sorted_count name df :
  List.length (sort_values_Vertices (select_algorithm name df)) =
  List.length (select_algorithm name df).
Proof. apply sort_values_length. Qed.

(** Rows with pairwise different keys have one sorted order. *)
Lemma sort_values_row_order l l' :
  Permutation l l' -> NoDup (map Vertices l) ->
  sort_values_Vertices l' = sort_values_Vertices l.
Proof.
  intros P Hnd. symmetry.
  apply (sorted_perm_unique Vertices); try apply sort_values_sorted.
  - eapply Permutation_trans; [apply sort_values_perm|].
    eapply Permutation_trans; [exact P|].
    apply Permutation_sym, sort_values_perm.
  - eapply Permutation_NoDup; [|exact Hnd].
    apply Permutation_map, Permutation_sym, sort_values_perm.
Qed.

Lemma sort_values_unique df :
  NoDup (map Vertices df) ->
  sort_values_Vertices df =
    stable_sort (fun a b => Vertices a <? Vertices b) df.
Proof.
  intros Hnd. apply (sorted_perm_unique Vertices).
  - apply sort_values_sorted.
  - apply stable_sort_sorted.
    + intros a b c; lia.
    + intros y x H. apply Z.ltb_lt in H. lia.
    + intros y x H. apply Z.ltb_ge in H. lia.
  - eapply Permutation_trans; [apply sort_values_perm|].
    apply Permutation_sym, stable_sort_perm.
  - eapply Permutation_NoDup; [|exact Hnd].
    apply Permutation_map, Permutation_sym, sort_values_perm.
Qed.

(** A frame that is already in strictly ascending order is left as it
    is. *)
Lemma sort_values_sorted_id df :
  StronglySorted (fun a b => Vertices a < Vertices b) df ->
  sort_values_Vertices df = df.
Proof.
  intros H. apply (sorted_perm_unique Vertices).
  - apply sort_values_sorted.
  - induction H as [|a l _ IH F]; constructor; [exact IH|].
    eapply Forall_impl; [|exact F]. cbn beta. intros b Hb. lia.
  - apply sort_values_perm.
  - eapply Permutation_NoDup;
      [apply Permutation_map, Permutation_sym, sort_values_perm|].
    induction H as [|a l _ IH F]; cbn [map]; constructor; [|exact IH].
    intros Hin. apply in_map_iff in Hin. destruct Hin as (b & E & Hb).
    rewrite Forall_forall in F. specialize (F b Hb). lia.
Qed.
End LibraryFacts.

(** *** Group keys *)

Lemma key_lt_trans a b c : key_lt a b -> key_lt b c -> key_lt a c.
Proof.
  unfold key_lt. rewrite !String_as_OT.cmp_lt. apply String_as_OT.lt_trans.
Qed.

Lemma key_lt_irrefl a : ~ key_lt a a.
Proof.
  unfold key_lt. intros H.
  assert (E : String.compare a a = Eq) by (now apply String_as_OT.cmp_eq).
  congruence.
Qed.

Lemma insert_key_In x k ks : In x (insert_key k ks) <-> x = k \/ In x ks.
Proof.
  induction ks as [|k' ks IH]; simpl.
  - intuition.
  - destruct (String.compare k k') eqn:E; simpl.
    + apply String.compare_eq_iff in E. subst. intuition.
    + intuition.
    + rewrite IH. intuition.
Qed.

Lemma insert_key_sorted k ks :
  StronglySorted key_lt ks -> StronglySorted key_lt (insert_key k ks).
Proof.
  induction 1 as [|k' ks Hs IH Hk]; simpl.
  - repeat constructor.
  - destruct (String.compare k k') eqn:E.
    + now constructor.
    + constructor; [now constructor|].
      constructor; [exact E|].
      rewrite Forall_forall in *. intros z Hz.
      eapply key_lt_trans; [exact E | now apply Hk].
    + constructor; auto.
      rewrite Forall_forall in *. intros z Hz.
      apply insert_key_In in Hz. destruct Hz as [->|Hz]; auto.
      unfold key_lt. rewrite String.compare_antisym, E. reflexivity.
Qed.

Lemma group_keys_sorted df : StronglySorted key_lt (group_keys df).
Proof.
  unfold group_keys. induction (map Graph df) as [|g l IH]; simpl.
  - constructor.
  - now apply insert_key_sorted.
Qed.

Lemma group_keys_In g df : In g (group_keys df) <-> In g (map Graph df).
Proof.
  unfold group_keys. induction (map Graph df) as [|k l IH]; simpl.
  - reflexivity.
  - rewrite insert_key_In, IH. intuition.
Qed.

Lemma strictly_sorted_ext (l1 : list string) :
  forall l2,
    StronglySorted key_lt l1 -> StronglySorted key_lt l2 ->
    (forall x, In x l1 <-> In x l2) -> l1 = l2.
Proof.
  induction l1 as [|a l1 IH]; intros l2 S1 S2 H.
  - destruct l2 as [|b l2]; [reflexivity|].
    exfalso. apply (proj2 (H b)). now left.
  - destruct l2 as [|b l2].
    { exfalso. apply (proj1 (H a)). now left. }
    inversion S1 as [|? ? S1' F1]; inversion S2 as [|? ? S2' F2]; subst.
    rewrite Forall_forall in F1, F2.
    assert (a = b) as <-.
    { destruct (proj1 (H a) (or_introl eq_refl)) as [->|Ha]; [reflexivity|].
      destruct (proj2 (H b) (or_introl eq_refl)) as [->|Hb]; [reflexivity|].
      exfalso. apply (key_lt_irrefl a).
      eapply key_lt_trans; [apply F1, Hb | apply F2, Ha]. }
    f_equal. apply IH; auto.
    intros x; split; intros Hx.
    + destruct (proj1 (H x) (or_intror Hx)) as [<-|Hx']; auto.
      exfalso. apply (key_lt_irrefl a). now apply F1.
    + destruct (proj2 (H x) (or_intror Hx)) as [<-|Hx']; auto.
      exfalso. apply (key_lt_irrefl a). now apply F2.
Qed.

Lemma group_keys_perm df df' :
  Permutation df df' -> group_keys df = group_keys df'.
Proof.
  intros P. apply strictly_sorted_ext; try apply group_keys_sorted.
  intros x. rewrite !group_keys_In.
  split; apply Permutation_in; [|apply Permutation_sym];
    now apply Permutation_map.
Qed.

Lemma groupby_In g group df :
  In (g, group) (groupby_Graph df) <->
  In g (map Graph df) /\ group = group_of g df.
Proof.
  unfold groupby_Graph. rewrite in_map_iff. split.
  - intros (k & E & Hk). inversion E; subst.
    split; [now apply group_keys_In | reflexivity].
  - intros [Hg ->]. exists g. split; [reflexivity | now apply group_keys_In].
Qed.

(** *** The ratio loop *)

Lemma group_ratio_raise group e :
  group_ratio group = Raise e ->
  e = IndexError /\
  (select_algorithm "Prim" group = [] \/ select_algorithm "Kruskal" group = []).
Proof.
  unfold group_ratio, rbind, values0.
  destruct (select_algorithm "Prim" group) as [|p ps] eqn:Ep; simpl.
  { intros H; inversion H; auto. }
  destruct (select_algorithm "Kruskal" group) as [|k ks] eqn:Ek; simpl.
  { intros H; inversion H; auto. }
  destruct group as [|r group]; simpl.
  { discriminate Ep. }
  destruct (F64.ltb F64.zero (Time_ms p)); discriminate.
Qed.

Lemma group_ratio_missing group :
  select_algorithm "Prim" group = [] \/ select_algorithm "Kruskal" group = [] ->
  group_ratio group = Raise IndexError.
Proof.
  unfold group_ratio, rbind, values0.
  intros [H|H].
  - now rewrite H.
  - rewrite H. destruct (select_algorithm "Prim" group); reflexivity.
Qed.

(** What one group contributes, read off its first records. *)
Lemma group_ratio_first group p ps k ks r rs :
  select_algorithm "Prim" group = p :: ps ->
  select_algorithm "Kruskal" group = k :: ks ->
  group = r :: rs ->
  group_ratio group =
    Ok (if F64.ltb F64.zero (Time_ms p)
        then Some (Vertices r, F64.div (Time_ms k) (Time_ms p))
        else None).
Proof.
  intros Hp Hk ->. unfold group_ratio, rbind, values0.
  rewrite Hp, Hk. simpl.
  destruct (F64.ltb F64.zero (Time_ms p)); reflexivity.
Qed.

Lemma ratio_loop_raises groups : forall ratios vertices,
  (exists g, In g groups /\ group_ratio (snd g) = Raise IndexError) ->
  ratio_loop groups ratios vertices = Raise IndexError.
Proof.
  induction groups as [|[name group] groups IH]; intros ratios vertices (g & Hg & E).
  - contradiction.
  - simpl. destruct (group_ratio group) as [[[v ratio]|]|e] eqn:Eg.
    + apply IH. destruct Hg as [<-|Hg]; [simpl in E; congruence | eauto].
    + apply IH. destruct Hg as [<-|Hg]; [simpl in E; congruence | eauto].
    + apply group_ratio_raise in Eg. now destruct Eg as [-> _].
Qed.

Lemma ratio_loop_completes groups : forall ratios vertices,
  (forall g, In g groups -> group_ratio (snd g) <> Raise IndexError) ->
  ratio_loop groups ratios vertices =
    Ok (ratios ++ map snd (contributions groups),
        vertices ++ map fst (contributions groups)).
Proof.
  induction groups as [|[name group] groups IH]; intros ratios vertices H.
  - simpl. now rewrite !app_nil_r.
  - simpl. unfold contributions in *. simpl.
    assert (Hg := H (name, group) (or_introl eq_refl)). simpl in Hg.
    destruct (group_ratio group) as [[[v ratio]|]|e] eqn:Eg.
    + rewrite IH by (intros; apply H; now right).
      simpl. now rewrite <- !app_assoc.
    + rewrite IH by (intros; apply H; now right). reflexivity.
    + apply group_ratio_raise in Eg. destruct Eg as [-> _]. congruence.
Qed.

(** The ratio series in one formula. *)
Lemma performance_ratio_series_completes {lib : Library} df :
  (forall g, In g (groupby_Graph df) -> group_ratio (snd g) <> Raise IndexError) ->
  performance_ratio_series df =
    unzip_pairs (sorted (contributions (groupby_Graph df))).
Proof.
  intros H. unfold performance_ratio_series.
  rewrite ratio_loop_completes by assumption. simpl.
  now rewrite combine_fst_snd.
Qed.

Lemma performance_ratio_series_raises {lib : Library} df :
  (exists g, In g (groupby_Graph df) /\ group_ratio (snd g) = Raise IndexError) ->
  performance_ratio_series df = Raise IndexError.
Proof.
  intros H. unfold performance_ratio_series.
  now rewrite ratio_loop_raises.
Qed.

Lemma ratio_loop_ok_inv groups ratios vertices out :
  ratio_loop groups ratios vertices = Ok out ->
  forall g, In g groups -> group_ratio (snd g) <> Raise IndexError.
Proof.
  intros H g Hg E.
  rewrite (ratio_loop_raises groups ratios vertices) in H by eauto.
  discriminate.
Qed.

Lemma contributions_In entry groups :
  In entry (contributions groups) <->
  exists g, In g groups /\ group_ratio (snd g) = Ok (Some entry).
Proof.
  unfold contributions. rewrite in_flat_map. split.
  - intros (g & Hg & H). exists g. split; [assumption|].
    destruct (group_ratio (snd g)) as [[e|]|]; simpl in H; try contradiction.
    destruct H as [->|[]]. reflexivity.
  - intros (g & Hg & E). exists g. split; [assumption|].
    rewrite E. now left.
Qed.

Lemma group_ratio_some group v ratio :
  group_ratio group = Ok (Some (v, ratio)) ->
  exists p k,
    values0 (map Time_ms (select_algorithm "Prim" group)) = Ok p /\
    values0 (map Time_ms (select_algorithm "Kruskal" group)) = Ok k /\
    values0 (map Vertices group) = Ok v /\
    F64.ltb F64.zero p = true /\ ratio = F64.div k p.
Proof.
  unfold group_ratio, rbind.
  destruct (values0 (map Time_ms (select_algorithm "Prim" group))) as [p|]; [|discriminate].
  destruct (values0 (map Time_ms (select_algorithm "Kruskal" group))) as [k|]; [|discriminate].
  destruct (values0 (map Vertices group)) as [v'|]; [|discriminate].
  destruct (F64.ltb F64.zero p) eqn:E; [|discriminate].
  intros H. inversion H; subst. exists p, k. auto.
Qed.

Lemma group_ratio_values group p k v :
  values0 (map Time_ms (select_algorithm "Prim" group)) = Ok p ->
  values0 (map Time_ms (select_algorithm "Kruskal" group)) = Ok k ->
  values0 (map Vertices group) = Ok v ->
  group_ratio group =
    Ok (if F64.ltb F64.zero p then Some (v, F64.div k p) else None).
Proof.
  intros Hp Hk Hv. unfold group_ratio, rbind. rewrite Hp, Hk, Hv.
  destruct (F64.ltb F64.zero p); reflexivity.
Qed.

Lemma values0_In {A : Type} (l : list A) x : values0 l = Ok x -> In x l.
Proof. destruct l; simpl; intros H; inversion H; now left. Qed.

Lemma group_of_incl g df r : In r (group_of g df) -> In r df /\ Graph r = g.
Proof.
  unfold group_of. rewrite filter_In. intros [H E].
  apply String.eqb_eq in E. auto.
Qed.

Lemma select_algorithm_In name df r :
  In r (select_algorithm name df) <-> In r df /\ Algorithm r = name.
Proof.
  unfold select_algorithm. rewrite filter_In. now rewrite String.eqb_eq.
Qed.

Lemma unzip_pairs_ok l vertices ratios :
  unzip_pairs l = Ok (vertices, ratios) ->
  vertices = map fst l /\ ratios = map snd l.
Proof.
  destruct l; simpl; intros H; inversion H; auto.
Qed.

Lemma eqb_zero_not_positive p :
  F64.eqb p F64.zero = true -> F64.ltb F64.zero p = false.
Proof.
  destruct p as [s|s| |s m e]; try reflexivity; destruct s; discriminate.
Qed.

(** ** Effects *)

Lemma bind_ok {A B : Type} (tr : list event) (a : A) (k : A -> M B) :
  bind (tr, Ok a) k = (tr ++ fst (k a), snd (k a)).
Proof. unfold bind. destruct (k a); reflexivity. Qed.

Lemma bind_raise {A B : Type} (tr : list event) (e : exn) (k : A -> M B) :
  bind (tr, Raise e) k = (tr, Raise e).
Proof. reflexivity. Qed.

Lemma bind_lift_ok {A B : Type} (a : A) (k : A -> M B) :
  bind (lift (Ok a)) k = k a.
Proof. unfold lift. rewrite bind_ok. now destruct (k a). Qed.

Lemma try_except_ok {A : Type} (tr : list event) (a : A) (h : exn -> M A) :
  try_except (tr, Ok a) h = (tr, Ok a).
Proof. reflexivity. Qed.

Lemma try_except_raise {A : Type} (tr : list event) (e : exn) (h : exn -> M A) :
  try_except (tr, Raise e) h = (tr ++ fst (h e), snd (h e)).
Proof. unfold try_except. destruct (h e); reflexivity. Qed.

Lemma artifacts_app tr tr' : artifacts (tr ++ tr') = artifacts tr ++ artifacts tr'.
Proof. apply flat_map_app. Qed.

Lemma save_ok {world : World} output_dir name fig :
  savefig (path_join output_dir name) fig = Ok tt ->
  save output_dir name fig =
    ([SaveFig (path_join output_dir name) fig;
      Print (Saved (path_join output_dir name))], Ok tt).
Proof. intros H. unfold save, lift. rewrite H. reflexivity. Qed.

Lemma save_raise {world : World} output_dir name fig e :
  savefig (path_join output_dir name) fig = Raise e ->
  save output_dir name fig = ([], Raise e).
Proof. intros H. unfold save, lift. rewrite H. reflexivity. Qed.

Lemma save_reliable {world : World} output_dir name fig :
  reliable_output world ->
  save output_dir name fig =
    ([SaveFig (path_join output_dir name) fig;
      Print (Saved (path_join output_dir name))], Ok tt).
Proof. intros [H _]. apply save_ok, H. Qed.

(** *** Steps that write one file *)

Lemma save_step {world : World} output_dir name fig :
  writes_or_raises (save output_dir name fig) (path_join output_dir name).
Proof.
  destruct (savefig (path_join output_dir name) fig) as [[]|e] eqn:E.
  - left. rewrite (save_ok _ _ _ E). split; reflexivity.
  - right. exists e. rewrite (save_raise _ _ _ _ E). split; reflexivity.
Qed.

Lemma lift_step {A : Type} (r : result A) (k : A -> M unit) output_path :
  (forall a, writes_or_raises (k a) output_path) ->
  writes_or_raises (bind (lift r) k) output_path.
Proof.
  intros H. destruct r as [a|e].
  - rewrite bind_lift_ok. apply H.
  - right. exists e. split; reflexivity.
Qed.

(** A chain of such steps writes an initial segment of its files. *)
Lemma chain_step (step rest : M unit) output_path paths :
  writes_or_raises step output_path ->
  (exists n, artifacts (fst rest) = firstn n paths) ->
  exists n, artifacts (fst (bind step (fun _ => rest))) =
            firstn n (output_path :: paths).
Proof.
  intros [[Hs Ha]|(e & Hs & Ha)] (n & Hr); destruct step as [tr r];
    cbn [fst snd] in *; subst r.
  - exists (S n). rewrite bind_ok. cbn [fst].
    rewrite artifacts_app, Ha, Hr. reflexivity.
  - exists 0%nat. rewrite bind_raise. cbn [fst]. exact Ha.
Qed.

(** ** Elementwise operations *)

Lemma np_broadcast2_same_length {A B C : Type} (f : A -> B -> C) xs ys :
  List.length xs = List.length ys ->
  np_broadcast2 f xs ys = Ok (map (fun p => f (fst p) (snd p)) (combine xs ys)).
Proof.
  intros H. unfold np_broadcast2.
  destruct xs as [|x [|x' xs]], ys as [|y [|y' ys]]; simpl in H;
    try discriminate H; try reflexivity.
  injection H as H. simpl. rewrite H, Nat.eqb_refl. reflexivity.
Qed.

Lemma combine_swap_map {A B C : Type} (f : B -> A -> C) (xs : list A) :
  forall ys : list B,
    map (fun p => f (fst p) (snd p)) (combine ys xs) =
    map (fun p => f (snd p) (fst p)) (combine xs ys).
Proof.
  induction xs as [|x xs IH]; intros [|y ys]; simpl; try reflexivity.
  now rewrite IH.
Qed.

Lemma count_true_cons b bs : count_true (b :: bs) = (Nat.b2n b + count_true bs)%nat.
Proof. unfold count_true. destruct b; reflexivity. Qed.

Lemma np_broadcast2_cases {A B C : Type} (f : A -> B -> C) xs ys :
  (shapes_compatible (List.length xs) (List.length ys) = true ->
   exists l, np_broadcast2 f xs ys = Ok l /\
             List.length l = broadcast_length (List.length xs) (List.length ys)) /\
  (shapes_compatible (List.length xs) (List.length ys) = false ->
   np_broadcast2 f xs ys = Raise ValueError).
Proof.
  unfold shapes_compatible, broadcast_length, np_broadcast2.
  destruct xs as [|x [|x' xs]], ys as [|y [|y' ys]];
    cbn [List.length Nat.eqb orb]; split; intros H; try discriminate H;
    try (eexists; split; [reflexivity|]; cbn [map combine List.length];
         rewrite ?length_map; reflexivity);
    try reflexivity.
  - rewrite !orb_false_r in H. rewrite H. eexists. split; [reflexivity|].
    rewrite length_map. cbn [combine List.length].
    rewrite length_combine. apply Nat.eqb_eq in H. rewrite H, Nat.min_id.
    destruct (List.length ys); reflexivity.
  - rewrite !orb_false_r in H. now rewrite H.
Qed.

Lemma shapes_compatible_sym n m : shapes_compatible n m = shapes_compatible m n.
Proof.
  unfold shapes_compatible. rewrite (Nat.eqb_sym n m).
  destruct (Nat.eqb m n), (Nat.eqb n 1), (Nat.eqb m 1); reflexivity.
Qed.

(** With an empty array on one side and at most one entry on the
    other, the broadcast is empty and [allclose] holds vacuously. *)
Lemma allclose_vacuous xs ys :
  (List.length xs = 0 /\ List.length ys <= 1 \/
   List.length ys = 0 /\ List.length xs <= 1)%nat ->
  allclose xs ys = Ok true.
Proof.
  destruct xs as [|x [|x' xs]], ys as [|y [|y' ys]]; cbn [List.length];
    intros [[H1 H2]|[H1 H2]]; try lia; reflexivity.
Qed.

(** *** [allclose] *)

Lemma eqb_refl_number x : F64.isnan x = false -> F64.eqb x x = true.
Proof.
  destruct x as [s|s| |s m e]; try discriminate; intros _;
    unfold F64.eqb, SFeqb; simpl; try (destruct s; reflexivity).
  destruct s; rewrite Z.compare_refl, Pos.compare_cont_refl; reflexivity.
Qed.

(** Numbers that are equal under [==] are close. *)
Lemma isclose_of_eqb x y : F64.eqb x y = true -> isclose x y = true.
Proof.
  intros H. unfold isclose.
  destruct (F64.isfinite x && F64.isfinite y) eqn:Hf; [|exact H].
  apply andb_prop in Hf. destruct Hf as [Hx Hy].
  unfold within_tol, atol, rtol.
  assert (Hz : F64.abs (F64.sub x y) = S754_zero false).
  { destruct x as [sx|sx| |sx mx ex]; try discriminate Hx;
      destruct y as [sy|sy| |sy my ey]; try discriminate Hy.
    - destruct sx, sy; reflexivity.
    - destruct sy; discriminate H.
    - destruct sx; discriminate H.
    - apply F64Facts.eqb_finite_inv in H. destruct H as (-> & -> & ->).
      now rewrite F64Facts.sub_diag_finite. }
  rewrite Hz. apply F64Facts.leb_zero_signed, F64Facts.add_atol_signed.
  now apply F64Facts.mul_rtol_signed.
Qed.

Lemma allclose_same_length xs ys :
  List.length xs = List.length ys ->
  allclose xs ys =
    Ok (forallb (fun b => b) (map (fun p => isclose (fst p) (snd p)) (combine xs ys))).
Proof.
  intros H. unfold allclose. now rewrite np_broadcast2_same_length.
Qed.

Lemma allclose_identical xs ys :
  Forall2 (fun x y => F64.eqb x y = true) xs ys -> allclose xs ys = Ok true.
Proof.
  intros H. rewrite allclose_same_length by (eapply Forall2_length, H).
  f_equal. induction H as [|x y xs ys E _ IH]; [reflexivity|].
  cbn [combine map forallb fst snd]. now rewrite (isclose_of_eqb x y E), IH.
Qed.

Lemma allclose_differ xs ys x y :
  List.length xs = List.length ys ->
  In (x, y) (combine xs ys) -> isclose x y = false ->
  allclose xs ys = Ok false.
Proof.
  intros L Hin Hc. rewrite allclose_same_length by exact L. f_equal.
  apply not_true_is_false. intros Hall.
  rewrite forallb_forall in Hall.
  specialize (Hall (isclose x y)
                (in_map (fun p => isclose (fst p) (snd p)) _ (x, y) Hin)).
  simpl in Hall. congruence.
Qed.

Lemma allclose_cases xs ys :
  (shapes_compatible (List.length xs) (List.length ys) = true ->
   exists verdict, allclose xs ys = Ok verdict) /\
  (shapes_compatible (List.length xs) (List.length ys) = false ->
   allclose xs ys = Raise ValueError).
Proof.
  unfold allclose.
  destruct (np_broadcast2_cases isclose xs ys) as [Hok Hbad]. split; intros H.
  - destruct (Hok H) as (l & -> & _). eauto.
  - now rewrite (Hbad H).
Qed.

(** *** Win counts *)

Lemma win_count_sum (l : list (F64.t * F64.t)) :
  (count_true (map (fun p => F64.ltb (fst p) (snd p)) l) +
   count_true (map (fun p => F64.ltb (snd p) (fst p)) l) +
   count_true (map (fun p => F64.eqb (fst p) (snd p)) l) <= List.length l)%nat /\
  (Forall (fun p => F64.isnan (fst p) = false /\ F64.isnan (snd p) = false) l ->
   (count_true (map (fun p => F64.ltb (fst p) (snd p)) l) +
    count_true (map (fun p => F64.ltb (snd p) (fst p)) l) +
    count_true (map (fun p => F64.eqb (fst p) (snd p)) l) = List.length l)%nat).
Proof.
  induction l as [|[x y] l [IH1 IH2]]; simpl.
  - split; reflexivity.
  - rewrite !count_true_cons. simpl fst. simpl snd.
    destruct (F64Facts.trichotomy_count x y) as [T1 T2]. split.
    + lia.
    + intros F. inversion F as [|? ? [Hx Hy] F']; subst. simpl in Hx, Hy.
      specialize (IH2 F'). specialize (T2 Hx Hy). lia.
Qed.

Lemma wins_against_one x ys :
  (count_true (map (F64.ltb x) ys) +
   count_true (map (fun y => F64.ltb y x) ys) <= List.length ys)%nat.
Proof.
  induction ys as [|y ys IH]; [reflexivity|].
  cbn [map List.length]. rewrite !count_true_cons.
  destruct (F64Facts.trichotomy_count x y) as [T _]. lia.
Qed.

Lemma wins_of_pairs xs ys :
  (count_true (map (fun p => F64.ltb (fst p) (snd p)) (combine xs ys)) +
   count_true (map (fun p => F64.ltb (fst p) (snd p)) (combine ys xs))
     <= List.length xs)%nat.
Proof.
  rewrite (combine_swap_map F64.ltb xs ys).
  destruct (win_count_sum (combine xs ys)) as [B _].
  rewrite length_combine in B. lia.
Qed.

Lemma broadcast_wins_bound xs ys l1 l2 :
  np_broadcast2 F64.ltb xs ys = Ok l1 ->
  np_broadcast2 F64.ltb ys xs = Ok l2 ->
  (count_true l1 + count_true l2 <=
     broadcast_length (List.length xs) (List.length ys))%nat.
Proof.
  unfold np_broadcast2, broadcast_length.
  destruct xs as [|x [|x' xs]], ys as [|y [|y' ys]];
    cbn [List.length Nat.eqb]; intros H1 H2;
    try discriminate H1; try discriminate H2;
    try (injection H1 as <-; injection H2 as <-).
  - reflexivity.
  - reflexivity.
  - reflexivity.
  - pose proof (wins_against_one x [y]) as W. exact W.
  - exact (wins_against_one x (y :: y' :: ys)).
  - pose proof (wins_against_one y (x :: x' :: xs)) as W.
    cbn [List.length map] in W. lia.
  - destruct (Nat.eqb (List.length xs) (List.length ys)) eqn:E;
      [|discriminate H1].
    rewrite (Nat.eqb_sym (List.length ys)), E in H2.
    injection H1 as <-. injection H2 as <-.
    exact (wins_of_pairs (x :: x' :: xs) (y :: y' :: ys)).
Qed.

Lemma win_counts_same_length df :
  List.length (select_algorithm "Prim" df) =
  List.length (select_algorithm "Kruskal" df) ->
  win_counts df =
    Ok (count_true (map (fun p => F64.ltb (fst p) (snd p)) (paired_times df)),
        count_true (map (fun p => F64.ltb (snd p) (fst p)) (paired_times df))).
Proof.
  intros H. unfold win_counts, rbind, paired_times.
  rewrite !np_broadcast2_same_length by (now rewrite !length_map).
  now rewrite (combine_swap_map F64.ltb
                 (map Time_ms (select_algorithm "Prim" df))
                 (map Time_ms (select_algorithm "Kruskal" df))).
Qed.

Lemma win_counts_cases df :
  (shapes_compatible (prim_count df) (kruskal_count df) = true ->
   exists wins, win_counts df = Ok wins) /\
  (shapes_compatible (prim_count df) (kruskal_count df) = false ->
   win_counts df = Raise ValueError).
Proof.
  unfold win_counts, rbind, prim_count, kruskal_count.
  set (P := select_algorithm "Prim" df). set (K := select_algorithm "Kruskal" df).
  pose proof (np_broadcast2_cases F64.ltb (map Time_ms P) (map Time_ms K)) as [O1 B1].
  pose proof (np_broadcast2_cases F64.ltb (map Time_ms K) (map Time_ms P)) as [O2 _].
  rewrite !length_map in *.
  split; intros H.
  - assert (H' : shapes_compatible (List.length K) (List.length P) = true)
      by (now rewrite shapes_compatible_sym).
    destruct (O1 H) as (l1 & -> & _), (O2 H') as (l2 & -> & _). eauto.
  - now rewrite (B1 H).
Qed.

Lemma win_counts_bound df wins :
  win_counts df = Ok wins ->
  (fst wins + snd wins <=
     broadcast_length (prim_count df) (kruskal_count df))%nat.
Proof.
  unfold win_counts, rbind, prim_count, kruskal_count.
  destruct (np_broadcast2 F64.ltb
              (map Time_ms (select_algorithm "Prim" df))
              (map Time_ms (select_algorithm "Kruskal" df))) as [l1|] eqn:E1;
    [|discriminate].
  destruct (np_broadcast2 F64.ltb
              (map Time_ms (select_algorithm "Kruskal" df))
              (map Time_ms (select_algorithm "Prim" df))) as [l2|] eqn:E2;
    [|discriminate].
  intros H. injection H as <-. cbn [fst snd].
  pose proof (broadcast_wins_bound _ _ _ _ E1 E2) as B.
  now rewrite !length_map in B.
Qed.

(** *** The summary *)

Lemma summary_statistics_empty : summary_statistics [] = Raise TypeError.
Proof. reflexivity. Qed.

(** The summary of a frame with rows: the win counts and the verdict of
    [allclose] on the costs in file order. *)
Lemma summary_statistics_rows df :
  df <> [] ->
  summary_statistics df =
    (wins <- win_counts df ;;
     verdict <- allclose (map MST_Cost (select_algorithm "Prim" df))
                  (map MST_Cost (select_algorithm "Kruskal" df)) ;;
     Ok {| prim_total := prim_count df;
           kruskal_total := kruskal_count df;
           prim_wins := fst wins;
           kruskal_wins := snd wins;
           costs_match := verdict |})%result.
Proof.
  intros H. unfold summary_statistics. destruct df as [|r df]; [congruence|].
  reflexivity.
Qed.

Lemma summary_statistics_inv df s :
  summary_statistics df = Ok s ->
  df <> [] /\
  win_counts df = Ok (prim_wins s, kruskal_wins s) /\
  allclose (map MST_Cost (select_algorithm "Prim" df))
           (map MST_Cost (select_algorithm "Kruskal" df)) = Ok (costs_match s) /\
  prim_total s = prim_count df /\ kruskal_total s = kruskal_count df.
Proof.
  intros H.
  assert (Hne : df <> []).
  { intros ->. rewrite summary_statistics_empty in H. discriminate H. }
  split; [exact Hne|]. rewrite (summary_statistics_rows df Hne) in H.
  unfold rbind in H.
  destruct (win_counts df) as [[pw kw]|]; [|discriminate].
  destruct (allclose _ _) as [verdict|]; [|discriminate].
  injection H as <-. cbn [prim_wins kruskal_wins costs_match prim_total
                           kruskal_total fst snd].
  repeat split; reflexivity.
Qed.

Lemma summary_statistics_cases df :
  df <> [] ->
  (shapes_compatible (prim_count df) (kruskal_count df) = true ->
   exists s, summary_statistics df = Ok s) /\
  (shapes_compatible (prim_count df) (kruskal_count df) = false ->
   summary_statistics df = Raise ValueError).
Proof.
  intros Hne. rewrite (summary_statistics_rows df Hne). unfold rbind.
  destruct (win_counts_cases df) as [Wok Wbad].
  destruct (allclose_cases (map MST_Cost (select_algorithm "Prim" df))
              (map MST_Cost (select_algorithm "Kruskal" df))) as [Aok _].
  rewrite !length_map in Aok. split; intros H.
  - destruct (Wok H) as (wins & ->). destruct (Aok H) as (verdict & ->). eauto.
  - now rewrite (Wbad H).
Qed.

(** ** The generators *)

Section GeneratorFacts.
Context {lib : Library} {world : World}.

Lemma cost_verification_verdict_rows df :
  df <> [] ->
  cost_verification_verdict df =
    allclose
      (map MST_Cost (sort_values_Vertices (select_algorithm "Prim" df)))
      (map MST_Cost (sort_values_Vertices (select_algorithm "Kruskal" df))).
Proof.
  intros H. unfold cost_verification_verdict.
  destruct df as [|r df]; [congruence | reflexivity].
Qed.

Lemma plot_performance_ratio_raises df e output_dir :
  performance_ratio_series df = Raise e ->
  plot_performance_ratio df output_dir = ([], Raise e).
Proof.
  intros H. unfold plot_performance_ratio, lift, bind. now rewrite H.
Qed.

Lemma plot_performance_ratio_series df output_dir vertices ratios :
  performance_ratio_series df = Ok (vertices, ratios) ->
  plot_performance_ratio df output_dir =
    save output_dir "performance_ratio.png"
      (PerformanceRatioFigure vertices ratios (ratio_colors ratios)).
Proof.
  intros H. unfold plot_performance_ratio. rewrite H, bind_lift_ok. reflexivity.
Qed.

Lemma plot_mst_cost_verification_raises df e output_dir :
  cost_verification_verdict df = Raise e ->
  plot_mst_cost_verification df output_dir = ([], Raise e).
Proof.
  intros H. unfold plot_mst_cost_verification, lift, bind. now rewrite H.
Qed.

Lemma plot_mst_cost_verification_verdict df output_dir note :
  cost_verification_verdict df = Ok note ->
  plot_mst_cost_verification df output_dir =
    save output_dir "mst_cost_verification.png"
      (MSTCostFigure
         (line_series MST_Cost
            (sort_values_Vertices (select_algorithm "Prim" df)))
         (line_series MST_Cost
            (sort_values_Vertices (select_algorithm "Kruskal" df)))
         note).
Proof.
  intros H. unfold plot_mst_cost_verification. rewrite H, bind_lift_ok. reflexivity.
Qed.

Lemma generate_summary_statistics_raises df e output_dir :
  summary_statistics df = Raise e ->
  generate_summary_statistics df output_dir = ([], Raise e).
Proof.
  intros H. unfold generate_summary_statistics, lift, bind. now rewrite H.
Qed.

Lemma generate_summary_statistics_written df s output_dir :
  summary_statistics df = Ok s ->
  write_text (path_join output_dir "summary_statistics.txt") s = Ok tt ->
  generate_summary_statistics df output_dir =
    ([Print (SummaryText s);
      WriteFile (path_join output_dir "summary_statistics.txt") s;
      Print (Saved (path_join output_dir "summary_statistics.txt"))], Ok tt).
Proof.
  intros H W. unfold generate_summary_statistics.
  rewrite H, bind_lift_ok. cbv beta zeta. rewrite W. reflexivity.
Qed.

Lemma generate_summary_statistics_unwritten df s output_dir e :
  summary_statistics df = Ok s ->
  write_text (path_join output_dir "summary_statistics.txt") s = Raise e ->
  generate_summary_statistics df output_dir =
    ([Print (SummaryText s)], Raise e).
Proof.
  intros H W. unfold generate_summary_statistics.
  rewrite H, bind_lift_ok. cbv beta zeta. rewrite W. reflexivity.
Qed.

(** *** Every generator writes its file or raises before writing *)

Lemma plot_execution_time_comparison_step df output_dir :
  writes_or_raises (plot_execution_time_comparison df output_dir)
    (path_join output_dir "execution_time_comparison.png").
Proof. apply save_step. Qed.

Lemma plot_operations_comparison_step df output_dir :
  writes_or_raises (plot_operations_comparison df output_dir)
    (path_join output_dir "operations_comparison.png").
Proof. apply save_step. Qed.

Lemma plot_mst_cost_verification_step df output_dir :
  writes_or_raises (plot_mst_cost_verification df output_dir)
    (path_join output_dir "mst_cost_verification.png").
Proof.
  unfold plot_mst_cost_verification. apply lift_step. intros note.
  apply save_step.
Qed.

Lemma plot_performance_ratio_step df output_dir :
  writes_or_raises (plot_performance_ratio df output_dir)
    (path_join output_dir "performance_ratio.png").
Proof.
  unfold plot_performance_ratio. apply lift_step. intros [vertices ratios].
  apply save_step.
Qed.

Lemma plot_edge_density_impact_step df output_dir :
  writes_or_raises (plot_edge_density_impact df output_dir)
    (path_join output_dir "edge_density_impact.png").
Proof. apply save_step. Qed.

Lemma plot_all_in_one_step df output_dir :
  writes_or_raises (plot_all_in_one df output_dir)
    (path_join output_dir "comprehensive_comparison.png").
Proof.
  unfold plot_all_in_one. apply lift_step. intros bars_prim.
  apply lift_step. intros bars_kruskal. apply save_step.
Qed.

Lemma generate_summary_statistics_step df output_dir :
  writes_or_raises (generate_summary_statistics df output_dir)
    (path_join output_dir "summary_statistics.txt").
Proof.
  destruct (summary_statistics df) as [s|e] eqn:E.
  - destruct (write_text (path_join output_dir "summary_statistics.txt") s)
      as [[]|e] eqn:W.
    + left. rewrite (generate_summary_statistics_written _ _ _ E W).
      split; reflexivity.
    + right. exists e. rewrite (generate_summary_statistics_unwritten _ _ _ _ E W).
      split; reflexivity.
  - right. exists e. rewrite (generate_summary_statistics_raises _ _ _ E).
    split; reflexivity.
Qed.

(** ** The orchestrator *)

Lemma generate_all_prefix df output_dir :
  exists n, artifacts (fst (generate_all df output_dir)) =
            firstn n (all_artifacts output_dir).
Proof.
  unfold generate_all, all_artifacts, artifact_names. cbn [map].
  apply chain_step; [apply plot_execution_time_comparison_step|].
  apply chain_step; [apply plot_operations_comparison_step|].
  apply chain_step; [apply plot_mst_cost_verification_step|].
  apply chain_step; [apply plot_performance_ratio_step|].
  apply chain_step; [apply plot_edge_density_impact_step|].
  apply chain_step; [apply plot_all_in_one_step|].
  apply chain_step; [apply generate_summary_statistics_step|].
  exists 0%nat. reflexivity.
Qed.

Lemma load_csv_data_ok filepath df :
  read_csv filepath = Ok df ->
  load_csv_data filepath =
    ([Print (Loaded filepath (List.length df) 7); Print (Columns column_names)],
     Ok (Some df)).
Proof.
  intros H. unfold load_csv_data, lift. rewrite H. reflexivity.
Qed.

Lemma load_csv_data_raise filepath e :
  read_csv filepath = Raise e ->
  load_csv_data filepath = ([Print (ErrorLoading filepath e)], Ok None).
Proof.
  intros H. unfold load_csv_data, lift. rewrite H. reflexivity.
Qed.

(** The three ways a run can go: the directory cannot be created, the
    file cannot be read, or the chain of generators runs under the
    handler. *)
Lemma main_no_directory args e :
  makedirs (output args) = Raise e -> main args = ([], Raise e).
Proof. intros H. unfold main, lift. rewrite H. reflexivity. Qed.

Lemma main_load_failure args e :
  makedirs (output args) = Ok tt ->
  read_csv (input args) = Raise e ->
  main args =
    ([MakeDirs (output args);
      Print (rule "=");
      Print (Text "MST RESULTS PLOTTING SCRIPT");
      Print (rule "=");
      Print (ErrorLoading (input args) e)], Ok tt).
Proof.
  intros D R. unfold main. rewrite D, (load_csv_data_raise _ _ R).
  reflexivity.
Qed.

Lemma main_on_frame args df :
  makedirs (output args) = Ok tt ->
  read_csv (input args) = Ok df ->
  main args =
    (let body :=
       try_except (generate_all df (output args))
         (fun e => bind (emit (Print (ErrorGenerating e)))
                     (fun _ => emit (Print (Traceback e)))) in
     ([MakeDirs (output args); Print (rule "=");
       Print (Text "MST RESULTS PLOTTING SCRIPT"); Print (rule "=");
       Print (Loaded (input args) (List.length df) 7);
       Print (Columns column_names);
       Print (Text (String "010" "Generating plots...")); Print (rule "-")]
      ++ fst body, snd body)).
Proof.
  intros D R. unfold main. rewrite D, (load_csv_data_ok _ _ R).
  rewrite bind_lift_ok. unfold emit. rewrite !bind_ok. cbn [fst snd app].
  reflexivity.
Qed.

Lemma handled_artifacts (body : M unit) :
  artifacts (fst (try_except body
                    (fun e => bind (emit (Print (ErrorGenerating e)))
                                (fun _ => emit (Print (Traceback e)))))) =
  artifacts (fst body).
Proof.
  destruct body as [tr [[]|e]]; [reflexivity|].
  rewrite try_except_raise. unfold emit. rewrite bind_ok. cbn [fst snd app].
  rewrite artifacts_app. cbn [artifacts flat_map app]. apply app_nil_r.
Qed.


Lemma main_artifacts_prefix args :
  exists n, artifacts (fst (main args)) =
              firstn n (all_artifacts (output args)).
Proof.
  destruct (makedirs (output args)) as [[]|e] eqn:D.
  - destruct (read_csv (input args)) as [df|e] eqn:R.
    + rewrite (main_on_frame _ _ D R). cbv zeta. cbn [fst].
      rewrite artifacts_app, handled_artifacts.
      apply generate_all_prefix.
    + exists 0%nat. rewrite (main_load_failure _ _ D R). reflexivity.
  - exists 0%nat. rewrite (main_no_directory _ _ D). reflexivity.
Qed.
End GeneratorFacts.

(** ** Frames on which every lawful library sorts alike *)

Section Agreement.
Context {lib : Library} {lawful : Lawful lib}.

Lemma sorted_nil : sorted [] = [].
Proof. apply Permutation_nil, Permutation_sym, sorted_perm. Qed.

Lemma sorted_singleton p : sorted [p] = [p].
Proof. apply Permutation_length_1_inv, Permutation_sym, sorted_perm. Qed.

Lemma sorted_length l : List.length (sorted l) = List.length l.
Proof. apply Permutation_length, sorted_perm. Qed.

Lemma reference_sort df :
  NoDup (map Vertices df) ->
  sort_values_Vertices df = sort_values_Vertices (lib := reference_library) df.
Proof.
  intros H. rewrite (sort_values_unique df H).
  symmetry. apply (sort_values_unique (lib := reference_library) df H).
Qed.

Lemma reference_series df :
  ratios_are_numbers df ->
  performance_ratio_series df =
    performance_ratio_series (lib := reference_library) df.
Proof.
  intros H. unfold performance_ratio_series.
  destruct (ratio_loop (groupby_Graph df) [] []) as [[ratios vertices]|e] eqn:E;
    [|reflexivity].
  pose proof (ratio_loop_ok_inv _ _ _ _ E) as Hc.
  rewrite (ratio_loop_completes _ [] [] Hc) in E. injection E as <- <-.
  cbn [app]. rewrite combine_fst_snd.
  rewrite (sorted_stable _ H). reflexivity.
Qed.

Lemma reference_generate_all {world : World} df output_dir :
  distinct_vertices df -> ratios_are_numbers df ->
  generate_all df output_dir =
    generate_all (lib := reference_library) df output_dir.
Proof.
  intros [Hp Hk] Hn.
  unfold generate_all, plot_execution_time_comparison,
    plot_operations_comparison, plot_mst_cost_verification,
    cost_verification_verdict, plot_performance_ratio, plot_all_in_one.
  rewrite (reference_sort _ Hp), (reference_sort _ Hk), (reference_series _ Hn).
  reflexivity.
Qed.

Lemma reference_main {world : World} args df :
  read_csv (input args) = Ok df ->
  distinct_vertices df -> ratios_are_numbers df ->
  main args = main (lib := reference_library) args.
Proof.
  intros R Hd Hn. destruct (makedirs (output args)) as [[]|e] eqn:D.
  - rewrite (main_on_frame _ _ D R).
    rewrite (main_on_frame (lib := reference_library) _ _ D R).
    now rewrite (reference_generate_all _ _ Hd Hn).
  - rewrite (main_no_directory _ _ D).
    now rewrite (main_no_directory (lib := reference_library) _ _ D).
Qed.
End Agreement.

(** Deciding the two side conditions on a concrete frame. *)
Lemma ratios_are_numbers_dec df :
  forallb (fun p => negb (F64.isnan (snd p)))
    (contributions (groupby_Graph df)) = true ->
  ratios_are_numbers df.
Proof.
  intros H. unfold ratios_are_numbers. apply Forall_forall. intros p Hp.
  rewrite forallb_forall in H. specialize (H p Hp).
  now destruct (F64.isnan (snd p)).
Qed.

Lemma distinct_NoDup l : distinct l = true -> NoDup l.
Proof.
  induction l as [|x l IH]; cbn [distinct]; intros H; constructor;
    apply andb_prop in H; destruct H as [Hx Hl]; [|now apply IH].
  intros Hin. apply negb_true_iff in Hx.
  assert (E : existsb (Z.eqb x) l = true)
    by (apply existsb_exists; exists x; split; [exact Hin | apply Z.eqb_refl]).
  congruence.
Qed.

Lemma distinct_vertices_dec df :
  distinct (map Vertices (select_algorithm "Prim" df)) &&
  distinct (map Vertices (select_algorithm "Kruskal" df)) = true ->
  distinct_vertices df.
Proof.
  intros H. apply andb_prop in H. destruct H as [Hp Hk].
  split; now apply distinct_NoDup.
Qed.

(** ** The performance-ratio report *)

Lemma groups_complete df :
  (forall g, In g (map Graph df) ->
     select_algorithm "Prim" (group_of g df) <> [] /\
     select_algorithm "Kruskal" (group_of g df) <> []) ->
  forall g, In g (groupby_Graph df) -> group_ratio (snd g) <> Raise IndexError.
Proof.
  intros H [g group] Hg E. simpl in E.
  apply groupby_In in Hg. destruct Hg as [Hg ->].
  apply group_ratio_raise in E. destruct E as [_ E].
  destruct (H g Hg) as [Hp Hk]. tauto.
Qed.

(** C1, as amended: when some graph has no Prim record or no Kruskal
    record, the ratio computation raises [IndexError]; no series is
    produced for any graph and no figure is saved.  When every graph
    has at least one record of each algorithm, the series is the sorted
    list of what the groups contribute from their first Prim and first
    Kruskal record, so a graph with several records of one algorithm is
    not left out.  The sorted list is a permutation of the
    contributions with ascending vertex counts; it is their stable
    sort when every ratio is a number. *)
Theorem missing_record_aborts_ratio_series {lib : Library}
    {lawful : Lawful lib} {world : World} (df : DataFrame) :
  (forall g,
     In g (map Graph df) ->
     select_algorithm "Prim" (group_of g df) = [] \/
     select_algorithm "Kruskal" (group_of g df) = [] ->
     performance_ratio_series df = Raise IndexError /\
     forall output_dir,
       plot_performance_ratio df output_dir = ([], Raise IndexError)) /\
  ((forall g, In g (map Graph df) ->
      select_algorithm "Prim" (group_of g df) <> [] /\
      select_algorithm "Kruskal" (group_of g df) <> []) ->
   performance_ratio_series df =
     unzip_pairs (sorted (contributions (groupby_Graph df))) /\
   Permutation (sorted (contributions (groupby_Graph df)))
     (contributions (groupby_Graph df)) /\
   StronglySorted Z.le (map fst (sorted (contributions (groupby_Graph df)))) /\
   (ratios_are_numbers df ->
    sorted (contributions (groupby_Graph df)) =
      stable_sort pair_lt (contributions (groupby_Graph df))) /\
   forall g p ps k ks r rs,
     In g (map Graph df) ->
     select_algorithm "Prim" (group_of g df) = p :: ps ->
     select_algorithm "Kruskal" (group_of g df) = k :: ks ->
     group_of g df = r :: rs ->
     F64.ltb F64.zero (Time_ms p) = true ->
     In (Vertices r, F64.div (Time_ms k) (Time_ms p))
        (contributions (groupby_Graph df))).
Proof.
  split.
  - intros g Hg Hmiss.
    assert (E : performance_ratio_series df = Raise IndexError).
    { apply performance_ratio_series_raises.
      exists (g, group_of g df). split.
      - now apply groupby_In.
      - now apply group_ratio_missing. }
    split; [exact E|]. intros output_dir.
    now apply plot_performance_ratio_raises.
  - intros Hall. split; [|split; [|split; [|split]]].
    + apply performance_ratio_series_completes. now apply groups_complete.
    + apply sorted_perm.
    + apply sorted_ascending.
    + intros Hn. now apply sorted_stable.
    + intros g p ps k ks r rs Hg Hp Hk Hr Hpos.
      apply contributions_In. exists (g, group_of g df). split.
      * now apply groupby_In.
      * simpl. rewrite (group_ratio_first _ p ps k ks r rs Hp Hk Hr).
        now rewrite Hpos.
Qed.

Lemma missing_record_aborts_ratio_series_witness :
  performance_ratio_series (lib := reference_library) scenario_B =
    Raise IndexError /\
  performance_ratio_series (lib := reference_library) duplicated_prim =
    unzip_pairs (stable_sort pair_lt (contributions (groupby_Graph duplicated_prim))).
Proof.
  split.
  - apply (proj1 (missing_record_aborts_ratio_series
                    (lib := reference_library)
                    (world := ideal_world scenario_B) scenario_B)
             "graph_2"%string).
    + simpl. auto.
    + right. reflexivity.
  - apply (proj2 (missing_record_aborts_ratio_series
                    (lib := reference_library)
                    (world := ideal_world duplicated_prim) duplicated_prim)).
    intros g Hg. simpl in Hg.
    destruct Hg as [<-|[<-|[<-|[]]]]; split; discriminate.
Defined.

(** Scenario B on the code: [graph_2] has no Kruskal record.  With
    every lawful library the ratio computation raises, so the
    well-formed graph contributes nothing either; when all output
    succeeds, the orchestrator catches the exception after three
    artifacts and runs no further generator.  A graph with two Prim
    records is not skipped. *)
Lemma scenario_B_raises :
  In "graph_2"%string (map Graph scenario_B) /\
  select_algorithm "Kruskal" (group_of "graph_2" scenario_B) = [] /\
  select_algorithm "Prim" (group_of "graph_1" scenario_B) <> [] /\
  select_algorithm "Kruskal" (group_of "graph_1" scenario_B) <> [] /\
  forall lib : Library, Lawful lib ->
    performance_ratio_series scenario_B = Raise IndexError /\
    (forall series, performance_ratio_series scenario_B <> Ok series) /\
    artifacts (fst (main (world := ideal_world scenario_B) default_args)) =
      ["docs/plots/execution_time_comparison.png";
       "docs/plots/operations_comparison.png";
       "docs/plots/mst_cost_verification.png"]%string /\
    snd (main (world := ideal_world scenario_B) default_args) = Ok tt /\
    performance_ratio_series duplicated_prim = Ok ([10], [F64.lit_0_8]).
Proof.
  split; [cbn; auto|]. split; [reflexivity|].
  split; [discriminate|]. split; [discriminate|].
  intros lib lawful.
  assert (E : performance_ratio_series scenario_B = Raise IndexError).
  { rewrite reference_series; [vm_compute; reflexivity|].
    apply ratios_are_numbers_dec. vm_compute. reflexivity. }
  split; [exact E|]. split; [|split; [|split]].
  - intros series H. rewrite E in H. discriminate.
  - rewrite (reference_main (world := ideal_world scenario_B)
               default_args scenario_B eq_refl).
    + vm_compute. reflexivity.
    + apply distinct_vertices_dec. vm_compute. reflexivity.
    + apply ratios_are_numbers_dec. vm_compute. reflexivity.
  - rewrite (reference_main (world := ideal_world scenario_B)
               default_args scenario_B eq_refl).
    + vm_compute. reflexivity.
    + apply distinct_vertices_dec. vm_compute. reflexivity.
    + apply ratios_are_numbers_dec. vm_compute. reflexivity.
  - rewrite reference_series; [vm_compute; reflexivity|].
    apply ratios_are_numbers_dec. vm_compute. reflexivity.
Qed.

(** C10: when every group reaches the guard [prim_time > 0] and fails
    it (in particular on an empty dataset, or when every graph has its
    two records and no Prim time is positive), the sorted pair list is
    empty and unpacking it raises [ValueError]; no ratio figure is
    saved. *)
Theorem empty_ratio_series_raises {lib : Library} {lawful : Lawful lib}
    {world : World} (df : DataFrame) :
  ((forall g, In g (groupby_Graph df) -> group_ratio (snd g) = Ok None) ->
   performance_ratio_series df = Raise ValueError /\
   forall output_dir,
     plot_performance_ratio df output_dir = ([], Raise ValueError)) /\
  ((forall g, In g (map Graph df) ->
      select_algorithm "Prim" (group_of g df) <> [] /\
      select_algorithm "Kruskal" (group_of g df) <> []) ->
   (forall r, In r df -> Algorithm r = "Prim"%string ->
              F64.ltb F64.zero (Time_ms r) = false) ->
   forall g, In g (groupby_Graph df) -> group_ratio (snd g) = Ok None).
Proof.
  split.
  - intros H.
    assert (E : performance_ratio_series df = Raise ValueError).
    { rewrite performance_ratio_series_completes.
      - assert (C : contributions (groupby_Graph df) = []).
        { unfold contributions.
          induction (groupby_Graph df) as [|g gs IH]; [reflexivity|].
          simpl. rewrite (H g (or_introl eq_refl)). simpl.
          apply IH. intros g' Hg'. apply H. now right. }
        rewrite C, sorted_nil. reflexivity.
      - intros g Hg. rewrite (H g Hg). discriminate. }
    split; [exact E|]. intros output_dir.
    now apply plot_performance_ratio_raises.
  - intros Hall Hzero [g group] Hg. simpl.
    apply groupby_In in Hg. destruct Hg as [Hg ->].
    destruct (Hall g Hg) as [Hp Hk].
    destruct (select_algorithm "Prim" (group_of g df)) as [|p ps] eqn:Ep; [tauto|].
    destruct (select_algorithm "Kruskal" (group_of g df)) as [|k ks] eqn:Ek; [tauto|].
    destruct (group_of g df) as [|r rs] eqn:Er; [discriminate Ep|].
    rewrite (group_ratio_first _ p ps k ks r rs Ep Ek eq_refl).
    assert (Hin : In p (select_algorithm "Prim" (r :: rs)))
      by (rewrite Ep; now left).
    apply select_algorithm_In in Hin. destruct Hin as [Hin Ha].
    rewrite <- Er in Hin. apply group_of_incl in Hin.
    now rewrite (Hzero p (proj1 Hin) Ha).
Qed.

Lemma empty_ratio_series_raises_witness :
  performance_ratio_series (lib := reference_library) zero_prim_times =
    Raise ValueError /\
  performance_ratio_series (lib := reference_library) [] = Raise ValueError /\
  plot_performance_ratio (lib := reference_library)
    (world := ideal_world []) [] "docs/plots" = ([], Raise ValueError).
Proof.
  split; [|split].
  - apply (proj1 (empty_ratio_series_raises (lib := reference_library)
                    (world := ideal_world zero_prim_times) zero_prim_times)).
    apply (proj2 (empty_ratio_series_raises (lib := reference_library)
                    (world := ideal_world zero_prim_times) zero_prim_times)).
    + intros g Hg. simpl in Hg.
      destruct Hg as [<-|[<-|[<-|[<-|[]]]]]; split; discriminate.
    + intros r Hr Ha. unfold zero_prim_times in Hr.
      destruct Hr as [<-|[<-|[<-|[<-|[]]]]]; try discriminate Ha; reflexivity.
  - apply (proj1 (empty_ratio_series_raises (lib := reference_library)
                    (world := ideal_world []) [])).
    intros g Hg. destruct Hg.
  - apply (proj1 (empty_ratio_series_raises (lib := reference_library)
                    (world := ideal_world []) [])).
    intros g Hg. destruct Hg.
Defined.

Lemma time_of_group_In name g df t :
  values0 (map Time_ms (select_algorithm name (group_of g df))) = Ok t ->
  In t (map Time_ms (select_algorithm name df)).
Proof.
  intros H. apply values0_In, in_map_iff in H. destruct H as (r & <- & Hr).
  apply in_map. apply select_algorithm_In in Hr. destruct Hr as [Hr Ha].
  apply group_of_incl in Hr. apply select_algorithm_In. tauto.
Qed.

Lemma values0_raise {A : Type} (l : list A) e : values0 l = Raise e -> e = IndexError.
Proof. destruct l; simpl; intros H; now inversion H. Qed.

(** C2, as amended: whenever the ratio computation returns a series,
    its entries are the contributions of the groups; a graph whose Prim
    time equals 0 contributes none; a graph whose Prim time is positive
    contributes the [float64] quotient of its Kruskal time by its Prim
    time; every entry is such a quotient by a positive divisor, so no
    division by zero takes place.  The entry is not NaN when the
    Kruskal time is finite, and it is finite when moreover the binades
    of the two times are at most 1022 apart, that is when the quotient
    is below [2^1023]. *)
Theorem ratio_series_guarded {lib : Library} {lawful : Lawful lib}
    (df : DataFrame) (vertices : list Z) (ratios : list F64.t) :
  performance_ratio_series df = Ok (vertices, ratios) ->
  Permutation (combine vertices ratios) (contributions (groupby_Graph df)) /\
  (forall g p,
     In g (map Graph df) ->
     values0 (map Time_ms (select_algorithm "Prim" (group_of g df))) = Ok p ->
     F64.eqb p F64.zero = true ->
     group_ratio (group_of g df) = Ok None) /\
  (forall g p k v,
     In g (map Graph df) ->
     values0 (map Time_ms (select_algorithm "Prim" (group_of g df))) = Ok p ->
     values0 (map Time_ms (select_algorithm "Kruskal" (group_of g df))) = Ok k ->
     values0 (map Vertices (group_of g df)) = Ok v ->
     F64.ltb F64.zero p = true ->
     In (v, F64.div k p) (combine vertices ratios)) /\
  (forall ratio,
     In ratio ratios ->
     exists k p,
       In k (map Time_ms (select_algorithm "Kruskal" df)) /\
       In p (map Time_ms (select_algorithm "Prim" df)) /\
       F64.ltb F64.zero p = true /\
       ratio = F64.div k p /\
       (F64.isfinite k = true -> F64.isnan ratio = false) /\
       (F64.isfinite k = true -> F64.binade k - F64.binade p <= 1022 ->
        F64.isfinite ratio = true)).
Proof.
  intros H.
  assert (Hc : forall g, In g (groupby_Graph df) ->
                         group_ratio (snd g) <> Raise IndexError).
  { unfold performance_ratio_series in H.
    destruct (ratio_loop (groupby_Graph df) [] []) as [out|e] eqn:E; [|discriminate].
    now apply (ratio_loop_ok_inv _ _ _ _ E). }
  rewrite (performance_ratio_series_completes df Hc) in H.
  apply unzip_pairs_ok in H. destruct H as [-> ->].
  rewrite combine_fst_snd.
  split; [apply sorted_perm|]. split; [|split].
  - intros g p Hg Hp Hz.
    specialize (Hc (g, group_of g df) (proj2 (groupby_In _ _ _) (conj Hg eq_refl))).
    simpl in Hc. unfold group_ratio, rbind in *. rewrite Hp in *.
    destruct (values0 (map Time_ms (select_algorithm "Kruskal" (group_of g df))))
      as [k|e] eqn:Ek.
    + destruct (values0 (map Vertices (group_of g df))) as [v|e] eqn:Ev.
      * now rewrite (eqb_zero_not_positive p Hz).
      * apply values0_raise in Ev. subst. congruence.
    + apply values0_raise in Ek. subst. congruence.
  - intros g p k v Hg Hp Hk Hv Hpos.
    apply (Permutation_in _ (Permutation_sym (sorted_perm _))).
    apply contributions_In. exists (g, group_of g df). split.
    + now apply groupby_In.
    + simpl. rewrite (group_ratio_values _ p k v Hp Hk Hv). now rewrite Hpos.
  - intros ratio Hr. apply in_map_iff in Hr. destruct Hr as ([v r] & <- & Hr).
    apply (Permutation_in _ (sorted_perm _)) in Hr.
    apply contributions_In in Hr. destruct Hr as ([g group] & Hg & E).
    apply groupby_In in Hg. destruct Hg as [Hg ->]. simpl in E.
    apply group_ratio_some in E. destruct E as (p & k & Hp & Hk & _ & Hpos & ->).
    exists k, p. simpl. repeat split.
    + now apply (time_of_group_In "Kruskal" g).
    + now apply (time_of_group_In "Prim" g).
    + exact Hpos.
    + intros Hf. now apply F64Facts.div_finite_by_positive.
    + intros Hf Hb. now apply F64Facts.div_finite.
Qed.

Lemma ratio_series_guarded_witness :
  performance_ratio_series (lib := reference_library)
    (scenario_A 20 40 1 2 3 4) = Ok ([10; 20], [F64.lit_0_8; F64.lit_0_75]) /\
  Permutation (combine [10; 20] [F64.lit_0_8; F64.lit_0_75])
              (contributions (groupby_Graph (scenario_A 20 40 1 2 3 4))).
Proof.
  assert (E : performance_ratio_series (lib := reference_library)
                (scenario_A 20 40 1 2 3 4) =
              Ok ([10; 20], [F64.lit_0_8; F64.lit_0_75]))
    by (vm_compute; reflexivity).
  split; [exact E|].
  apply (ratio_series_guarded (lib := reference_library)
           (scenario_A 20 40 1 2 3 4) [10; 20] [F64.lit_0_8; F64.lit_0_75] E).
Defined.

(** Two finite positive times whose quotient overflows give an
    infinite ratio entry, and a missing Kruskal time gives a NaN entry,
    with every lawful library.  On scenario B the computation raises,
    so the graph with a positive Prim time contributes nothing. *)
Lemma ratio_entry_not_finite :
  F64.nonneg_real tiny_time = true /\ F64.nonneg_real huge_time = true /\
  F64.ltb F64.zero tiny_time = true /\
  forall lib : Library, Lawful lib ->
    performance_ratio_series overflowing_times = Ok ([10], [F64.inf]) /\
    performance_ratio_series missing_kruskal_time = Ok ([10], [F64.nan]) /\
    performance_ratio_series scenario_B = Raise IndexError.
Proof.
  split; [reflexivity|]. split; [reflexivity|]. split; [reflexivity|].
  intros lib lawful. split; [|split].
  - rewrite reference_series; [vm_compute; reflexivity|].
    apply ratios_are_numbers_dec. vm_compute. reflexivity.
  - unfold performance_ratio_series.
    assert (E : ratio_loop (groupby_Graph missing_kruskal_time) [] [] =
                Ok ([F64.nan], [10])) by (vm_compute; reflexivity).
    rewrite E. cbn [combine]. rewrite sorted_singleton. reflexivity.
  - rewrite reference_series; [vm_compute; reflexivity|].
    apply ratios_are_numbers_dec. vm_compute. reflexivity.
Qed.

(** ** Row order *)

Lemma filter_one_key {A B : Type} (f : A -> B) (keep : A -> bool) (c : B) l :
  NoDup (map f l) -> (forall x, keep x = true -> f x = c) ->
  (List.length (filter keep l) <= 1)%nat.
Proof.
  intros Hnd Hk. induction l as [|a l IH]; simpl; [lia|].
  inversion Hnd as [|? ? Ha Hnd']; subst.
  destruct (keep a) eqn:E; [|now apply IH].
  assert (Hnil : filter keep l = []).
  { destruct (filter keep l) as [|b bs] eqn:Eb; [reflexivity|].
    exfalso. apply Ha.
    assert (Hb : In b (filter keep l)) by (rewrite Eb; now left).
    apply filter_In in Hb. destruct Hb as [Hb Kb].
    rewrite (Hk a E), <- (Hk b Kb). now apply in_map. }
  rewrite Hnil. simpl. lia.
Qed.

Lemma perm_short {A : Type} (l l' : list A) :
  Permutation l l' -> (List.length l <= 1)%nat -> l = l'.
Proof.
  intros P H. destruct l as [|a [|b l]]; simpl in H; try lia.
  - apply Permutation_nil in P. now subst.
  - apply Permutation_length_1_inv in P. now subst.
Qed.

Lemma select_group_comm name g df :
  select_algorithm name (group_of g df) =
  filter (fun r => String.eqb (Graph r) g) (select_algorithm name df).
Proof.
  unfold select_algorithm, group_of.
  induction df as [|r df IH]; simpl; [reflexivity|].
  destruct (String.eqb (Graph r) g) eqn:Eg, (String.eqb (Algorithm r) name) eqn:Ea;
    simpl; rewrite ?Eg, ?Ea, IH; reflexivity.
Qed.

(** Within a frame that has one record per graph and algorithm and one
    vertex count per graph, the contribution of a group does not depend
    on the order of the rows. *)
Lemma group_ratio_row_order df df' g :
  Permutation df df' ->
  one_record_per_algorithm df -> consistent_vertices df ->
  group_ratio (group_of g df') = group_ratio (group_of g df).
Proof.
  intros P [Hp Hk] Hv.
  assert (Hsel : forall name,
             NoDup (map Graph (select_algorithm name df)) ->
             select_algorithm name (group_of g df') =
             select_algorithm name (group_of g df)).
  { intros name Hnd. symmetry. apply perm_short.
    - apply filter_perm, filter_perm, P.
    - rewrite select_group_comm.
      apply (filter_one_key Graph _ g); [exact Hnd|].
      intros x Hx. now apply String.eqb_eq. }
  unfold group_ratio. rewrite (Hsel "Prim"%string Hp), (Hsel "Kruskal"%string Hk).
  assert (Hfirst : values0 (map Vertices (group_of g df')) =
                   values0 (map Vertices (group_of g df))).
  { assert (Pg : Permutation (group_of g df) (group_of g df'))
      by (apply filter_perm, P).
    destruct (group_of g df) as [|r rs] eqn:E, (group_of g df') as [|r' rs'] eqn:E'.
    - reflexivity.
    - apply Permutation_nil in Pg. discriminate.
    - apply Permutation_sym, Permutation_nil in Pg. discriminate.
    - simpl. f_equal.
      assert (Hr : In r (group_of g df)) by (rewrite E; now left).
      assert (Hr' : In r' (group_of g df')) by (rewrite E'; now left).
      apply group_of_incl in Hr, Hr'. destruct Hr as [Hr Gr], Hr' as [Hr' Gr'].
      apply Hv; auto.
      + apply (Permutation_in _ (Permutation_sym P)), Hr'.
      + congruence. }
  now rewrite Hfirst.
Qed.

Lemma ratio_loop_ext keys (f f' : string -> DataFrame) :
  (forall g, In g keys -> group_ratio (f' g) = group_ratio (f g)) ->
  forall ratios vertices,
    ratio_loop (map (fun g => (g, f' g)) keys) ratios vertices =
    ratio_loop (map (fun g => (g, f g)) keys) ratios vertices.
Proof.
  induction keys as [|g keys IH]; intros H ratios vertices; simpl; [reflexivity|].
  rewrite (H g (or_introl eq_refl)).
  destruct (group_ratio (f g)) as [[[v ratio]|]|e]; auto;
    apply IH; intros g' Hg'; apply H; now right.
Qed.

Lemma performance_ratio_series_row_order {lib : Library} df df' :
  Permutation df df' ->
  one_record_per_algorithm df -> consistent_vertices df ->
  performance_ratio_series df' = performance_ratio_series df.
Proof.
  intros P H1 H2. unfold performance_ratio_series, groupby_Graph.
  rewrite <- (group_keys_perm df df' P).
  rewrite (ratio_loop_ext (group_keys df) (fun g => group_of g df)
             (fun g => group_of g df')).
  - reflexivity.
  - intros g _. now apply group_ratio_row_order.
Qed.

(** C8, as amended: every line series and the ratio bars are in
    ascending order of [Vertices] whatever the row order of the file.
    Permuting the rows leaves the line series of an algorithm unchanged
    when no two of its records share a vertex count, and leaves the
    ratio series unchanged when every graph has at most one record per
    algorithm and a single vertex count. *)
Theorem series_sorted_by_vertices {lib : Library} {lawful : Lawful lib}
    {world : World} (df df' : DataFrame) :
  Permutation df df' ->
  (forall name,
     StronglySorted Z.le
       (map Vertices (sort_values_Vertices (select_algorithm name df'))) /\
     forall Y (y : BenchmarkRecord -> Y),
       map fst (line_series y (sort_values_Vertices (select_algorithm name df'))) =
       map Vertices (sort_values_Vertices (select_algorithm name df'))) /\
  (forall vertices ratios,
     performance_ratio_series df' = Ok (vertices, ratios) ->
     StronglySorted Z.le vertices) /\
  (forall name,
     NoDup (map Vertices (select_algorithm name df)) ->
     sort_values_Vertices (select_algorithm name df') =
     sort_values_Vertices (select_algorithm name df)) /\
  (NoDup (map Vertices (select_algorithm "Prim" df)) ->
   NoDup (map Vertices (select_algorithm "Kruskal" df)) ->
   forall output_dir,
     plot_execution_time_comparison df' output_dir =
     plot_execution_time_comparison df output_dir) /\
  (one_record_per_algorithm df -> consistent_vertices df ->
   performance_ratio_series df' = performance_ratio_series df /\
   forall output_dir,
     plot_performance_ratio df' output_dir = plot_performance_ratio df output_dir).
Proof.
  intros P. split; [|split; [|split; [|split]]].
  - intros name. split.
    + apply sorted_keys, sort_values_sorted.
    + intros Y y. unfold line_series. rewrite map_map. reflexivity.
  - intros vertices ratios H. unfold performance_ratio_series in H.
    destruct (ratio_loop (groupby_Graph df') [] []) as [[rs vs]|e]; [|discriminate].
    apply unzip_pairs_ok in H. destruct H as [-> _].
    apply sorted_ascending.
  - intros name Hnd. apply sort_values_row_order; [|exact Hnd].
    apply filter_perm, P.
  - intros Hp Hk output_dir. unfold plot_execution_time_comparison.
    rewrite (sort_values_row_order (select_algorithm "Prim" df)
               (select_algorithm "Prim" df') (filter_perm _ _ _ P) Hp).
    rewrite (sort_values_row_order (select_algorithm "Kruskal" df)
               (select_algorithm "Kruskal" df') (filter_perm _ _ _ P) Hk).
    reflexivity.
  - intros H1 H2.
    assert (E := performance_ratio_series_row_order df df' P H1 H2).
    split; [exact E|]. intros output_dir.
    unfold plot_performance_ratio. now rewrite E.
Qed.

Lemma series_sorted_by_vertices_witness :
  performance_ratio_series (lib := reference_library)
    (rev (scenario_A 20 40 1 2 3 4)) =
  performance_ratio_series (lib := reference_library)
    (scenario_A 20 40 1 2 3 4) /\
  plot_execution_time_comparison (lib := reference_library)
    (world := ideal_world []) (rev (scenario_A 20 40 1 2 3 4)) "docs/plots" =
  plot_execution_time_comparison (lib := reference_library)
    (world := ideal_world []) (scenario_A 20 40 1 2 3 4) "docs/plots".
Proof.
  pose proof (series_sorted_by_vertices (lib := reference_library)
                (world := ideal_world []) (scenario_A 20 40 1 2 3 4)
                (rev (scenario_A 20 40 1 2 3 4)) (Permutation_rev _))
    as (_ & _ & _ & Hlines & Hratio).
  split.
  - apply Hratio.
    + split; simpl; repeat constructor; simpl; intuition discriminate.
    + intros r1 r2 H1 H2. simpl in H1, H2.
      destruct H1 as [<-|[<-|[<-|[<-|[]]]]], H2 as [<-|[<-|[<-|[<-|[]]]]];
        simpl; intros E; try reflexivity; discriminate E.
  - apply Hlines; simpl; repeat constructor; simpl; intuition discriminate.
Defined.

(** Positions of two equal keys: either order. *)
Lemma argsort_two_equal {lib : Library} {lawful : Lawful lib} (k : Z) :
  argsort [k; k] = [0; 1]%nat \/ argsort [k; k] = [1; 0]%nat.
Proof.
  pose proof (argsort_perm [k; k]) as P. cbn [List.length seq] in P.
  apply Permutation_sym, Permutation_length_2_inv in P. tauto.
Qed.

(** Two graphs with the same vertex count: with every lawful library
    the Prim line of the permuted file is the Prim line of the file
    with its two points exchanged, so the plotted series differ; with
    a stable sort each line follows the row order of its file. *)
Lemma tied_vertices_follow_row_order :
  Permutation tied_vertices tied_vertices_swapped /\
  map Time_ms (sort_values_Vertices (lib := reference_library)
                 (select_algorithm "Prim" tied_vertices)) =
    [F64.of_int 5; F64.of_int 7] /\
  map Time_ms (sort_values_Vertices (lib := reference_library)
                 (select_algorithm "Prim" tied_vertices_swapped)) =
    [F64.of_int 7; F64.of_int 5] /\
  (forall lib : Library, Lawful lib ->
     map Time_ms (sort_values_Vertices
                    (select_algorithm "Prim" tied_vertices_swapped)) =
     rev (map Time_ms (sort_values_Vertices
                         (select_algorithm "Prim" tied_vertices))) /\
     line_series Time_ms
       (sort_values_Vertices (select_algorithm "Prim" tied_vertices_swapped)) <>
     line_series Time_ms
       (sort_values_Vertices (select_algorithm "Prim" tied_vertices)) /\
     plot_execution_time_comparison (world := ideal_world tied_vertices)
       tied_vertices "docs/plots" <>
     plot_execution_time_comparison (world := ideal_world tied_vertices)
       tied_vertices_swapped "docs/plots").
Proof.
  split.
  { unfold tied_vertices, tied_vertices_swapped.
    apply (Permutation_app_comm [_; _] [_; _]). }
  split; [reflexivity|]. split; [reflexivity|].
  intros lib lawful.
  assert (S1 : sort_values_Vertices (select_algorithm "Prim" tied_vertices) =
               take (argsort [10; 10]) (select_algorithm "Prim" tied_vertices))
    by reflexivity.
  assert (S2 : sort_values_Vertices
                 (select_algorithm "Prim" tied_vertices_swapped) =
               take (argsort [10; 10])
                 (select_algorithm "Prim" tied_vertices_swapped))
    by reflexivity.
  assert (K1 : sort_values_Vertices (select_algorithm "Kruskal" tied_vertices) =
               take (argsort [10; 10])
                 (select_algorithm "Kruskal" tied_vertices))
    by reflexivity.
  assert (K2 : sort_values_Vertices
                 (select_algorithm "Kruskal" tied_vertices_swapped) =
               take (argsort [10; 10])
                 (select_algorithm "Kruskal" tied_vertices_swapped))
    by reflexivity.
  unfold plot_execution_time_comparison.
  rewrite S1, S2, K1, K2.
  destruct (argsort_two_equal 10) as [-> | ->].
  - split; [reflexivity|]. split.
    + intros H. vm_compute in H. discriminate H.
    + intros H. vm_compute in H. discriminate H.
  - split; [reflexivity|]. split.
    + intros H. vm_compute in H. discriminate H.
    + intros H. vm_compute in H. discriminate H.
Qed.

(** ** The summary writer *)

Lemma paired_times_numbers df :
  Forall (fun r => F64.nonneg_real (Time_ms r) = true) df ->
  Forall (fun p => F64.isnan (fst p) = false /\ F64.isnan (snd p) = false)
    (paired_times df).
Proof.
  intros F. rewrite Forall_forall in F. apply Forall_forall.
  intros [a b] Hin. unfold paired_times in Hin.
  assert (N : forall name t, In t (map Time_ms (select_algorithm name df)) ->
                             F64.isnan t = false).
  { intros name t Ht. apply in_map_iff in Ht. destruct Ht as (r & <- & Hr).
    apply filter_In in Hr. destruct Hr as [Hr _]. specialize (F r Hr).
    destruct (Time_ms r); [reflexivity | reflexivity | discriminate F | reflexivity]. }
  split; cbn [fst snd].
  - apply (N "Prim"%string). exact (in_combine_l _ _ _ _ Hin).
  - apply (N "Kruskal"%string). exact (in_combine_r _ _ _ _ Hin).
Qed.

(** C6: with equally many Prim and Kruskal records the two win counts
    are computed, [prim_wins + kruskal_wins + ties] is at most the
    number of graphs, and [prim_wins + kruskal_wins] equals it when no
    paired times are exactly equal and the times are numbers, in
    particular when they are the non-negative reals of the data
    model.  On a frame with rows
    these are the counts of the summary.  On scenario A the counts are
    0 and 2 for two graphs; on one graph with equal times they are 0
    and 0 with one tie. *)
Theorem win_counts_bounded :
  (forall df,
     List.length (select_algorithm "Prim" df) =
     List.length (select_algorithm "Kruskal" df) ->
     exists wins,
       win_counts df = Ok wins /\
       (fst wins + snd wins + ties df <= prim_count df)%nat /\
       (Forall (fun p => F64.isnan (fst p) = false /\ F64.isnan (snd p) = false)
          (paired_times df) ->
        (fst wins + snd wins + ties df = prim_count df)%nat /\
        (ties df = 0%nat -> (fst wins + snd wins = prim_count df)%nat)) /\
       (Forall (fun r => F64.nonneg_real (Time_ms r) = true) df ->
        ties df = 0%nat -> (fst wins + snd wins = prim_count df)%nat) /\
       (df <> [] ->
        exists s,
          summary_statistics df = Ok s /\
          prim_wins s = fst wins /\ kruskal_wins s = snd wins /\
          prim_total s = prim_count df /\ kruskal_total s = prim_count df)) /\
  (forall e1 e2 o1 o2 o3 o4,
     win_counts (scenario_A e1 e2 o1 o2 o3 o4) = Ok (0, 2)%nat /\
     ties (scenario_A e1 e2 o1 o2 o3 o4) = 0%nat /\
     prim_count (scenario_A e1 e2 o1 o2 o3 o4) = 2%nat) /\
  (win_counts tied_times = Ok (0, 0)%nat /\ ties tied_times = 1%nat /\
   prim_count tied_times = 1%nat).
Proof.
  split; [|split].
  - intros df H. eexists. split; [apply win_counts_same_length, H|].
    cbn [fst snd].
    assert (L : List.length (paired_times df) = prim_count df).
    { unfold paired_times, prim_count.
      rewrite length_combine, !length_map, <- H. apply Nat.min_id. }
    destruct (win_count_sum (paired_times df)) as [W1 W2].
    unfold ties. rewrite <- L. split; [exact W1|]. split; [|split].
    + intros F. specialize (W2 F). split; [exact W2 | lia].
    + intros F T. apply paired_times_numbers in F. specialize (W2 F). lia.
    + intros Hne.
      assert (Hc : shapes_compatible (prim_count df) (kruskal_count df) = true).
      { unfold shapes_compatible, prim_count, kruskal_count.
        now rewrite H, Nat.eqb_refl. }
      destruct (proj1 (summary_statistics_cases df Hne) Hc) as (s & Es).
      exists s. split; [exact Es|].
      destruct (summary_statistics_inv df s Es) as (_ & Ew & _ & Tp & Tk).
      rewrite (win_counts_same_length df H) in Ew. injection Ew as E1 E2.
      rewrite L. unfold kruskal_count in Tk. unfold prim_count at 2.
      rewrite H. auto.
  - intros e1 e2 o1 o2 o3 o4. split; [|split]; vm_compute; reflexivity.
  - split; [|split]; vm_compute; reflexivity.
Qed.

Lemma win_counts_bounded_witness :
  exists wins,
    win_counts (scenario_A 20 40 1 2 3 4) = Ok wins /\
    (fst wins + snd wins + ties (scenario_A 20 40 1 2 3 4) <=
       prim_count (scenario_A 20 40 1 2 3 4))%nat.
Proof.
  destruct (proj1 win_counts_bounded (scenario_A 20 40 1 2 3 4) eq_refl)
    as (wins & E & B & _).
  exists wins. split; [exact E | exact B].
Defined.

(** *** Pairing by row order *)

Lemma paired_times_records df :
  paired_times df =
  map (fun pk => (Time_ms (fst pk), Time_ms (snd pk)))
      (combine (select_algorithm "Prim" df) (select_algorithm "Kruskal" df)).
Proof.
  unfold paired_times.
  generalize (select_algorithm "Prim" df) (select_algorithm "Kruskal" df).
  intros P. induction P as [|p P IH]; intros [|k K]; simpl; try reflexivity.
  now rewrite IH.
Qed.

Lemma count_true_positive {A : Type} (f : A -> bool) l x :
  In x l -> f x = true -> (1 <= count_true (map f l))%nat.
Proof.
  induction l as [|a l IH]; simpl; [contradiction|].
  intros [->|H] E; rewrite count_true_cons.
  - rewrite E. simpl. lia.
  - specialize (IH H E). lia.
Qed.

Lemma count_true_none {A : Type} (f : A -> bool) l :
  (forall x, In x l -> f x = false) -> count_true (map f l) = 0%nat.
Proof.
  induction l as [|a l IH]; simpl; intros H; [reflexivity|].
  rewrite count_true_cons, (H a (or_introl eq_refl)), IH; auto.
Qed.

Lemma find_unique (g : string) (k : BenchmarkRecord) (l : DataFrame) :
  NoDup (map Graph l) -> In k l -> Graph k = g ->
  find (fun k' => String.eqb (Graph k') g) l = Some k.
Proof.
  induction l as [|a l IH]; simpl; [contradiction|].
  intros Hnd Hk Hg. inversion Hnd as [|? ? Ha Hnd']; subst.
  destruct Hk as [->|Hk].
  - now rewrite String.eqb_refl.
  - destruct (String.eqb (Graph a) (Graph k)) eqn:E.
    + apply String.eqb_eq in E. exfalso. apply Ha. rewrite E. now apply in_map.
    + now apply IH.
Qed.

Lemma aligned_pairs (P K : DataFrame) :
  map Graph P = map Graph K ->
  forall p k, In (p, k) (combine P K) -> Graph p = Graph k.
Proof.
  revert K. induction P as [|a P IH]; intros [|b K] H p k Hin; simpl in *;
    try contradiction; try discriminate.
  injection H as H1 H2. destruct Hin as [E|Hin].
  - now inversion E; subst.
  - now apply (IH K).
Qed.

(** When both sub-frames list the graphs in the same order, pairing by
    position is the join on [Graph]. *)
Lemma joined_wins_aligned faster df :
  map Graph (select_algorithm "Prim" df) = map Graph (select_algorithm "Kruskal" df) ->
  NoDup (map Graph (select_algorithm "Kruskal" df)) ->
  joined_wins faster df =
  count_true (map (fun p => faster (fst p) (snd p)) (paired_times df)).
Proof.
  intros Hal Hnd. unfold joined_wins. rewrite paired_times_records, map_map.
  set (P := select_algorithm "Prim" df) in *.
  set (K := select_algorithm "Kruskal" df) in *.
  assert (L : List.length P = List.length K).
  { rewrite <- (length_map Graph P), Hal. apply length_map. }
  rewrite <- (map_fst_combine P K L) at 1. rewrite map_map.
  f_equal. apply map_ext_in. intros [p k] Hin. simpl.
  unfold kruskal_time_of.
  rewrite (find_unique (Graph p) k K Hnd).
  - reflexivity.
  - eapply in_combine_r, Hin.
  - symmetry. now apply (aligned_pairs P K Hal).
Qed.

Lemma first_mismatch (xs : list string) : forall ys,
  List.length xs = List.length ys -> xs <> ys ->
  exists x y, In (x, y) (combine xs ys) /\ x <> y.
Proof.
  induction xs as [|x xs IH]; intros [|y ys] L N; simpl in *; try discriminate.
  - congruence.
  - injection L as L. destruct (string_dec x y) as [->|Hxy].
    + destruct (IH ys L) as (a & b & Hin & Hab).
      * intros ->. now apply N.
      * exists a, b. auto.
    + exists x, y. auto.
Qed.

Lemma combine_map_In {A B : Type} (f : A -> B) (P K : list A) a b :
  In (a, b) (combine (map f P) (map f K)) ->
  exists p k, In (p, k) (combine P K) /\ f p = a /\ f k = b.
Proof.
  revert K. induction P as [|p P IH]; intros [|k K]; simpl; try contradiction.
  intros [E|H].
  - inversion E; subst. exists p, k. auto.
  - destruct (IH K H) as (p' & k' & Hin & E1 & E2). exists p', k'. auto.
Qed.

Lemma same_layout_select name df : forall df',
  same_layout df df' ->
  map Graph (select_algorithm name df') = map Graph (select_algorithm name df).
Proof.
  unfold same_layout, select_algorithm.
  induction df as [|r df IH]; intros [|r' df'] H; simpl in *; try discriminate;
    try reflexivity.
  injection H as Hg Ha Hrest. rewrite <- Ha.
  destruct (String.eqb (Algorithm r) name); simpl; rewrite (IH df' Hrest);
    congruence.
Qed.

Lemma exposing_times_layout a b df :
  same_layout df (map (exposing_times a b) df).
Proof.
  unfold same_layout. rewrite map_map. apply map_ext. intros r.
  unfold exposing_times. destruct (String.eqb (Algorithm r) "Prim"); reflexivity.
Qed.

Lemma exposing_times_select a b name df :
  select_algorithm name (map (exposing_times a b) df) =
  map (exposing_times a b) (select_algorithm name df).
Proof.
  unfold select_algorithm. induction df as [|r df IH]; simpl; [reflexivity|].
  assert (E : Algorithm (exposing_times a b r) = Algorithm r).
  { unfold exposing_times. destruct (String.eqb (Algorithm r) "Prim"); reflexivity. }
  rewrite E. destruct (String.eqb (Algorithm r) name); simpl; now rewrite IH.
Qed.

Lemma exposing_times_graph a b r : Graph (exposing_times a b r) = Graph r.
Proof.
  unfold exposing_times. destruct (String.eqb (Algorithm r) "Prim"); reflexivity.
Qed.

Lemma exposing_times_prim a b r :
  Algorithm r = "Prim"%string ->
  Time_ms (exposing_times a b r) =
  if String.eqb (Graph r) a then F64.of_int 1 else F64.of_int 5.
Proof. unfold exposing_times. intros ->. reflexivity. Qed.

Lemma exposing_times_kruskal a b r :
  Algorithm r = "Kruskal"%string ->
  Time_ms (exposing_times a b r) =
  if String.eqb (Graph r) b then F64.of_int 3 else F64.of_int 0.
Proof. unfold exposing_times. intros ->. reflexivity. Qed.

Lemma combine_map_both {A B : Type} (f : A -> B) (P K : list A) p k :
  In (p, k) (combine P K) -> In (f p, f k) (combine (map f P) (map f K)).
Proof.
  revert K. induction P as [|a P IH]; intros [|b K]; simpl; try contradiction.
  intros [E|H]; [inversion E; subst; now left | right; now apply IH].
Qed.

(** Measurements on which a pairing of two different graphs shows: the
    positional count has a Prim win, the join has none. *)
Lemma mismatch_exposed df a b p k :
  In (p, k) (combine (select_algorithm "Prim" df) (select_algorithm "Kruskal" df)) ->
  Graph p = a -> Graph k = b -> a <> b ->
  (1 <= count_true (map (fun t => F64.ltb (fst t) (snd t))
                      (paired_times (map (exposing_times a b) df))))%nat /\
  per_graph_prim_wins (map (exposing_times a b) df) = 0%nat.
Proof.
  intros Hin Ha Hb Hab. split.
  - apply (count_true_positive _ _
             (Time_ms (exposing_times a b p), Time_ms (exposing_times a b k))).
    + rewrite paired_times_records, !exposing_times_select.
      apply (in_map (fun pk => (Time_ms (fst pk), Time_ms (snd pk)))
               _ (exposing_times a b p, exposing_times a b k)).
      now apply combine_map_both.
    + simpl.
      assert (Hp : Algorithm p = "Prim"%string)
        by (apply in_combine_l in Hin; now apply select_algorithm_In in Hin).
      assert (Hk : Algorithm k = "Kruskal"%string)
        by (apply in_combine_r in Hin; now apply select_algorithm_In in Hin).
      rewrite (exposing_times_prim a b p Hp), (exposing_times_kruskal a b k Hk).
      rewrite Ha, Hb, !String.eqb_refl. reflexivity.
  - unfold per_graph_prim_wins, joined_wins. apply count_true_none.
    intros p' Hp'. unfold kruskal_time_of.
    destruct (find _ _) as [k'|] eqn:Ef; simpl; [|reflexivity].
    apply find_some in Ef. destruct Ef as [Hk' Eg]. apply String.eqb_eq in Eg.
    rewrite exposing_times_select in Hp', Hk'.
    apply in_map_iff in Hp', Hk'.
    destruct Hp' as (p0 & <- & Hp0), Hk' as (k0 & <- & Hk0).
    apply select_algorithm_In in Hp0, Hk0.
    rewrite !exposing_times_graph in Eg.
    rewrite (exposing_times_prim a b p0 (proj2 Hp0)).
    rewrite (exposing_times_kruskal a b k0 (proj2 Hk0)).
    rewrite Eg.
    destruct (String.eqb (Graph p0) a) eqn:E1, (String.eqb (Graph p0) b) eqn:E2;
      try reflexivity.
    apply String.eqb_eq in E1, E2. congruence.
Qed.

Lemma same_layout_length name df df' :
  same_layout df df' ->
  List.length (select_algorithm name df') = List.length (select_algorithm name df).
Proof.
  intros H. rewrite <- (length_map Graph (select_algorithm name df')).
  rewrite (same_layout_select name df df' H). apply length_map.
Qed.

(** C9, as amended: the win counts compare the two time arrays
    position by position, in the row order of the two sub-frames.
    For a frame with equally many Prim and Kruskal records and one
    Kruskal record per graph, they are the per-graph counts (the join
    on [Graph]) when both sub-frames list the graphs in the same
    order, and the orders are the same exactly when the counts are the
    per-graph counts for all measurements.  On [crossed_order], whose
    sub-frames list the graphs in opposite orders, the counts are one
    win each while Kruskal is faster on both graphs. *)
Theorem win_counts_paired_by_row_order :
  (forall df,
     List.length (select_algorithm "Prim" df) =
     List.length (select_algorithm "Kruskal" df) ->
     win_counts df =
       Ok (count_true
             (map (fun pk => F64.ltb (Time_ms (fst pk)) (Time_ms (snd pk)))
                (combine (select_algorithm "Prim" df)
                         (select_algorithm "Kruskal" df))),
           count_true
             (map (fun pk => F64.ltb (Time_ms (snd pk)) (Time_ms (fst pk)))
                (combine (select_algorithm "Prim" df)
                         (select_algorithm "Kruskal" df))))) /\
  (forall df s,
     summary_statistics df = Ok s ->
     win_counts df = Ok (prim_wins s, kruskal_wins s)) /\
  (forall df,
     List.length (select_algorithm "Prim" df) =
     List.length (select_algorithm "Kruskal" df) ->
     NoDup (map Graph (select_algorithm "Kruskal" df)) ->
     (map Graph (select_algorithm "Prim" df) =
      map Graph (select_algorithm "Kruskal" df) ->
      win_counts df =
        Ok (per_graph_prim_wins df, per_graph_kruskal_wins df)) /\
     (map Graph (select_algorithm "Prim" df) =
      map Graph (select_algorithm "Kruskal" df) <->
      forall df',
        same_layout df df' ->
        win_counts df' =
          Ok (per_graph_prim_wins df', per_graph_kruskal_wins df'))) /\
  (map Graph (select_algorithm "Prim" crossed_order) = ["graph_1"; "graph_2"]%string /\
   map Graph (select_algorithm "Kruskal" crossed_order) = ["graph_2"; "graph_1"]%string /\
   win_counts crossed_order = Ok (1, 1)%nat /\
   per_graph_prim_wins crossed_order = 0%nat /\
   per_graph_kruskal_wins crossed_order = 2%nat).
Proof.
  assert (Aligned : forall df,
             List.length (select_algorithm "Prim" df) =
             List.length (select_algorithm "Kruskal" df) ->
             NoDup (map Graph (select_algorithm "Kruskal" df)) ->
             map Graph (select_algorithm "Prim" df) =
             map Graph (select_algorithm "Kruskal" df) ->
             win_counts df =
               Ok (per_graph_prim_wins df, per_graph_kruskal_wins df)).
  { intros df L Hnd Hal. rewrite (win_counts_same_length df L).
    unfold per_graph_prim_wins, per_graph_kruskal_wins.
    now rewrite !(joined_wins_aligned _ df Hal Hnd). }
  split; [|split; [|split]].
  - intros df L. rewrite (win_counts_same_length df L).
    rewrite paired_times_records, !map_map. reflexivity.
  - intros df s Hs. apply (summary_statistics_inv df s Hs).
  - intros df L Hnd. split; [now apply Aligned|]. split.
    + intros Hal df' Hlay. apply Aligned.
      * now rewrite !(same_layout_length _ df df' Hlay).
      * now rewrite (same_layout_select _ df df' Hlay).
      * now rewrite !(same_layout_select _ df df' Hlay).
    + intros H.
      destruct (list_eq_dec string_dec
                  (map Graph (select_algorithm "Prim" df))
                  (map Graph (select_algorithm "Kruskal" df))) as [E|N];
        [exact E|]. exfalso.
      assert (Lg : List.length (map Graph (select_algorithm "Prim" df)) =
                   List.length (map Graph (select_algorithm "Kruskal" df)))
        by (rewrite !length_map; exact L).
      destruct (first_mismatch _ _ Lg N) as (a & b & Hin & Hab).
      apply combine_map_In in Hin. destruct Hin as (p & k & Hin & Ha & Hb).
      destruct (mismatch_exposed df a b p k Hin Ha Hb Hab) as [Hpos Hjoin].
      pose proof (H _ (exposing_times_layout a b df)) as Hw.
      rewrite win_counts_same_length in Hw.
      * injection Hw as Hw _. rewrite Hjoin in Hw. lia.
      * rewrite !exposing_times_select, !length_map. exact L.
  - split; [reflexivity|]. split; [reflexivity|].
    split; [|split]; vm_compute; reflexivity.
Qed.

Lemma win_counts_paired_by_row_order_witness :
  win_counts (scenario_A 20 40 1 2 3 4) =
    Ok (per_graph_prim_wins (scenario_A 20 40 1 2 3 4),
        per_graph_kruskal_wins (scenario_A 20 40 1 2 3 4)).
Proof.
  destruct win_counts_paired_by_row_order as (_ & _ & H & _).
  destruct (H (scenario_A 20 40 1 2 3 4) eq_refl) as [Ha _].
  - simpl. repeat constructor; simpl; intuition discriminate.
  - apply Ha. reflexivity.
Defined.

(** The two sub-frames of [crossed_lucky] list the graphs in opposite
    orders, and yet its win counts are the per-graph counts: Prim is
    faster than every Kruskal run.  The order of the graphs decides
    for all measurements, not for each one. *)
Lemma crossed_lucky_counts_agree :
  List.length (select_algorithm "Prim" crossed_lucky) =
  List.length (select_algorithm "Kruskal" crossed_lucky) /\
  NoDup (map Graph (select_algorithm "Kruskal" crossed_lucky)) /\
  map Graph (select_algorithm "Prim" crossed_lucky) <>
  map Graph (select_algorithm "Kruskal" crossed_lucky) /\
  win_counts crossed_lucky = Ok (2, 0)%nat /\
  per_graph_prim_wins crossed_lucky = 2%nat /\
  per_graph_kruskal_wins crossed_lucky = 0%nat /\
  summary_statistics crossed_lucky =
    Ok {| prim_total := 2; kruskal_total := 2; prim_wins := 2;
          kruskal_wins := 0; costs_match := false |}.
Proof.
  split; [reflexivity|].
  split; [simpl; repeat constructor; simpl; intuition discriminate|].
  split; [discriminate|].
  split; [|split; [|split]]; vm_compute; reflexivity.
Qed.

(** ** The cost check *)

Lemma reference_verdict {lib : Library} {lawful : Lawful lib} df :
  distinct_vertices df ->
  cost_verification_verdict df =
    cost_verification_verdict (lib := reference_library) df.
Proof.
  intros [Hp Hk]. unfold cost_verification_verdict.
  now rewrite (reference_sort _ Hp), (reference_sort _ Hk).
Qed.

(** C5, as amended: on a frame with at least one row the cost check
    of both reports is [numpy.allclose] with its default tolerances.
    On finite costs a pair is close when
    [abs(x - y) <= 1e-08 + 1e-05 * abs(y)], which holds for some pairs
    that are not equal.  In the verification report the two cost
    arrays are those of the Prim rows and of the Kruskal rows, each in
    ascending order of [Vertices]; in the summary they are taken in
    file order.  In both, arrays that are equal entry by entry give
    the verdict "match" and a pair that is not close gives the verdict
    "differ".  On [crossed_order] the report, which sorts, says
    "match" and the summary, which does not, says "differ".  On a file
    without rows both checks raise [TypeError]. *)
Theorem cost_check_is_tolerance_based {lib : Library} {lawful : Lawful lib} :
  (forall x y,
     F64.isfinite x = true -> F64.isfinite y = true ->
     isclose x y =
       F64.leb (F64.abs (F64.sub x y))
               (F64.add F64.lit_1e_8 (F64.mul F64.lit_1e_5 (F64.abs y)))) /\
  F64.nearest_to F64.lit_1e_8 1 100000000 /\
  F64.nearest_to F64.lit_1e_5 1 100000 /\
  (exists x y, F64.eqb x y = false /\ isclose x y = true) /\
  (forall xs, Forall (fun x => F64.isnan x = false) xs -> allclose xs xs = Ok true) /\
  (forall df,
     df <> [] ->
     let prim_data := sort_values_Vertices (select_algorithm "Prim" df) in
     let kruskal_data := sort_values_Vertices (select_algorithm "Kruskal" df) in
     Permutation prim_data (select_algorithm "Prim" df) /\
     Permutation kruskal_data (select_algorithm "Kruskal" df) /\
     StronglySorted Z.le (map Vertices prim_data) /\
     StronglySorted Z.le (map Vertices kruskal_data) /\
     cost_verification_verdict df =
       allclose (map MST_Cost prim_data) (map MST_Cost kruskal_data) /\
     (Forall2 (fun x y => F64.eqb x y = true)
        (map MST_Cost prim_data) (map MST_Cost kruskal_data) ->
      cost_verification_verdict df = Ok true) /\
     (List.length prim_data = List.length kruskal_data ->
      (exists x y, In (x, y) (combine (map MST_Cost prim_data)
                                (map MST_Cost kruskal_data)) /\
                   isclose x y = false) ->
      cost_verification_verdict df = Ok false)) /\
  (forall df s,
     summary_statistics df = Ok s ->
     let prim_costs := map MST_Cost (select_algorithm "Prim" df) in
     let kruskal_costs := map MST_Cost (select_algorithm "Kruskal" df) in
     df <> [] /\
     allclose prim_costs kruskal_costs = Ok (costs_match s) /\
     (Forall2 (fun x y => F64.eqb x y = true) prim_costs kruskal_costs ->
      costs_match s = true) /\
     (List.length prim_costs = List.length kruskal_costs ->
      (exists x y, In (x, y) (combine prim_costs kruskal_costs) /\
                   isclose x y = false) ->
      costs_match s = false)) /\
  (cost_verification_verdict crossed_order = Ok true /\
   exists s, summary_statistics crossed_order = Ok s /\ costs_match s = false) /\
  (cost_verification_verdict [] = Raise TypeError /\
   summary_statistics [] = Raise TypeError).
Proof.
  split; [|split; [|split; [|split; [|split; [|split; [|split; [|split]]]]]]].
  - intros x y Hx Hy. unfold isclose. rewrite Hx, Hy. reflexivity.
  - unfold F64.nearest_to, F64.lit_1e_8.
    split; [split; [vm_compute; discriminate | reflexivity]|].
    split; [reflexivity|]. split; [reflexivity|]. vm_compute. discriminate.
  - unfold F64.nearest_to, F64.lit_1e_5.
    split; [split; [vm_compute; discriminate | reflexivity]|].
    split; [reflexivity|]. split; [reflexivity|]. vm_compute. discriminate.
  - exists F64.one, (S754_finite false 4503599627370497 (-52)).
    split; vm_compute; reflexivity.
  - intros xs H. apply allclose_identical.
    induction H as [|x xs Hx _ IH]; constructor; auto.
    now apply eqb_refl_number.
  - intros df Hne prim_data kruskal_data.
    split; [apply sort_values_perm|]. split; [apply sort_values_perm|].
    split; [apply sorted_keys, sort_values_sorted|].
    split; [apply sorted_keys, sort_values_sorted|].
    rewrite (cost_verification_verdict_rows df Hne).
    fold prim_data kruskal_data.
    split; [reflexivity|]. split.
    + intros H. now apply allclose_identical.
    + intros L (x & y & Hin & Hc). apply (allclose_differ _ _ x y); auto.
      now rewrite !length_map.
  - intros df s Hs prim_costs kruskal_costs.
    destruct (summary_statistics_inv df s Hs) as (Hne & _ & Hv & _).
    fold prim_costs kruskal_costs in Hv. split; [exact Hne|].
    split; [exact Hv|]. split.
    + intros H. rewrite (allclose_identical _ _ H) in Hv. congruence.
    + intros L (x & y & Hin & Hc).
      rewrite (allclose_differ _ _ x y L Hin Hc) in Hv. congruence.
  - split.
    + rewrite reference_verdict; [vm_compute; reflexivity|].
      apply distinct_vertices_dec. vm_compute. reflexivity.
    + eexists. split; vm_compute; reflexivity.
  - split; reflexivity.
Qed.

Lemma cost_check_is_tolerance_based_witness :
  cost_verification_verdict (lib := reference_library)
    (scenario_A 20 40 1 2 3 4) = Ok true /\
  cost_verification_verdict (lib := reference_library) crossed_order = Ok true.
Proof.
  destruct (cost_check_is_tolerance_based (lib := reference_library))
    as (_ & _ & _ & _ & _ & Hplot & _ & (Hcrossed & _) & _).
  split; [|exact Hcrossed].
  apply (Hplot (scenario_A 20 40 1 2 3 4)); [discriminate|].
  repeat constructor.
Defined.

(** A file with a header and no rows: the two cost sequences are both
    empty, hence identical, and [allclose] on them would say "match";
    but the columns of the frame have dtype [object], and with every
    library both checks raise [TypeError], so no verdict is given.
    When all output succeeds the run stops in the third generator,
    after two artifacts. *)
Lemma empty_frame_has_no_verdict :
  map MST_Cost (select_algorithm "Prim" []) =
  map MST_Cost (select_algorithm "Kruskal" []) /\
  allclose (map MST_Cost (select_algorithm "Prim" []))
           (map MST_Cost (select_algorithm "Kruskal" [])) = Ok true /\
  summary_statistics [] = Raise TypeError /\
  forall lib : Library,
    cost_verification_verdict [] = Raise TypeError /\
    (forall world : World, forall output_dir,
       plot_mst_cost_verification [] output_dir = ([], Raise TypeError) /\
       generate_summary_statistics [] output_dir = ([], Raise TypeError)) /\
    (Lawful lib ->
     artifacts (fst (main (world := ideal_world []) default_args)) =
       ["docs/plots/execution_time_comparison.png";
        "docs/plots/operations_comparison.png"]%string /\
     In (Print (ErrorGenerating TypeError))
        (fst (main (world := ideal_world []) default_args))).
Proof.
  split; [reflexivity|]. split; [reflexivity|]. split; [reflexivity|].
  intros lib. split; [reflexivity|]. split.
  - intros world output_dir. split; reflexivity.
  - intros lawful.
    rewrite (reference_main (world := ideal_world []) default_args [] eq_refl).
    + split; [vm_compute; reflexivity|]. vm_compute. tauto.
    + split; constructor.
    + constructor.
Qed.

(** ** Loader and orchestrator *)

(** C7: when reading the input file raises, the loader prints the
    diagnostic and returns [None].  The orchestrator, once it has
    created the output directory and printed its banner, then returns
    without running a generator; when the directory cannot be created
    it raises before the loader is called.  Either way no artifact is
    written. *)
Theorem load_failure_writes_nothing {lib : Library} {world : World}
    (args : arguments) (e : exn) :
  read_csv (input args) = Raise e ->
  load_csv_data (input args) =
    ([Print (ErrorLoading (input args) e)], Ok None) /\
  (makedirs (output args) = Ok tt ->
   main args =
     ([MakeDirs (output args);
       Print (rule "=");
       Print (Text "MST RESULTS PLOTTING SCRIPT");
       Print (rule "=");
       Print (ErrorLoading (input args) e)], Ok tt)) /\
  (forall e', makedirs (output args) = Raise e' -> main args = ([], Raise e')) /\
  artifacts (fst (main args)) = [].
Proof.
  intros H.
  split; [now apply load_csv_data_raise|].
  split; [intros D; now apply main_load_failure|].
  split; [intros e' D; now apply main_no_directory|].
  destruct (makedirs (output args)) as [[]|e'] eqn:D.
  - rewrite (main_load_failure _ _ D H). reflexivity.
  - rewrite (main_no_directory _ _ D). reflexivity.
Qed.

Lemma load_failure_writes_nothing_witness :
  read_csv (World := unreadable_world FileNotFoundError) (input default_args) =
    Raise FileNotFoundError /\
  artifacts (fst (main (lib := reference_library)
                    (world := unreadable_world FileNotFoundError)
                    default_args)) = [] /\
  snd (main (lib := reference_library)
         (world := unreadable_world FileNotFoundError) default_args) = Ok tt.
Proof.
  split; [reflexivity|].
  destruct (load_failure_writes_nothing (lib := reference_library)
              (world := unreadable_world FileNotFoundError)
              default_args FileNotFoundError eq_refl) as (_ & Hmain & _ & Ha).
  split; [exact Ha|]. rewrite (Hmain eq_refl). reflexivity.
Defined.

(** A successful load, for comparison: when all output succeeds the
    seven artifacts are written, with every lawful library. *)
Example scenario_A_artifacts {lib : Library} {lawful : Lawful lib} :
  artifacts (fst (main (world := ideal_world (scenario_A 20 40 1 2 3 4))
                    default_args)) =
    ["docs/plots/execution_time_comparison.png";
     "docs/plots/operations_comparison.png";
     "docs/plots/mst_cost_verification.png";
     "docs/plots/performance_ratio.png";
     "docs/plots/edge_density_impact.png";
     "docs/plots/comprehensive_comparison.png";
     "docs/plots/summary_statistics.txt"]%string.
Proof.
  rewrite (reference_main (world := ideal_world (scenario_A 20 40 1 2 3 4))
             default_args (scenario_A 20 40 1 2 3 4) eq_refl).
  - vm_compute. reflexivity.
  - apply distinct_vertices_dec. vm_compute. reflexivity.
  - apply ratios_are_numbers_dec. vm_compute. reflexivity.
Qed.

(** ** Scenarios *)

(** C3: on scenario A the ratio series is [0.8, 0.75] over the vertex
    counts [10, 20], the cost check reports a match and the figure
    handed to the renderer carries the annotation, so the saved figure
    is annotated, and the summary counts two wins for Kruskal and none
    for Prim. *)
Theorem scenario_A_reports {lib : Library} {lawful : Lawful lib}
    {world : World} (e1 e2 o1 o2 o3 o4 : Z) :
  let df := scenario_A e1 e2 o1 o2 o3 o4 in
  performance_ratio_series df = Ok ([10; 20], [F64.lit_0_8; F64.lit_0_75]) /\
  F64.nearest_to F64.lit_0_8 8 10 /\
  F64.nearest_to F64.lit_0_75 75 100 /\
  cost_verification_verdict df = Ok true /\
  (exists prim kruskal,
     plot_mst_cost_verification df "docs/plots" =
       save "docs/plots" "mst_cost_verification.png"
         (MSTCostFigure prim kruskal true) /\
     (savefig "docs/plots/mst_cost_verification.png"
        (MSTCostFigure prim kruskal true) = Ok tt ->
      In (SaveFig "docs/plots/mst_cost_verification.png"
            (MSTCostFigure prim kruskal true))
         (fst (plot_mst_cost_verification df "docs/plots")))) /\
  summary_statistics df =
    Ok {| prim_total := 2; kruskal_total := 2; prim_wins := 0;
          kruskal_wins := 2; costs_match := true |}.
Proof.
  cbv zeta.
  assert (Hd : distinct_vertices (scenario_A e1 e2 o1 o2 o3 o4))
    by (apply distinct_vertices_dec; vm_compute; reflexivity).
  assert (Hn : ratios_are_numbers (scenario_A e1 e2 o1 o2 o3 o4))
    by (apply ratios_are_numbers_dec; vm_compute; reflexivity).
  assert (Hv : cost_verification_verdict (scenario_A e1 e2 o1 o2 o3 o4) = Ok true)
    by (rewrite (reference_verdict _ Hd); vm_compute; reflexivity).
  split; [|split; [|split; [|split; [|split]]]].
  - rewrite (reference_series _ Hn). vm_compute. reflexivity.
  - unfold F64.nearest_to, F64.lit_0_8.
    split; [split; [vm_compute; discriminate | reflexivity]|].
    split; [reflexivity|]. split; [reflexivity|]. vm_compute. discriminate.
  - unfold F64.nearest_to, F64.lit_0_75.
    split; [split; [vm_compute; discriminate | reflexivity]|].
    split; [reflexivity|]. split; [reflexivity|]. vm_compute. discriminate.
  - exact Hv.
  - eexists. eexists.
    rewrite (plot_mst_cost_verification_verdict _ "docs/plots" true Hv).
    split; [reflexivity|].
    intros Hs.
    rewrite (save_ok "docs/plots" "mst_cost_verification.png" _ Hs).
    left. reflexivity.
  - vm_compute. reflexivity.
Qed.

Lemma scenario_A_reports_witness :
  performance_ratio_series (lib := reference_library)
    (scenario_A 20 40 1 2 3 4) = Ok ([10; 20], [F64.lit_0_8; F64.lit_0_75]) /\
  cost_verification_verdict (lib := reference_library)
    (scenario_A 20 40 1 2 3 4) = Ok true /\
  summary_statistics (scenario_A 20 40 1 2 3 4) =
    Ok {| prim_total := 2; kruskal_total := 2; prim_wins := 0;
          kruskal_wins := 2; costs_match := true |}.
Proof.
  pose proof (scenario_A_reports (lib := reference_library)
                (world := ideal_world (scenario_A 20 40 1 2 3 4))
                20 40 1 2 3 4) as H.
  cbv zeta in H. destruct H as (H1 & _ & _ & H2 & _ & H3).
  split; [exact H1|]. split; [exact H2 | exact H3].
Defined.

(** ** Edge density *)

Lemma wrap_in_range z : I64.in_range z -> I64.wrap z = z.
Proof.
  unfold I64.in_range, I64.min_int, I64.max_int, I64.wrap. intros H.
  rewrite Z.mod_small; lia.
Qed.

Lemma product_even v : Z.even (v * (v - 1)) = true.
Proof.
  rewrite Z.even_mul, Z.even_sub. destruct (Z.even v); reflexivity.
Qed.

(** C4, as amended: for a record with at least two vertices whose
    product [Vertices * (Vertices - 1)] fits in [int64], the edge
    density is the [float64] quotient of [Edges] by half the exact
    product; below [2^53] that half is the integer
    [Vertices * (Vertices - 1) / 2] itself.  With two vertices and one
    edge the density is exactly [1.0]. *)
Theorem edge_density_formula (r : BenchmarkRecord) :
  2 <= Vertices r ->
  Vertices r * (Vertices r - 1) <= I64.max_int ->
  Edge_Density r =
    F64.div (F64.of_int (Edges r))
      (F64.div (F64.of_int (Vertices r * (Vertices r - 1))) (F64.of_int 2)) /\
  (Vertices r * (Vertices r - 1) < 2 ^ 53 ->
   Edge_Density r =
     F64.div (F64.of_int (Edges r))
       (F64.of_int (Vertices r * (Vertices r - 1) / 2))) /\
  (Vertices r = 2 -> Edges r = 1 -> Edge_Density r = F64.one).
Proof.
  intros Hv Hmax.
  assert (E : Edge_Density r =
              F64.div (F64.of_int (Edges r))
                (F64.div (F64.of_int (Vertices r * (Vertices r - 1))) (F64.of_int 2))).
  { unfold Edge_Density, I64.mul, I64.sub.
    rewrite (wrap_in_range (Vertices r - 1)).
    - rewrite wrap_in_range; [reflexivity|].
      unfold I64.in_range, I64.min_int, I64.max_int in *. nia.
    - unfold I64.in_range, I64.min_int, I64.max_int in *. nia. }
  split; [exact E|]. split.
  - intros Hsmall. rewrite E. f_equal.
    change (F64.of_int 2) with F64.two.
    pose proof (product_even (Vertices r)) as Hev.
    destruct (Vertices r * (Vertices r - 1)) as [|p|p] eqn:Ep; try nia.
    destruct p as [p|q|]; try discriminate Hev.
    assert (Hhalf : Z.pos q~0 / 2 = Z.pos q).
    { change (Z.pos q~0) with (2 * Z.pos q).
      rewrite Z.mul_comm. apply Z.div_mul. discriminate. }
    rewrite Hhalf. apply F64Facts.of_int_half, F64Facts.digits_bound, Hsmall.
  - intros H2 H1. unfold Edge_Density. rewrite H2, H1. vm_compute. reflexivity.
Qed.

Lemma edge_density_formula_witness :
  Edge_Density scenario_C = F64.one /\
  Edge_Density scenario_C = F64.div (F64.of_int 1) (F64.of_int 1).
Proof.
  destruct (edge_density_formula scenario_C) as (_ & Hexact & Hone).
  - simpl. lia.
  - simpl. unfold I64.max_int. lia.
  - split.
    + apply Hone; reflexivity.
    + apply Hexact. simpl. lia.
Defined.

(** With [2^32] vertices the product leaves the range of [int64] and
    wraps to a negative number: the density is [-2^-31]. *)
Lemma wide_graph_density_wraps :
  2 <= Vertices wide_graph /\ I64.in_range (Vertices wide_graph) /\
  Edge_Density wide_graph = S754_finite true 4503599627370496 (-83) /\
  F64.ltb (Edge_Density wide_graph) F64.zero = true /\
  Edge_Density wide_graph <>
    F64.div (F64.of_int (Edges wide_graph))
      (F64.div (F64.of_int (Vertices wide_graph * (Vertices wide_graph - 1)))
         (F64.of_int 2)).
Proof.
  split; [simpl; lia|]. split; [unfold I64.in_range; simpl; split; discriminate|].
  split; [vm_compute; reflexivity|]. split; [vm_compute; reflexivity|].
  intros H. vm_compute in H. discriminate H.
Qed.

(** ** Edge density at the ends of its range *)

Lemma degenerate_denominator v :
  v = 0 \/ v = 1 ->
  F64.div (F64.of_int (I64.mul v (I64.sub v 1))) (F64.of_int 2) = F64.zero.
Proof. intros [->| ->]; vm_compute; reflexivity. Qed.

(** X7: for a record with no vertex or a single vertex the divisor
    [Vertices * (Vertices - 1) / 2] is [0.0] and the division does
    not raise: the edge density is NaN when the record has no edge,
    [+inf] when its edge count is positive and [-inf] when it is
    negative. *)
Theorem edge_density_degenerate (r : BenchmarkRecord) :
  Vertices r = 0 \/ Vertices r = 1 ->
  (Edges r = 0 -> Edge_Density r = F64.nan) /\
  (0 < Edges r -> Edge_Density r = F64.inf) /\
  (Edges r < 0 -> Edge_Density r = S754_infinity true).
Proof.
  intros Hv. unfold Edge_Density. rewrite (degenerate_denominator _ Hv).
  split; [|split].
  - intros ->. vm_compute. reflexivity.
  - intros He. pose proof (of_int_nonzero (Edges r) ltac:(lia)) as N.
    assert (S : (Edges r <? 0) = false) by lia. rewrite S in N.
    destruct (F64.of_int (Edges r)) as [s|s| |s m e]; try contradiction;
      subst s; reflexivity.
  - intros He. pose proof (of_int_nonzero (Edges r) ltac:(lia)) as N.
    assert (S : (Edges r <? 0) = true) by lia. rewrite S in N.
    destruct (F64.of_int (Edges r)) as [s|s| |s m e]; try contradiction;
      subst s; reflexivity.
Qed.

Lemma edge_density_degenerate_witness :
  (Vertices single_vertex = 0 \/ Vertices single_vertex = 1) /\
  Edge_Density single_vertex = F64.inf.
Proof.
  split; [right; reflexivity|].
  destruct (edge_density_degenerate single_vertex) as (_ & H & _).
  - right. reflexivity.
  - apply H. reflexivity.
Defined.

(** With at least two vertices and a product below [2^53], the divisor
    is the exact number of vertex pairs, a normal float. *)
Lemma edge_density_divisor v :
  2 <= v -> v * (v - 1) < 2 ^ 53 ->
  exists m e,
    F64.div (F64.of_int (I64.mul v (I64.sub v 1))) (F64.of_int 2) =
      S754_finite false m e /\
    F64.of_int (v * (v - 1) / 2) = S754_finite false m e /\
    Z.pos (digits2_pos m) = 53.
Proof.
  intros Hv Hs.
  assert (P53 : 2 ^ 53 = 9007199254740992) by reflexivity.
  assert (W1 : I64.sub v 1 = v - 1).
  { apply wrap_in_range. unfold I64.in_range, I64.min_int, I64.max_int.
    change (2 ^ 63) with 9223372036854775808. nia. }
  assert (W2 : I64.mul v (v - 1) = v * (v - 1)).
  { apply wrap_in_range. unfold I64.in_range, I64.min_int, I64.max_int.
    change (2 ^ 63) with 9223372036854775808. nia. }
  rewrite W1, W2. change (F64.of_int 2) with F64.two.
  pose proof (product_even v) as Hev.
  destruct (v * (v - 1)) as [|p|p] eqn:Ep; try nia.
  destruct p as [p|q|]; try discriminate Hev.
  assert (Hhalf : Z.pos q~0 / 2 = Z.pos q).
  { change (Z.pos q~0) with (2 * Z.pos q).
    rewrite Z.mul_comm. apply Z.div_mul. discriminate. }
  rewrite Hhalf, (F64Facts.of_int_half q (F64Facts.digits_bound _ Hs)).
  assert (Hq : 0 < Z.pos q < 2 ^ 53) by lia.
  destruct (of_int_canonical (Z.pos q) Hq) as (m & e & E & D).
  exists m, e. auto.
Qed.

(** X8: for a record with at least two vertices whose product
    [Vertices * (Vertices - 1)] is below [2^53], the edge density is
    exactly [0.0] when the record has no edge and exactly [1.0] when
    its edge count is the number of vertex pairs, that is for a
    complete graph. *)
Theorem edge_density_endpoints (r : BenchmarkRecord) :
  2 <= Vertices r ->
  Vertices r * (Vertices r - 1) < 2 ^ 53 ->
  (Edges r = 0 -> Edge_Density r = F64.zero) /\
  (Edges r = Vertices r * (Vertices r - 1) / 2 -> Edge_Density r = F64.one).
Proof.
  intros Hv Hs. unfold Edge_Density.
  destruct (edge_density_divisor (Vertices r) Hv Hs) as (m & e & -> & Ei & D).
  split.
  - intros ->. reflexivity.
  - intros ->. rewrite Ei. apply div_self, D.
Qed.

Lemma edge_density_endpoints_witness :
  2 <= Vertices complete_graph /\
  Vertices complete_graph * (Vertices complete_graph - 1) < 2 ^ 53 /\
  Edge_Density complete_graph = F64.one.
Proof.
  assert (Hv : 2 <= Vertices complete_graph) by (cbn; lia).
  assert (Hs : Vertices complete_graph * (Vertices complete_graph - 1) < 2 ^ 53)
    by (cbn; lia).
  split; [exact Hv|]. split; [exact Hs|].
  apply (proj2 (edge_density_endpoints complete_graph Hv Hs)). reflexivity.
Defined.

(** * Further properties *)

(** ** Outcomes of the paired reports *)

Lemma cost_verdict_cases {lib : Library} {lawful : Lawful lib} df :
  df <> [] ->
  (shapes_compatible (prim_count df) (kruskal_count df) = true ->
   exists verdict, cost_verification_verdict df = Ok verdict) /\
  (shapes_compatible (prim_count df) (kruskal_count df) = false ->
   cost_verification_verdict df = Raise ValueError).
Proof.
  intros Hne. rewrite (cost_verification_verdict_rows df Hne).
  pose proof (allclose_cases
                (map MST_Cost (sort_values_Vertices (select_algorithm "Prim" df)))
                (map MST_Cost (sort_values_Vertices (select_algorithm "Kruskal" df))))
    as H.
  rewrite !length_map, !sorted_count in H. exact H.
Qed.

Lemma map_const_repeat {A B : Type} (b : B) (l : list A) :
  map (fun _ => b) l = repeat b (List.length l).
Proof. induction l as [|a l IH]; [reflexivity|]. cbn. now rewrite IH. Qed.

Lemma broadcast_heights_same_length (x : list nat) (hs : list F64.t) :
  List.length x = List.length hs ->
  np_broadcast2 (fun (_ : nat) (h : F64.t) => h) x hs = Ok hs.
Proof.
  intros H. rewrite np_broadcast2_same_length by exact H. f_equal.
  revert hs H. induction x as [|i x IH]; intros [|h hs] H; try discriminate H;
    [reflexivity|].
  cbn [combine map fst snd]. f_equal. apply IH. now injection H.
Qed.

Lemma broadcast_heights_single (x : list nat) (h : F64.t) :
  np_broadcast2 (fun (_ : nat) (h : F64.t) => h) x [h] =
    Ok (repeat h (List.length x)).
Proof.
  destruct x as [|i [|j x]]; try reflexivity.
  unfold np_broadcast2. f_equal. apply (map_const_repeat h (i :: j :: x)).
Qed.

Lemma plot_all_in_one_cases {lib : Library} {lawful : Lawful lib}
    {world : World} df output_dir :
  (shapes_compatible (prim_count df) (kruskal_count df) = true ->
   exists bars_kruskal,
     plot_all_in_one df output_dir =
       save output_dir "comprehensive_comparison.png"
         (AllInOneFigure
            (line_series Time_ms (sort_values_Vertices (select_algorithm "Prim" df)))
            (line_series Time_ms (sort_values_Vertices (select_algorithm "Kruskal" df)))
            (line_series Operations (sort_values_Vertices (select_algorithm "Prim" df)))
            (line_series Operations (sort_values_Vertices (select_algorithm "Kruskal" df)))
            (line_series MST_Cost (sort_values_Vertices (select_algorithm "Prim" df)))
            (line_series MST_Cost (sort_values_Vertices (select_algorithm "Kruskal" df)))
            (map Time_ms (sort_values_Vertices (select_algorithm "Prim" df)))
            bars_kruskal
            (map Vertices (sort_values_Vertices (select_algorithm "Prim" df)))) /\
     np_broadcast2 (fun (_ : nat) (h : F64.t) => h)
       (seq 0 (prim_count df))
       (map Time_ms (sort_values_Vertices (select_algorithm "Kruskal" df))) =
       Ok bars_kruskal /\
     List.length bars_kruskal =
       broadcast_length (prim_count df) (kruskal_count df)) /\
  (shapes_compatible (prim_count df) (kruskal_count df) = false ->
   plot_all_in_one df output_dir = ([], Raise ValueError)).
Proof.
  unfold plot_all_in_one.
  set (prim_data := sort_values_Vertices (select_algorithm "Prim" df)).
  set (kruskal_data := sort_values_Vertices (select_algorithm "Kruskal" df)).
  assert (Lp : List.length prim_data = prim_count df) by apply sorted_count.
  assert (Lk : List.length kruskal_data = kruskal_count df) by apply sorted_count.
  rewrite (broadcast_heights_same_length (seq 0 (List.length prim_data))
             (map Time_ms prim_data))
    by (now rewrite length_seq, length_map).
  rewrite bind_lift_ok. rewrite Lp.
  destruct (np_broadcast2_cases (fun (_ : nat) (h : F64.t) => h)
              (seq 0 (prim_count df)) (map Time_ms kruskal_data))
    as [Hok Hbad].
  rewrite length_seq, length_map, Lk in Hok, Hbad.
  split; intros H.
  - destruct (Hok H) as (bars & Eb & Lb). exists bars.
    rewrite Eb, bind_lift_ok. auto.
  - rewrite (Hbad H). reflexivity.
Qed.

(** ** The chain of generators when output is reliable *)

Lemma generate_all_outcome {lib : Library} {lawful : Lawful lib}
    {world : World} df output_dir :
  reliable_output world ->
  (df = [] ->
   exists tr,
     generate_all df output_dir = (tr, Raise TypeError) /\
     artifacts tr = firstn 2 (all_artifacts output_dir) /\
     ~ In (Print (AllSaved output_dir)) tr) /\
  (df <> [] ->
   shapes_compatible (prim_count df) (kruskal_count df) = false ->
   exists tr,
     generate_all df output_dir = (tr, Raise ValueError) /\
     artifacts tr = firstn 2 (all_artifacts output_dir) /\
     ~ In (Print (AllSaved output_dir)) tr) /\
  (df <> [] ->
   shapes_compatible (prim_count df) (kruskal_count df) = true ->
   forall e, performance_ratio_series df = Raise e ->
   exists tr,
     generate_all df output_dir = (tr, Raise e) /\
     artifacts tr = firstn 3 (all_artifacts output_dir) /\
     ~ In (Print (AllSaved output_dir)) tr) /\
  (df <> [] ->
   shapes_compatible (prim_count df) (kruskal_count df) = true ->
   forall series, performance_ratio_series df = Ok series ->
   exists tr,
     generate_all df output_dir = (tr, Ok tt) /\
     artifacts tr = all_artifacts output_dir /\
     In (Print (AllSaved output_dir)) tr).
Proof.
  intros reliable.
  unfold generate_all, plot_execution_time_comparison,
    plot_operations_comparison, plot_edge_density_impact.
  rewrite !(save_reliable _ _ _ reliable).
  split; [|split; [|split]].
  - intros ->.
    rewrite (plot_mst_cost_verification_raises [] TypeError output_dir eq_refl).
    rewrite !bind_ok, ?bind_raise. cbn [fst snd app].
    eexists. split; [reflexivity|]. split; [reflexivity|].
    cbn [In]. intros [E|[E|[E|[E|[]]]]]; discriminate E.
  - intros Hne H.
    rewrite (plot_mst_cost_verification_raises df ValueError output_dir
               (proj2 (cost_verdict_cases df Hne) H)).
    rewrite !bind_ok, ?bind_raise. cbn [fst snd app].
    eexists. split; [reflexivity|]. split; [reflexivity|].
    cbn [In]. intros [E|[E|[E|[E|[]]]]]; discriminate E.
  - intros Hne H e He.
    destruct (proj1 (cost_verdict_cases df Hne) H) as (note & Ev).
    rewrite (plot_mst_cost_verification_verdict df output_dir note Ev).
    rewrite (save_reliable _ _ _ reliable).
    rewrite (plot_performance_ratio_raises df e output_dir He).
    rewrite !bind_ok, ?bind_raise. cbn [fst snd app].
    eexists. split; [reflexivity|]. split; [reflexivity|].
    cbn [In]. intros [E|[E|[E|[E|[E|[E|[]]]]]]]; discriminate E.
  - intros Hne H [vertices ratios] Hs.
    destruct (proj1 (cost_verdict_cases df Hne) H) as (note & Ev).
    rewrite (plot_mst_cost_verification_verdict df output_dir note Ev).
    rewrite (plot_performance_ratio_series df output_dir _ _ Hs).
    destruct (proj1 (plot_all_in_one_cases df output_dir) H)
      as (bars & -> & _).
    destruct (proj1 (summary_statistics_cases df Hne) H) as (s & Es).
    rewrite (generate_summary_statistics_written df s output_dir Es
               (proj2 reliable _ _)).
    rewrite !(save_reliable _ _ _ reliable).
    unfold emit. rewrite !bind_ok. cbn [fst snd app].
    eexists. split; [reflexivity|]. split; [reflexivity|].
    cbn [In]. do 16 right. left. reflexivity.
Qed.

(** ** The orchestrator *)


(** X2: on a frame that was read, in a directory that was created
    and with output that never fails, the generators run in a fixed
    order and the first exception stops the chain.  The run writes
    the first two artifacts when the file has no rows ([TypeError])
    or when the numbers of Prim and Kruskal rows do not broadcast
    ([ValueError]), the first three when the ratio computation
    raises, and all seven otherwise; after a failure the trace ends
    with the error report and the closing message is not printed. *)
Theorem main_artifacts {lib : Library} {lawful : Lawful lib} {world : World}
    (args : arguments) (df : DataFrame) :
  reliable_output world ->
  makedirs (output args) = Ok tt ->
  read_csv (input args) = Ok df ->
  let tr := fst (main args) in
  let compatible := shapes_compatible (prim_count df) (kruskal_count df) in
  (df = [] ->
   artifacts tr = firstn 2 (all_artifacts (output args)) /\
   ~ In (Print (AllSaved (output args))) tr /\
   exists tr0, tr = tr0 ++ [Print (ErrorGenerating TypeError);
                            Print (Traceback TypeError)]) /\
  (df <> [] -> compatible = false ->
   artifacts tr = firstn 2 (all_artifacts (output args)) /\
   ~ In (Print (AllSaved (output args))) tr /\
   exists tr0, tr = tr0 ++ [Print (ErrorGenerating ValueError);
                            Print (Traceback ValueError)]) /\
  (df <> [] -> compatible = true ->
   forall e, performance_ratio_series df = Raise e ->
   artifacts tr = firstn 3 (all_artifacts (output args)) /\
   ~ In (Print (AllSaved (output args))) tr /\
   exists tr0, tr = tr0 ++ [Print (ErrorGenerating e); Print (Traceback e)]) /\
  (artifacts tr = all_artifacts (output args) <->
   df <> [] /\ compatible = true /\
   exists series, performance_ratio_series df = Ok series) /\
  (artifacts tr = all_artifacts (output args) ->
   In (Print (AllSaved (output args))) tr).
Proof.
  intros reliable D R tr compatible. subst tr.
  rewrite (main_on_frame _ _ D R). cbv zeta. cbn [fst].
  set (pre := [MakeDirs (output args); Print (rule "=");
               Print (Text "MST RESULTS PLOTTING SCRIPT"); Print (rule "=");
               Print (Loaded (input args) (List.length df) 7);
               Print (Columns column_names);
               Print (Text (String "010" "Generating plots...")); Print (rule "-")]).
  assert (Hpre : artifacts pre = []) by reflexivity.
  assert (Npre : ~ In (Print (AllSaved (output args))) pre).
  { subst pre. cbn [In].
    intros [E|[E|[E|[E|[E|[E|[E|[E|[]]]]]]]]]; discriminate E. }
  destruct (generate_all_outcome df (output args) reliable)
    as (G0 & G1 & G2 & G3).
  fold compatible in G1, G2, G3.
  set (body := try_except (generate_all df (output args))
                 (fun e => bind (emit (Print (ErrorGenerating e)))
                             (fun _ => emit (Print (Traceback e))))).
  assert (Bad : forall e trg n,
             generate_all df (output args) = (trg, Raise e) ->
             artifacts trg = firstn n (all_artifacts (output args)) ->
             ~ In (Print (AllSaved (output args))) trg ->
             artifacts (pre ++ fst body)
               = firstn n (all_artifacts (output args)) /\
             ~ In (Print (AllSaved (output args))) (pre ++ fst body) /\
             exists tr0,
               pre ++ fst body
               = tr0 ++ [Print (ErrorGenerating e); Print (Traceback e)]).
  { intros e trg n Eg Ea Ni. subst body. rewrite Eg, try_except_raise.
    unfold emit. rewrite bind_ok. cbn [fst snd app].
    split; [|split].
    - rewrite !artifacts_app, Hpre, Ea. cbn [artifacts flat_map app].
      now rewrite app_nil_r.
    - rewrite !in_app_iff. cbn [In].
      intros [H|[H|[H|[H|[]]]]]; try tauto; discriminate H.
    - exists (pre ++ trg). now rewrite app_assoc. }
  assert (Short : forall n, (n < 7)%nat ->
             artifacts (pre ++ fst body) =
               firstn n (all_artifacts (output args)) ->
             artifacts (pre ++ fst body) <> all_artifacts (output args)).
  { intros n Hn E Hall. rewrite E in Hall.
    apply (f_equal (@List.length string)) in Hall.
    rewrite length_firstn in Hall. unfold all_artifacts in Hall.
    rewrite length_map in Hall. cbn [artifact_names List.length] in Hall. lia. }
  assert (Cases : df = [] \/
                  (df <> [] /\ compatible = false) \/
                  (df <> [] /\ compatible = true /\
                   exists e, performance_ratio_series df = Raise e) \/
                  (df <> [] /\ compatible = true /\
                   exists series, performance_ratio_series df = Ok series)).
  { destruct df as [|r df']; [now left|]. right.
    assert (Hne : r :: df' <> []) by discriminate.
    destruct compatible; [|now left]. right.
    destruct (performance_ratio_series (r :: df')) as [series|e];
      [right | left]; eauto. }
  split; [|split; [|split; [|split]]].
  - intros H. destruct (G0 H) as (trg & Eg & Ea & Ni). now apply (Bad _ trg).
  - intros Hne H. destruct (G1 Hne H) as (trg & Eg & Ea & Ni).
    now apply (Bad _ trg).
  - intros Hne H e He. destruct (G2 Hne H e He) as (trg & Eg & Ea & Ni).
    now apply (Bad _ trg).
  - split.
    + intros Hall.
      destruct Cases as [H|[[Hne H]|[(Hne & H & e & He)|(Hne & H & Hs)]]].
      * destruct (G0 H) as (trg & Eg & Ea & Ni).
        destruct (Bad _ trg 2%nat Eg Ea Ni) as (Ea' & _).
        exfalso. apply (Short 2%nat); [lia | exact Ea' | exact Hall].
      * destruct (G1 Hne H) as (trg & Eg & Ea & Ni).
        destruct (Bad _ trg 2%nat Eg Ea Ni) as (Ea' & _).
        exfalso. apply (Short 2%nat); [lia | exact Ea' | exact Hall].
      * destruct (G2 Hne H e He) as (trg & Eg & Ea & Ni).
        destruct (Bad _ trg 3%nat Eg Ea Ni) as (Ea' & _).
        exfalso. apply (Short 3%nat); [lia | exact Ea' | exact Hall].
      * auto.
    + intros (Hne & Hc & series & Hs).
      destruct (G3 Hne Hc series Hs) as (trg & Eg & Ea & _).
      subst body. rewrite Eg, try_except_ok. cbn [fst].
      now rewrite artifacts_app, Hpre, Ea.
  - intros Hall.
    destruct Cases as [H|[[Hne H]|[(Hne & H & e & He)|(Hne & H & series & Hs)]]].
    + destruct (G0 H) as (trg & Eg & Ea & Ni).
      destruct (Bad _ trg 2%nat Eg Ea Ni) as (Ea' & _).
      exfalso. apply (Short 2%nat); [lia | exact Ea' | exact Hall].
    + destruct (G1 Hne H) as (trg & Eg & Ea & Ni).
      destruct (Bad _ trg 2%nat Eg Ea Ni) as (Ea' & _).
      exfalso. apply (Short 2%nat); [lia | exact Ea' | exact Hall].
    + destruct (G2 Hne H e He) as (trg & Eg & Ea & Ni).
      destruct (Bad _ trg 3%nat Eg Ea Ni) as (Ea' & _).
      exfalso. apply (Short 3%nat); [lia | exact Ea' | exact Hall].
    + destruct (G3 Hne H series Hs) as (trg & Eg & _ & Hin).
      subst body. rewrite Eg, try_except_ok. cbn [fst].
      apply in_app_iff. now right.
Qed.

Lemma reliable_ideal_world df : reliable_output (ideal_world df).
Proof. split; reflexivity. Qed.

Lemma main_artifacts_witness :
  reliable_output (ideal_world prim_only) /\
  artifacts (fst (main (lib := reference_library)
                    (world := ideal_world prim_only) default_args)) =
    firstn 2 (all_artifacts (output default_args)).
Proof.
  split; [apply reliable_ideal_world|].
  pose proof (main_artifacts (lib := reference_library)
                (world := ideal_world prim_only) default_args prim_only
                (reliable_ideal_world prim_only) eq_refl eq_refl) as H.
  cbv zeta in H. destruct H as (_ & H & _). apply H.
  - discriminate.
  - reflexivity.
Defined.


(** X14: when the layout or the rendering of the first figure raises,
    the chain stops there: the run writes no artifact, reports that
    exception, does not print the closing message and returns
    normally.  No later generator runs, also not those that need no
    figure. *)
Theorem render_failure_stops_run {lib : Library} {world : World}
    (args : arguments) (df : DataFrame) (e : exn) :
  makedirs (output args) = Ok tt ->
  read_csv (input args) = Ok df ->
  savefig (path_join (output args) "execution_time_comparison.png")
    (ExecutionTimeFigure
       (line_series Time_ms (sort_values_Vertices (select_algorithm "Prim" df)))
       (line_series Time_ms
          (sort_values_Vertices (select_algorithm "Kruskal" df)))) = Raise e ->
  generate_all df (output args) = ([], Raise e) /\
  main args =
    ([MakeDirs (output args); Print (rule "=");
      Print (Text "MST RESULTS PLOTTING SCRIPT"); Print (rule "=");
      Print (Loaded (input args) (List.length df) 7);
      Print (Columns column_names);
      Print (Text (String "010" "Generating plots...")); Print (rule "-");
      Print (ErrorGenerating e); Print (Traceback e)], Ok tt) /\
  artifacts (fst (main args)) = [] /\
  ~ In (Print (AllSaved (output args))) (fst (main args)).
Proof.
  intros D R S.
  assert (G : generate_all df (output args) = ([], Raise e)).
  { unfold generate_all, plot_execution_time_comparison.
    rewrite (save_raise _ _ _ _ S). reflexivity. }
  assert (E : main args =
              ([MakeDirs (output args); Print (rule "=");
                Print (Text "MST RESULTS PLOTTING SCRIPT"); Print (rule "=");
                Print (Loaded (input args) (List.length df) 7);
                Print (Columns column_names);
                Print (Text (String "010" "Generating plots...")); Print (rule "-");
                Print (ErrorGenerating e); Print (Traceback e)], Ok tt)).
  { rewrite (main_on_frame _ _ D R), G. reflexivity. }
  split; [exact G|]. split; [exact E|]. rewrite E. cbn [fst]. split.
  - reflexivity.
  - cbn [In]. intros [H|[H|[H|[H|[H|[H|[H|[H|[H|[H|[]]]]]]]]]]];
      discriminate H.
Qed.

Lemma render_failure_stops_run_witness :
  artifacts (fst (main (lib := reference_library)
                    (world := failing_renderer (scenario_A 20 40 1 2 3 4))
                    default_args)) = [] /\
  snd (main (lib := reference_library)
         (world := failing_renderer (scenario_A 20 40 1 2 3 4))
         default_args) = Ok tt.
Proof.
  destruct (render_failure_stops_run (lib := reference_library)
              (world := failing_renderer (scenario_A 20 40 1 2 3 4))
              default_args (scenario_A 20 40 1 2 3 4) ValueError
              eq_refl eq_refl eq_refl) as (_ & E & Ha & _).
  split; [exact Ha|]. rewrite E. reflexivity.
Defined.

(** ** Shape errors of the paired reports *)

(** X3: the cost check of the verification report raises [TypeError]
    exactly on a file without rows, and [ValueError] exactly when the
    file has rows and the numbers of Prim and Kruskal rows do not
    broadcast (they differ and neither is 1).  It raises before the
    layout: then nothing is rendered or saved.  Otherwise the figure
    handed to the renderer carries the two cost lines, each a
    rearrangement of the rows of its algorithm in ascending order of
    [Vertices], and the verdict.  The verdict is positive on a frame
    with no row of one algorithm and at most one row of the other:
    nothing is compared. *)
Theorem cost_verification_outcome {lib : Library} {lawful : Lawful lib}
    {world : World} (df : DataFrame) :
  (cost_verification_verdict df = Raise TypeError <-> df = []) /\
  (cost_verification_verdict df = Raise ValueError <->
   df <> [] /\ shapes_compatible (prim_count df) (kruskal_count df) = false) /\
  ((exists note, cost_verification_verdict df = Ok note) <->
   df <> [] /\ shapes_compatible (prim_count df) (kruskal_count df) = true) /\
  (forall e output_dir,
     cost_verification_verdict df = Raise e ->
     plot_mst_cost_verification df output_dir = ([], Raise e)) /\
  (forall note output_dir,
     cost_verification_verdict df = Ok note ->
     let prim_data := sort_values_Vertices (select_algorithm "Prim" df) in
     let kruskal_data := sort_values_Vertices (select_algorithm "Kruskal" df) in
     plot_mst_cost_verification df output_dir =
       save output_dir "mst_cost_verification.png"
         (MSTCostFigure (line_series MST_Cost prim_data)
            (line_series MST_Cost kruskal_data) note) /\
     Permutation prim_data (select_algorithm "Prim" df) /\
     Permutation kruskal_data (select_algorithm "Kruskal" df) /\
     StronglySorted Z.le (map Vertices prim_data) /\
     StronglySorted Z.le (map Vertices kruskal_data)) /\
  (df <> [] ->
   (prim_count df = 0 /\ kruskal_count df <= 1 \/
    kruskal_count df = 0 /\ prim_count df <= 1)%nat ->
   cost_verification_verdict df = Ok true) /\
  cost_verification_verdict kruskal_only = Ok true.
Proof.
  assert (Cases : (df = [] /\ cost_verification_verdict df = Raise TypeError) \/
                  (df <> [] /\
                   shapes_compatible (prim_count df) (kruskal_count df) = false /\
                   cost_verification_verdict df = Raise ValueError) \/
                  (df <> [] /\
                   shapes_compatible (prim_count df) (kruskal_count df) = true /\
                   exists note, cost_verification_verdict df = Ok note)).
  { destruct df as [|r df']; [left; split; reflexivity|]. right.
    assert (Hne : r :: df' <> []) by discriminate.
    destruct (cost_verdict_cases (r :: df') Hne) as [Hok Hbad].
    destruct (shapes_compatible (prim_count (r :: df')) (kruskal_count (r :: df')));
      [right | left]; auto. }
  split; [|split; [|split; [|split; [|split; [|split]]]]].
  - split.
    + intros H. destruct Cases as [[E _]|[(_ & _ & E)|(_ & _ & note & E)]];
        [exact E | rewrite E in H; discriminate H
         | rewrite E in H; discriminate H].
    + intros ->. reflexivity.
  - split.
    + intros H. destruct Cases as [[_ E]|[(Hne & Hc & _)|(_ & _ & note & E)]];
        [rewrite E in H; discriminate H | auto
         | rewrite E in H; discriminate H].
    + intros [Hne Hc]. now apply cost_verdict_cases.
  - split.
    + intros (note & H).
      destruct Cases as [[_ E]|[(_ & _ & E)|(Hne & Hc & _)]];
        [rewrite E in H; discriminate H | rewrite E in H; discriminate H
         | auto].
    + intros [Hne Hc]. now apply cost_verdict_cases.
  - intros e output_dir H. now apply plot_mst_cost_verification_raises.
  - intros note output_dir H prim_data kruskal_data.
    split; [now apply plot_mst_cost_verification_verdict|].
    split; [apply sort_values_perm|]. split; [apply sort_values_perm|].
    split; apply sorted_keys, sort_values_sorted.
  - intros Hne H. rewrite (cost_verification_verdict_rows df Hne).
    apply allclose_vacuous. rewrite !length_map, !sorted_count. exact H.
  - rewrite (cost_verification_verdict_rows kruskal_only); [|discriminate].
    apply allclose_vacuous. rewrite !length_map, !sorted_count.
    left. split; [reflexivity | cbn; lia].
Qed.

Lemma cost_verification_outcome_witness :
  cost_verification_verdict (lib := reference_library) prim_only =
    Raise ValueError /\
  plot_mst_cost_verification (lib := reference_library)
    (world := ideal_world prim_only) prim_only "docs/plots" =
    ([], Raise ValueError).
Proof.
  destruct (cost_verification_outcome (lib := reference_library)
              (world := ideal_world prim_only) prim_only)
    as (_ & Hv & _ & Hp & _).
  assert (E : cost_verification_verdict (lib := reference_library) prim_only =
              Raise ValueError).
  { apply Hv. split; [discriminate | reflexivity]. }
  split; [exact E | exact (Hp _ _ E)].
Defined.

(** X4: the summary raises [TypeError] exactly on a file without
    rows, and [ValueError] exactly when the file has rows and the
    numbers of Prim and Kruskal rows do not broadcast; it raises
    before the writer has printed or written anything.  Otherwise the
    summary is printed, and the same summary is written to the file
    unless opening or writing raises; its two totals are the row
    counts and its two win counts together are at most the length of
    the broadcast of the two time columns.  With a single Prim row
    against three Kruskal rows it reports 3 Prim wins for 1 Prim
    graph. *)
Theorem summary_writer_outcome {world : World} (df : DataFrame)
    (output_dir : string) :
  (summary_statistics df = Raise TypeError <-> df = []) /\
  (summary_statistics df = Raise ValueError <->
   df <> [] /\ shapes_compatible (prim_count df) (kruskal_count df) = false) /\
  ((exists s, summary_statistics df = Ok s) <->
   df <> [] /\ shapes_compatible (prim_count df) (kruskal_count df) = true) /\
  (forall e, summary_statistics df = Raise e ->
     generate_summary_statistics df output_dir = ([], Raise e)) /\
  (forall s, summary_statistics df = Ok s ->
     (write_text (path_join output_dir "summary_statistics.txt") s = Ok tt ->
      generate_summary_statistics df output_dir =
        ([Print (SummaryText s);
          WriteFile (path_join output_dir "summary_statistics.txt") s;
          Print (Saved (path_join output_dir "summary_statistics.txt"))],
         Ok tt)) /\
     (forall e,
        write_text (path_join output_dir "summary_statistics.txt") s = Raise e ->
        generate_summary_statistics df output_dir =
          ([Print (SummaryText s)], Raise e)) /\
     prim_total s = prim_count df /\ kruskal_total s = kruskal_count df /\
     (prim_wins s + kruskal_wins s <=
        broadcast_length (prim_count df) (kruskal_count df))%nat) /\
  summary_statistics one_against_three =
    Ok {| prim_total := 1; kruskal_total := 3; prim_wins := 3;
          kruskal_wins := 0; costs_match := true |}.
Proof.
  assert (Cases : (df = [] /\ summary_statistics df = Raise TypeError) \/
                  (df <> [] /\
                   shapes_compatible (prim_count df) (kruskal_count df) = false /\
                   summary_statistics df = Raise ValueError) \/
                  (df <> [] /\
                   shapes_compatible (prim_count df) (kruskal_count df) = true /\
                   exists s, summary_statistics df = Ok s)).
  { destruct df as [|r df']; [left; split; reflexivity|]. right.
    assert (Hne : r :: df' <> []) by discriminate.
    destruct (summary_statistics_cases (r :: df') Hne) as [Hok Hbad].
    destruct (shapes_compatible (prim_count (r :: df')) (kruskal_count (r :: df')));
      [right | left]; auto. }
  split; [|split; [|split; [|split; [|split]]]].
  - split.
    + intros H. destruct Cases as [[E _]|[(_ & _ & E)|(_ & _ & s & E)]];
        [exact E | rewrite E in H; discriminate H
         | rewrite E in H; discriminate H].
    + intros ->. reflexivity.
  - split.
    + intros H. destruct Cases as [[_ E]|[(Hne & Hc & _)|(_ & _ & s & E)]];
        [rewrite E in H; discriminate H | auto
         | rewrite E in H; discriminate H].
    + intros [Hne Hc]. now apply summary_statistics_cases.
  - split.
    + intros (s & H).
      destruct Cases as [[_ E]|[(_ & _ & E)|(Hne & Hc & _)]];
        [rewrite E in H; discriminate H | rewrite E in H; discriminate H
         | auto].
    + intros [Hne Hc]. now apply summary_statistics_cases.
  - intros e H. now apply generate_summary_statistics_raises.
  - intros s Hs.
    split; [intros W; now apply generate_summary_statistics_written|].
    split; [intros e W; now apply generate_summary_statistics_unwritten|].
    destruct (summary_statistics_inv df s Hs) as (_ & Ew & _ & Tp & Tk).
    split; [exact Tp|]. split; [exact Tk|].
    exact (win_counts_bound df _ Ew).
  - vm_compute. reflexivity.
Qed.

Lemma summary_writer_outcome_witness :
  summary_statistics prim_only = Raise ValueError /\
  generate_summary_statistics (world := ideal_world prim_only)
    prim_only "docs/plots" = ([], Raise ValueError).
Proof.
  destruct (summary_writer_outcome (world := ideal_world prim_only)
              prim_only "docs/plots") as (_ & Hv & _ & Hg & _).
  assert (E : summary_statistics prim_only = Raise ValueError).
  { apply Hv. split; [discriminate | reflexivity]. }
  split; [exact E | exact (Hg _ E)].
Defined.

(** ** The combined figure *)

(** X5: on a frame with rows, the combined figure raises
    [ValueError] before the layout when the numbers of Prim and
    Kruskal rows do not broadcast: the Kruskal bars are drawn at the
    Prim positions.  Otherwise the figure handed to the renderer has
    the series sorted by [Vertices] as line panels, the sorted Prim
    times as Prim bars and the Prim vertex counts as tick labels; the
    Kruskal bars are the sorted Kruskal times when the counts are
    equal, and a single Kruskal time is repeated at every Prim
    position. *)
Theorem all_in_one_outcome {lib : Library} {lawful : Lawful lib}
    {world : World} (df : DataFrame) (output_dir : string) :
  df <> [] ->
  (shapes_compatible (prim_count df) (kruskal_count df) = false ->
   plot_all_in_one df output_dir = ([], Raise ValueError)) /\
  (shapes_compatible (prim_count df) (kruskal_count df) = true ->
   exists bars_kruskal,
     plot_all_in_one df output_dir =
       save output_dir "comprehensive_comparison.png"
         (AllInOneFigure
            (line_series Time_ms (sort_values_Vertices (select_algorithm "Prim" df)))
            (line_series Time_ms (sort_values_Vertices (select_algorithm "Kruskal" df)))
            (line_series Operations (sort_values_Vertices (select_algorithm "Prim" df)))
            (line_series Operations (sort_values_Vertices (select_algorithm "Kruskal" df)))
            (line_series MST_Cost (sort_values_Vertices (select_algorithm "Prim" df)))
            (line_series MST_Cost (sort_values_Vertices (select_algorithm "Kruskal" df)))
            (map Time_ms (sort_values_Vertices (select_algorithm "Prim" df)))
            bars_kruskal
            (map Vertices (sort_values_Vertices (select_algorithm "Prim" df)))) /\
     List.length bars_kruskal =
       broadcast_length (prim_count df) (kruskal_count df) /\
     (prim_count df = kruskal_count df ->
      bars_kruskal =
        map Time_ms (sort_values_Vertices (select_algorithm "Kruskal" df))) /\
     (forall k, select_algorithm "Kruskal" df = [k] ->
      bars_kruskal = repeat (Time_ms k) (prim_count df))).
Proof.
  intros _. destruct (plot_all_in_one_cases df output_dir) as [Aok Abad].
  split; [exact Abad|].
  intros H. destruct (Aok H) as (bars & Ep & Eb & Lb). exists bars.
  split; [exact Ep|]. split; [exact Lb|]. split.
  - intros Heq.
    rewrite broadcast_heights_same_length in Eb
      by (rewrite length_seq, length_map, sorted_count; exact Heq).
    now injection Eb.
  - intros k Hk.
    assert (Ek : sort_values_Vertices (select_algorithm "Kruskal" df) = [k]).
    { apply Permutation_length_1_inv, Permutation_sym.
      rewrite <- Hk. apply sort_values_perm. }
    rewrite Ek in Eb. cbn [map] in Eb.
    rewrite broadcast_heights_single, length_seq in Eb.
    now injection Eb.
Qed.

Lemma all_in_one_outcome_witness :
  prim_only <> [] /\
  plot_all_in_one (lib := reference_library) (world := ideal_world prim_only)
    prim_only "docs/plots" = ([], Raise ValueError).
Proof.
  assert (Hne : prim_only <> []) by discriminate.
  split; [exact Hne|].
  apply (proj1 (all_in_one_outcome (lib := reference_library)
                  (world := ideal_world prim_only) prim_only "docs/plots" Hne)).
  reflexivity.
Defined.

(** ** The shape of the ratio chart *)

Lemma insert_key_length k ks :
  (List.length (insert_key k ks) <= S (List.length ks))%nat.
Proof.
  induction ks as [|k' ks IH]; cbn [insert_key List.length]; [lia|].
  destruct (String.compare k k'); cbn [List.length]; lia.
Qed.

Lemma group_keys_length df : (List.length (group_keys df) <= List.length df)%nat.
Proof.
  unfold group_keys. induction df as [|r df IH]; cbn [map fold_right List.length];
    [lia|].
  pose proof (insert_key_length (Graph r) (fold_right insert_key [] (map Graph df))).
  lia.
Qed.

(** Every group contributes at most one entry; none is dropped exactly
    when every group contributes. *)
Lemma contributions_length groups :
  (List.length (contributions groups) <= List.length groups)%nat /\
  (List.length (contributions groups) = List.length groups <->
   forall g, In g groups -> exists entry, group_ratio (snd g) = Ok (Some entry)).
Proof.
  unfold contributions.
  induction groups as [|g groups [IH1 IH2]]; cbn [flat_map List.length].
  - split; [lia|]. split; [intros _ g []|reflexivity].
  - rewrite length_app.
    destruct (group_ratio (snd g)) as [[entry|]|e] eqn:E; cbn [List.length].
    + split; [lia|]. split.
      * intros H g' [<-|Hg']; [eauto|]. apply (proj1 IH2); [lia|exact Hg'].
      * intros H.
        pose proof (proj2 IH2 (fun g' Hg' => H g' (or_intror Hg'))) as X. lia.
    + split; [lia|]. split; [lia|].
      intros H. destruct (H g (or_introl eq_refl)) as (entry & E').
      congruence.
    + split; [lia|]. split; [lia|].
      intros H. destruct (H g (or_introl eq_refl)) as (entry & E').
      congruence.
Qed.

Lemma series_of_contributions {lib : Library} {lawful : Lawful lib}
    df vertices ratios :
  performance_ratio_series df = Ok (vertices, ratios) ->
  (forall g, In g (groupby_Graph df) -> group_ratio (snd g) <> Raise IndexError) /\
  contributions (groupby_Graph df) <> [] /\
  vertices = map fst (sorted (contributions (groupby_Graph df))) /\
  ratios = map snd (sorted (contributions (groupby_Graph df))).
Proof.
  intros H.
  assert (Hc : forall g, In g (groupby_Graph df) ->
                         group_ratio (snd g) <> Raise IndexError).
  { unfold performance_ratio_series in H.
    destruct (ratio_loop (groupby_Graph df) [] []) as [out|e] eqn:E; [|discriminate].
    now apply (ratio_loop_ok_inv _ _ _ _ E). }
  split; [exact Hc|].
  rewrite (performance_ratio_series_completes df Hc) in H.
  split.
  - intros E. rewrite E, sorted_nil in H. discriminate H.
  - now apply unzip_pairs_ok.
Qed.

Lemma group_ratio_contributes group :
  group_ratio group <> Raise IndexError ->
  ((exists entry, group_ratio group = Ok (Some entry)) <->
   exists p, values0 (map Time_ms (select_algorithm "Prim" group)) = Ok p /\
             F64.ltb F64.zero p = true).
Proof.
  intros Hc. split.
  - intros ([v ratio] & E). apply group_ratio_some in E.
    destruct E as (p & k & Hp & _ & _ & Hpos & _). eauto.
  - intros (p & Hp & Hpos). unfold group_ratio, rbind in *. rewrite Hp in *.
    destruct (values0 (map Time_ms (select_algorithm "Kruskal" group)))
      as [k|e] eqn:Ek.
    + destruct (values0 (map Vertices group)) as [v|e] eqn:Ev.
      * rewrite Hpos. eauto.
      * apply values0_raise in Ev. subst. congruence.
    + apply values0_raise in Ek. subst. congruence.
Qed.

Lemma ratio_colors_spec ratios :
  Forall2 (fun ratio c => c = green <-> F64.ltb ratio F64.one = true)
    ratios (ratio_colors ratios).
Proof.
  unfold ratio_colors. induction ratios as [|ratio rs IH]; cbn [map];
    constructor; [|exact IH].
  destruct (F64.ltb ratio F64.one); split; congruence.
Qed.

Lemma ratio_colors_nan ratios ratio c :
  In (ratio, c) (combine ratios (ratio_colors ratios)) ->
  F64.isnan ratio = true -> c = red.
Proof.
  unfold ratio_colors. induction ratios as [|a l IH]; cbn [map combine In];
    [tauto|].
  intros [E|Hin] Hnan; [|now apply IH].
  injection E as -> <-. destruct ratio; try discriminate Hnan. reflexivity.
Qed.

(** X6: when the ratio chart is drawn it has as many tick labels and
    colours as bars, at least one bar and at most one per distinct
    graph of the frame.  No graph is dropped exactly when the first
    Prim time of every graph is positive.  Every tick label is the
    vertex count of the first row of some graph, and a bar is green
    exactly when its ratio is below 1, so a NaN ratio is drawn red. *)
Theorem ratio_chart_shape {lib : Library} {lawful : Lawful lib}
    (df : DataFrame) (vertices : list Z) (ratios : list F64.t) :
  performance_ratio_series df = Ok (vertices, ratios) ->
  List.length vertices = List.length ratios /\
  List.length (ratio_colors ratios) = List.length ratios /\
  (1 <= List.length ratios <= List.length (group_keys df))%nat /\
  (List.length (group_keys df) <= List.length df)%nat /\
  (List.length ratios = List.length (group_keys df) <->
   forall g, In g (map Graph df) ->
     exists p,
       values0 (map Time_ms (select_algorithm "Prim" (group_of g df))) = Ok p /\
       F64.ltb F64.zero p = true) /\
  (forall v, In v vertices ->
     exists g, In g (map Graph df) /\
               values0 (map Vertices (group_of g df)) = Ok v) /\
  Forall2 (fun ratio c => c = green <-> F64.ltb ratio F64.one = true)
    ratios (ratio_colors ratios) /\
  (forall ratio c, In (ratio, c) (combine ratios (ratio_colors ratios)) ->
     F64.isnan ratio = true -> c = red).
Proof.
  intros H. destruct (series_of_contributions df vertices ratios H)
    as (Hc & Hne & -> & ->).
  set (C := contributions (groupby_Graph df)) in *.
  assert (LS : List.length (sorted C) = List.length C)
    by apply sorted_length.
  assert (LG : List.length (groupby_Graph df) = List.length (group_keys df))
    by (unfold groupby_Graph; apply length_map).
  destruct (contributions_length (groupby_Graph df)) as [CL CE]. fold C in CL, CE.
  rewrite !length_map, LS.
  split; [reflexivity|]. split; [unfold ratio_colors; now rewrite !length_map|].
  split; [|split; [apply group_keys_length|split; [|split; [|split]]]].
  - split; [|lia]. destruct C; [congruence|cbn [List.length]; lia].
  - rewrite <- LG, CE. split.
    + intros A g Hg.
      assert (Hin : In (g, group_of g df) (groupby_Graph df))
        by (now apply groupby_In).
      apply (group_ratio_contributes (group_of g df) (Hc _ Hin)).
      exact (A _ Hin).
    + intros A [g group] Hin. pose proof (Hc _ Hin) as Hn.
      apply groupby_In in Hin. destruct Hin as [Hg ->]. cbn [snd] in *.
      apply (group_ratio_contributes (group_of g df) Hn). exact (A g Hg).
  - intros v Hv. apply in_map_iff in Hv. destruct Hv as ([v' ratio] & <- & Hin).
    apply (Permutation_in _ (sorted_perm _)) in Hin.
    apply contributions_In in Hin. destruct Hin as ([g group] & Hg & E).
    apply groupby_In in Hg. destruct Hg as [Hg ->]. cbn [snd fst] in *.
    apply group_ratio_some in E. destruct E as (p & k & _ & _ & Hv & _).
    eauto.
  - apply ratio_colors_spec.
  - apply ratio_colors_nan.
Qed.

Lemma ratio_chart_shape_witness :
  exists vertices ratios,
    performance_ratio_series (lib := reference_library)
      (scenario_A 20 40 1 2 3 4) = Ok (vertices, ratios) /\
    List.length vertices = List.length ratios /\
    (1 <= List.length ratios <= List.length (group_keys (scenario_A 20 40 1 2 3 4)))%nat.
Proof.
  destruct (performance_ratio_series (lib := reference_library)
              (scenario_A 20 40 1 2 3 4))
    as [[vertices ratios]|e] eqn:E; [|vm_compute in E; discriminate E].
  exists vertices, ratios.
  destruct (ratio_chart_shape (lib := reference_library) _ _ _ E)
    as (H1 & _ & H2 & _).
  split; [reflexivity|]. split; [exact H1 | exact H2].
Defined.

(** ** The two cost checks of one run *)

(** X9: when the Prim rows and the Kruskal rows are each listed in
    strictly ascending order of [Vertices], the verdict annotated on
    the cost-verification figure is the verdict written to the
    summary.  When they are not, the two reports of one run can
    contradict each other: with the graphs in opposite orders the
    figure says that all costs match and the summary says that they
    differ. *)
Theorem cost_checks_agree_when_sorted {lib : Library} {lawful : Lawful lib} :
  (forall df s,
     StronglySorted (fun a b => Vertices a < Vertices b)
       (select_algorithm "Prim" df) ->
     StronglySorted (fun a b => Vertices a < Vertices b)
       (select_algorithm "Kruskal" df) ->
     summary_statistics df = Ok s ->
     cost_verification_verdict df = Ok (costs_match s)) /\
  (exists s,
     summary_statistics crossed_order = Ok s /\ costs_match s = false /\
     cost_verification_verdict crossed_order = Ok true).
Proof.
  split.
  - intros df s Hp Hk Hs.
    destruct (summary_statistics_inv df s Hs) as (Hne & _ & Hv & _).
    rewrite (cost_verification_verdict_rows df Hne).
    rewrite (sort_values_sorted_id _ Hp), (sort_values_sorted_id _ Hk).
    exact Hv.
  - eexists. split; [vm_compute; reflexivity|].
    split; [vm_compute; reflexivity|].
    rewrite reference_verdict; [vm_compute; reflexivity|].
    apply distinct_vertices_dec. vm_compute. reflexivity.
Qed.

Lemma cost_checks_agree_when_sorted_witness :
  exists s,
    summary_statistics (scenario_A 20 40 1 2 3 4) = Ok s /\
    cost_verification_verdict (lib := reference_library)
      (scenario_A 20 40 1 2 3 4) = Ok (costs_match s).
Proof.
  destruct (summary_statistics (scenario_A 20 40 1 2 3 4)) as [s|e] eqn:E;
    [|vm_compute in E; discriminate E].
  exists s. split; [reflexivity|].
  apply (proj1 (cost_checks_agree_when_sorted (lib := reference_library))
           (scenario_A 20 40 1 2 3 4) s); [| |exact E].
  - cbn. repeat constructor; cbn; lia.
  - cbn. repeat constructor; cbn; lia.
Defined.

(** ** Rows of other algorithms *)

Lemma select_benchmarked name df :
  name = "Prim"%string \/ name = "Kruskal"%string ->
  select_algorithm name (filter benchmarked df) = select_algorithm name df.
Proof.
  intros Hn. unfold select_algorithm.
  induction df as [|r df IH]; [reflexivity|].
  cbn [filter]. unfold benchmarked at 1.
  destruct (String.eqb (Algorithm r) "Prim") eqn:Ep;
    destruct (String.eqb (Algorithm r) "Kruskal") eqn:Ek;
    cbn [orb filter]; rewrite IH; try reflexivity.
  destruct Hn as [-> | ->]; [now rewrite Ep | now rewrite Ek].
Qed.

(** X10: the reports that select rows by algorithm ignore the rows
    of any other algorithm.  Removing those rows from the file
    changes nothing in what the execution-time, operations,
    edge-density and combined reports hand to the renderer, nor in
    whether they raise; the same holds for the cost verification and
    the summary as long as a Prim or Kruskal row is left.  A file
    with rows of other algorithms only passes the cost check
    vacuously, while the file without them has no rows and raises
    [TypeError].  The ratio chart groups all rows by graph and is not
    protected: one row of a third algorithm on a graph of its own
    makes it raise [IndexError]. *)
Theorem other_algorithm_rows_ignored {lib : Library} {lawful : Lawful lib}
    {world : World} (df : DataFrame) (output_dir : string) :
  plot_execution_time_comparison (filter benchmarked df) output_dir =
    plot_execution_time_comparison df output_dir /\
  plot_operations_comparison (filter benchmarked df) output_dir =
    plot_operations_comparison df output_dir /\
  plot_edge_density_impact (filter benchmarked df) output_dir =
    plot_edge_density_impact df output_dir /\
  plot_all_in_one (filter benchmarked df) output_dir =
    plot_all_in_one df output_dir /\
  (filter benchmarked df <> [] ->
   plot_mst_cost_verification (filter benchmarked df) output_dir =
     plot_mst_cost_verification df output_dir /\
   generate_summary_statistics (filter benchmarked df) output_dir =
     generate_summary_statistics df output_dir) /\
  (cost_verification_verdict third_algorithm_only = Ok true /\
   cost_verification_verdict (filter benchmarked third_algorithm_only) =
     Raise TypeError) /\
  (performance_ratio_series with_third_algorithm = Raise IndexError /\
   exists series,
     performance_ratio_series (filter benchmarked with_third_algorithm) =
       Ok series).
Proof.
  assert (P : select_algorithm "Prim" (filter benchmarked df) =
              select_algorithm "Prim" df) by (apply select_benchmarked; now left).
  assert (K : select_algorithm "Kruskal" (filter benchmarked df) =
              select_algorithm "Kruskal" df) by (apply select_benchmarked; now right).
  unfold plot_execution_time_comparison, plot_operations_comparison,
    plot_edge_density_impact, plot_all_in_one.
  rewrite !P, !K.
  split; [reflexivity|]. split; [reflexivity|]. split; [reflexivity|].
  split; [reflexivity|]. split; [|split].
  - intros Hne.
    assert (Hne' : df <> []) by (intros ->; apply Hne; reflexivity).
    assert (D : column_dtype (filter benchmarked df) = column_dtype df).
    { destruct df as [|r df']; [congruence|].
      destruct (filter benchmarked (r :: df')); [congruence | reflexivity]. }
    unfold plot_mst_cost_verification, cost_verification_verdict,
      generate_summary_statistics, summary_statistics, win_counts.
    rewrite !P, !K, D. split; reflexivity.
  - split; [|reflexivity].
    rewrite (cost_verification_verdict_rows third_algorithm_only);
      [|discriminate].
    apply allclose_vacuous. rewrite !length_map, !sorted_count.
    left. split; [reflexivity | cbn; lia].
  - split.
    + rewrite reference_series; [vm_compute; reflexivity|].
      apply ratios_are_numbers_dec. vm_compute. reflexivity.
    + eexists. rewrite reference_series; [vm_compute; reflexivity|].
      apply ratios_are_numbers_dec. vm_compute. reflexivity.
Qed.

Lemma other_algorithm_rows_ignored_witness :
  plot_all_in_one (lib := reference_library)
    (world := ideal_world with_third_algorithm)
    (filter benchmarked with_third_algorithm) "docs/plots" =
  plot_all_in_one (lib := reference_library)
    (world := ideal_world with_third_algorithm)
    with_third_algorithm "docs/plots".
Proof.
  apply (other_algorithm_rows_ignored (lib := reference_library)
           (world := ideal_world with_third_algorithm)
           with_third_algorithm "docs/plots").
Defined.

(** ** The reports that pair nothing *)

(** X11: in the execution-time and operations reports sorting loses
    and repeats nothing: each line handed to the renderer holds one
    point per row of its algorithm, in ascending order of [Vertices],
    so the numbers of points are the row counts.  The figure is saved
    exactly when the layout and the rendering do not raise. *)
Theorem line_reports_complete {lib : Library} {lawful : Lawful lib}
    {world : World} (df : DataFrame) (output_dir : string) :
  (exists prim kruskal,
     plot_execution_time_comparison df output_dir =
       save output_dir "execution_time_comparison.png"
         (ExecutionTimeFigure prim kruskal) /\
     Permutation prim (line_series Time_ms (select_algorithm "Prim" df)) /\
     Permutation kruskal (line_series Time_ms (select_algorithm "Kruskal" df)) /\
     StronglySorted Z.le (map fst prim) /\
     StronglySorted Z.le (map fst kruskal) /\
     List.length prim = prim_count df /\
     List.length kruskal = kruskal_count df) /\
  (exists prim kruskal,
     plot_operations_comparison df output_dir =
       save output_dir "operations_comparison.png"
         (OperationsFigure prim kruskal) /\
     Permutation prim (line_series Operations (select_algorithm "Prim" df)) /\
     Permutation kruskal (line_series Operations (select_algorithm "Kruskal" df)) /\
     StronglySorted Z.le (map fst prim) /\
     StronglySorted Z.le (map fst kruskal) /\
     List.length prim = prim_count df /\
     List.length kruskal = kruskal_count df) /\
  (forall name fig,
     (snd (save output_dir name fig) = Ok tt <->
      savefig (path_join output_dir name) fig = Ok tt) /\
     (snd (save output_dir name fig) = Ok tt ->
      artifacts (fst (save output_dir name fig)) = [path_join output_dir name]) /\
     (forall e, savefig (path_join output_dir name) fig = Raise e ->
                save output_dir name fig = ([], Raise e))).
Proof.
  assert (S : forall name, Permutation
                (sort_values_Vertices (select_algorithm name df))
                (select_algorithm name df))
    by (intros name; apply sort_values_perm).
  assert (K : forall Y (y : BenchmarkRecord -> Y) name,
             StronglySorted Z.le
               (map fst (line_series y
                           (sort_values_Vertices (select_algorithm name df))))).
  { intros Y y name. unfold line_series. rewrite map_map. cbn [fst].
    apply sorted_keys, sort_values_sorted. }
  unfold plot_execution_time_comparison, plot_operations_comparison,
    prim_count, kruskal_count.
  split; [|split].
  - eexists. eexists. split; [reflexivity|].
    split; [apply Permutation_map, S|]. split; [apply Permutation_map, S|].
    split; [apply K|]. split; [apply K|].
    unfold line_series. rewrite !length_map, !sorted_count. split; reflexivity.
  - eexists. eexists. split; [reflexivity|].
    split; [apply Permutation_map, S|]. split; [apply Permutation_map, S|].
    split; [apply K|]. split; [apply K|].
    unfold line_series. rewrite !length_map, !sorted_count. split; reflexivity.
  - intros name fig.
    destruct (savefig (path_join output_dir name) fig) as [[]|e] eqn:E.
    + rewrite (save_ok _ _ _ E). cbn [fst snd].
      split; [tauto|]. split; [reflexivity|]. discriminate.
    + rewrite (save_raise _ _ _ _ E). cbn [fst snd].
      split; [split; discriminate|]. split; [discriminate|].
      intros e' H. injection H as <-. reflexivity.
Qed.

Lemma line_reports_complete_witness :
  exists prim kruskal,
    plot_execution_time_comparison (lib := reference_library)
      (world := ideal_world []) (scenario_A 20 40 1 2 3 4) "docs/plots" =
      save (world := ideal_world []) "docs/plots"
        "execution_time_comparison.png" (ExecutionTimeFigure prim kruskal) /\
    List.length prim = 2%nat /\ List.length kruskal = 2%nat.
Proof.
  destruct (line_reports_complete (lib := reference_library)
              (world := ideal_world []) (scenario_A 20 40 1 2 3 4) "docs/plots")
    as ((prim & kruskal & E & _ & _ & _ & _ & Lp & Lk) & _).
  exists prim, kruskal. split; [exact E|]. split; [exact Lp | exact Lk].
Defined.

(** ** The files of a run *)

Lemma string_app_inv_head (d s s' : string) :
  (d ++ s = d ++ s')%string -> s = s'.
Proof.
  induction d as [|c d IH]; cbn [String.append]; intros H; [exact H|].
  injection H as H. exact (IH H).
Qed.

Lemma path_join_inj output_dir name name' :
  path_join output_dir name = path_join output_dir name' -> name = name'.
Proof.
  unfold path_join. destruct output_dir as [|c d]; [trivial|].
  destruct (ends_with_slash (String c d)); intros H.
  - exact (string_app_inv_head _ _ _ H).
  - apply string_app_inv_head in H. exact (string_app_inv_head _ _ _ H).
Qed.

Lemma NoDup_map_injective {A B : Type} (f : A -> B) (l : list A) :
  (forall x y, f x = f y -> x = y) -> NoDup l -> NoDup (map f l).
Proof.
  intros Hf H. induction H as [|a l Hn _ IH]; cbn [map]; constructor; [|exact IH].
  intros Hin. apply in_map_iff in Hin. destruct Hin as (b & E & Hb).
  apply Hf in E. now subst b.
Qed.

Lemma artifact_names_distinct : NoDup artifact_names.
Proof.
  unfold artifact_names.
  repeat (constructor;
          [cbn [In]; intros H;
           repeat (destruct H as [H|H]; [discriminate H|]); exact H|]).
  constructor.
Qed.

Lemma all_artifacts_distinct output_dir : NoDup (all_artifacts output_dir).
Proof.
  apply NoDup_map_injective; [apply path_join_inj | apply artifact_names_distinct].
Qed.

Lemma NoDup_firstn_of {A : Type} (n : nat) (l : list A) :
  NoDup l -> NoDup (firstn n l).
Proof.
  intros H. rewrite <- (firstn_skipn n l) in H.
  exact (NoDup_app_remove_r _ _ H).
Qed.

(** X12: the seven reports are written under seven different paths,
    whatever the output directory, and the files written by a run
    are an initial segment of them in calling order, whichever
    operation fails: no run writes a file twice and no report
    overwrites another. *)
Theorem run_writes_distinct_files {lib : Library} {world : World}
    (args : arguments) :
  NoDup (all_artifacts (output args)) /\
  (exists n, artifacts (fst (main args)) =
               firstn n (all_artifacts (output args))) /\
  NoDup (artifacts (fst (main args))).
Proof.
  pose proof (all_artifacts_distinct (output args)) as D.
  destruct (main_artifacts_prefix args) as (n & E).
  split; [exact D|]. split; [eauto|].
  rewrite E. now apply NoDup_firstn_of.
Qed.

(** ** Well-formed input *)

Lemma strictly_sorted_NoDup (l : list string) :
  StronglySorted key_lt l -> NoDup l.
Proof.
  induction 1 as [|a l _ IH F]; constructor; [|exact IH].
  intros Hin. rewrite Forall_forall in F. exact (key_lt_irrefl a (F a Hin)).
Qed.

(** With one record per graph for an algorithm, and a record for every
    graph, the algorithm has as many rows as the frame has graphs. *)
Lemma rows_per_graph name df :
  NoDup (map Graph (select_algorithm name df)) ->
  (forall g, In g (map Graph df) -> select_algorithm name (group_of g df) <> []) ->
  List.length (select_algorithm name df) = List.length (group_keys df).
Proof.
  intros Hnd Hall. rewrite <- (length_map Graph (select_algorithm name df)).
  apply Permutation_length, NoDup_Permutation;
    [exact Hnd | apply strictly_sorted_NoDup, group_keys_sorted |].
  intros g. rewrite group_keys_In. split.
  - intros Hin. apply in_map_iff in Hin. destruct Hin as (r & <- & Hr).
    apply select_algorithm_In in Hr. apply in_map. tauto.
  - intros Hg. specialize (Hall g Hg).
    destruct (select_algorithm name (group_of g df)) as [|r rs] eqn:E;
      [congruence|].
    assert (Hr : In r (select_algorithm name (group_of g df)))
      by (rewrite E; now left).
    apply select_algorithm_In in Hr. destruct Hr as [Hr Ha].
    apply group_of_incl in Hr. destruct Hr as [Hr <-].
    apply in_map, select_algorithm_In. tauto.
Qed.

(** With one record per graph, the first record of an algorithm in the
    group of a graph is its only record. *)
Lemma only_record_of_group name df r :
  NoDup (map Graph (select_algorithm name df)) ->
  In r (select_algorithm name df) ->
  select_algorithm name (group_of (Graph r) df) = [r].
Proof.
  intros Hnd Hr. rewrite select_group_comm.
  assert (L : (List.length
                 (filter (fun r' => String.eqb (Graph r') (Graph r))
                    (select_algorithm name df)) <= 1)%nat).
  { apply (filter_one_key Graph _ (Graph r)); [exact Hnd|].
    intros x Hx. now apply String.eqb_eq. }
  assert (Hin : In r (filter (fun r' => String.eqb (Graph r') (Graph r))
                        (select_algorithm name df))).
  { apply filter_In. split; [exact Hr | apply String.eqb_refl]. }
  destruct (filter _ _) as [|a [|b l]]; cbn [List.length] in L; try lia.
  - destruct Hin.
  - destruct Hin as [->|[]]. reflexivity.
Qed.

Lemma well_formed_series {lib : Library} {lawful : Lawful lib} df :
  one_record_per_algorithm df ->
  (forall g, In g (map Graph df) ->
     select_algorithm "Prim" (group_of g df) <> [] /\
     select_algorithm "Kruskal" (group_of g df) <> []) ->
  (exists r, In r (select_algorithm "Prim" df) /\
             F64.ltb F64.zero (Time_ms r) = true) ->
  exists series, performance_ratio_series df = Ok series.
Proof.
  intros [Hp _] Hall (r & Hr & Hpos).
  pose proof (groups_complete df Hall) as Hc.
  rewrite (performance_ratio_series_completes df Hc).
  assert (Hg : In (Graph r) (map Graph df)).
  { apply in_map. apply select_algorithm_In in Hr. tauto. }
  assert (Hin : In (Graph r, group_of (Graph r) df) (groupby_Graph df))
    by (now apply groupby_In).
  destruct (proj2 (group_ratio_contributes (group_of (Graph r) df) (Hc _ Hin)))
    as (entry & E).
  { exists (Time_ms r). split; [|exact Hpos].
    now rewrite (only_record_of_group "Prim" df r Hp Hr). }
  assert (Hentry : In entry (contributions (groupby_Graph df))).
  { apply contributions_In. eauto. }
  pose proof (sorted_length (contributions (groupby_Graph df))) as L.
  destruct (sorted (contributions (groupby_Graph df))) as [|a l].
  - destruct (contributions (groupby_Graph df)); [destruct Hentry | discriminate L].
  - eexists. reflexivity.
Qed.

(** X13: a frame in which every graph has exactly one Prim record and
    one Kruskal record, and in which some Prim time is positive, is
    processed completely when the output directory can be created and
    no layout, rendering or write fails: the two algorithms have as
    many rows as there are graphs, the ratio series exists, and the
    run writes all seven artifacts and prints the closing message. *)
Theorem well_formed_run_writes_everything {lib : Library}
    {lawful : Lawful lib} {world : World} (args : arguments)
    (df : DataFrame) :
  reliable_output world ->
  makedirs (output args) = Ok tt ->
  read_csv (input args) = Ok df ->
  one_record_per_algorithm df ->
  (forall g, In g (map Graph df) ->
     select_algorithm "Prim" (group_of g df) <> [] /\
     select_algorithm "Kruskal" (group_of g df) <> []) ->
  (exists r, In r (select_algorithm "Prim" df) /\
             F64.ltb F64.zero (Time_ms r) = true) ->
  prim_count df = List.length (group_keys df) /\
  kruskal_count df = List.length (group_keys df) /\
  (exists series, performance_ratio_series df = Ok series) /\
  artifacts (fst (main args)) = all_artifacts (output args) /\
  In (Print (AllSaved (output args))) (fst (main args)) /\
  snd (main args) = Ok tt.
Proof.
  intros reliable D R Hone Hall Hpos.
  assert (Cp : prim_count df = List.length (group_keys df)).
  { apply rows_per_graph; [apply Hone|]. intros g Hg. apply (Hall g Hg). }
  assert (Ck : kruskal_count df = List.length (group_keys df)).
  { apply rows_per_graph; [apply Hone|]. intros g Hg. apply (Hall g Hg). }
  destruct (well_formed_series df Hone Hall Hpos) as (series & Es).
  split; [exact Cp|]. split; [exact Ck|]. split; [eauto|].
  assert (Hc : shapes_compatible (prim_count df) (kruskal_count df) = true).
  { unfold shapes_compatible. now rewrite Cp, Ck, Nat.eqb_refl. }
  assert (Hne : df <> []).
  { destruct Hpos as (r & Hr & _). intros ->. destruct Hr. }
  destruct (generate_all_outcome df (output args) reliable) as (_ & _ & _ & G3).
  destruct (G3 Hne Hc series Es) as (tr & Eg & Ea & Hin).
  rewrite (main_on_frame _ _ D R). cbv zeta. cbn [fst snd].
  rewrite Eg, try_except_ok. cbn [fst snd]. split; [|split].
  - rewrite artifacts_app, Ea. reflexivity.
  - apply in_app_iff. now right.
  - reflexivity.
Qed.

Lemma well_formed_run_writes_everything_witness :
  reliable_output (ideal_world (scenario_A 20 40 1 2 3 4)) /\
  one_record_per_algorithm (scenario_A 20 40 1 2 3 4) /\
  artifacts (fst (main (lib := reference_library)
                    (world := ideal_world (scenario_A 20 40 1 2 3 4))
                    default_args)) =
    all_artifacts (output default_args).
Proof.
  assert (Hone : one_record_per_algorithm (scenario_A 20 40 1 2 3 4)).
  { split; cbn; repeat constructor; cbn; intuition discriminate. }
  split; [apply reliable_ideal_world|]. split; [exact Hone|].
  apply (well_formed_run_writes_everything (lib := reference_library)
           (world := ideal_world (scenario_A 20 40 1 2 3 4)) default_args
           (scenario_A 20 40 1 2 3 4)
           (reliable_ideal_world _) eq_refl eq_refl Hone).
  - cbn [scenario_A map Graph row In].
    intros g [<-|[<-|[<-|[<-|[]]]]]; split; discriminate.
  - eexists. split; [left; reflexivity|]. vm_compute. reflexivity.
Defined.
